(** * test-gen: the static source analyzer of [src/analyzer.js]

    A shallow embedding of the analyzer (language classifier, framework
    locator, brace-scoped method scanner, export and import extractors,
    analysis orchestrator) and the properties its specification states.

    Conventions of the model.
    - A JavaScript string is a [text]: the list of its code units.  The
      model covers code units below 256 (Latin-1), for which [\s], [\w],
      [trim] and [toLowerCase] are written out in full.
    - Indices ([match.index], [lastIndex], [classStart]) are natural
      numbers; [indexOf] answers [None] where JavaScript answers [-1].
    - A regular expression literal of the source is a [regex] term, run by
      a backtracking matcher that follows the priorities of the
      ECMAScript matcher (greedy quantifiers, ordered alternatives,
      rejection of empty iterations).
    - Node's [path] functions, [JSON.parse] and the file system are
      interfaces ([PathApi], [JsonApi], [FileSystem]); every filesystem
      operation the analyzer performs is recorded in a trace. *)

From Stdlib Require Import Ascii String ZArith Arith Lia Bool List.
Import ListNotations.

(* ================================================================== *)
(** * Part I: the model                                                *)
(* ================================================================== *)

(* ================================================================== *)
(** * Text: code units and the string primitives the source calls      *)
(* ================================================================== *)

Definition text := list ascii.

(** A string literal of the source as a [text]. *)
Definition txt (s : string) : text := list_ascii_of_string s.

Definition code (c : ascii) : nat := nat_of_ascii c.

(** Code units that the string literals of the source spell with an
    escape or that delimit Rocq literals. *)
Definition LF : ascii := ascii_of_nat 10.
Definition DQUOTE : ascii := ascii_of_nat 34.

Definition text_eqb (a b : text) : bool :=
  if list_eq_dec ascii_dec a b then true else false.

(** [s.startsWith(p)]. *)
Fixpoint startsWith (p s : text) : bool :=
  match p, s with
  | [], _ => true
  | _ :: _, [] => false
  | a :: p', b :: s' => Ascii.eqb a b && startsWith p' s'
  end.

(** [s.includes(p)]: [p] starts at some position of [s]. *)
Fixpoint includes (p s : text) : bool :=
  startsWith p s ||
  match s with
  | [] => false
  | _ :: s' => includes p s'
  end.

(** [s.slice(a, b)] for non-negative [a] and [b]. *)
Definition slice (a b : nat) (s : text) : text := firstn (b - a) (skipn a s).

(** First position of the code unit [c] in [s]; [None] is JavaScript's -1. *)
Fixpoint find_char (c : ascii) (s : text) : option nat :=
  match s with
  | [] => None
  | x :: s' => if Ascii.eqb x c then Some 0 else option_map S (find_char c s')
  end.

(** [s.indexOf(c, from)] for a one-character needle and [from >= 0]. *)
Definition indexOf (c : ascii) (from : nat) (s : text) : option nat :=
  option_map (fun i => from + i) (find_char c (skipn from s)).

Definition between (lo hi : nat) (c : ascii) : bool :=
  (lo <=? code c) && (code c <=? hi).

(** WhiteSpace and LineTerminator code units below 256: TAB, LF, VT, FF,
    CR, SPACE and NO-BREAK SPACE.  This is the class [\s] and the set
    [trim] strips. *)
Definition is_space (c : ascii) : bool :=
  between 9 13 c || (code c =? 32) || (code c =? 160).

(** The class [\w]: [A-Za-z0-9_]. *)
Definition is_word (c : ascii) : bool :=
  between 97 122 c || between 65 90 c || between 48 57 c || (code c =? 95).

(** LineTerminator code units below 256, which [^] looks behind for
    under the [m] flag. *)
Definition is_line_terminator (c : ascii) : bool :=
  (code c =? 10) || (code c =? 13).

Fixpoint trimStart (s : text) : text :=
  match s with
  | [] => []
  | c :: s' => if is_space c then trimStart s' else s
  end.

Definition trimEnd (s : text) : text := rev (trimStart (rev s)).

(** [s.trim()]. *)
Definition trim (s : text) : text := trimEnd (trimStart s).

(** Lower-casing of a code unit below 256: [A-Z] and the upper-case
    letters of the Latin-1 supplement (U+00C0..U+00DE but U+00D7) move up
    by 32; every other code unit is its own lower case. *)
Definition lower_char (c : ascii) : ascii :=
  if between 65 90 c || (between 192 222 c && negb (code c =? 215))
  then ascii_of_nat (code c + 32)
  else c.

(** [s.toLowerCase()]. *)
Definition toLowerCase (s : text) : text := map lower_char s.

(** [parts.join(sep)]. *)
Fixpoint join_with (sep : text) (parts : list text) : text :=
  match parts with
  | [] => []
  | [p] => p
  | p :: rest => p ++ sep ++ join_with sep rest
  end.

(* ================================================================== *)
(** * Regular expressions                                              *)
(* ================================================================== *)

(** The constructs the nine regular expression literals of the source
    use.  Groups are numbered as JavaScript numbers them, by opening
    parenthesis. *)
Inductive regex : Type :=
| Empty
| Lit (c : ascii)
| Class (p : ascii -> bool)
| Seq (r1 r2 : regex)
| Alt (r1 r2 : regex)
| Star (r : regex)
| Opt (r : regex)
| Group (n : nat) (r : regex)
| LineStart.

(** [r+] is one [r] and then [r*]. *)
Definition Plus (r : regex) : regex := Seq r (Star r).

(** A literal run of characters. *)
Fixpoint Str (s : text) : regex :=
  match s with
  | [] => Empty
  | [c] => Lit c
  | c :: s' => Seq (Lit c) (Str s')
  end.

Definition Word (s : string) : regex := Str (txt s).

(** The state of one match attempt: the position reached, the text that
    remains from there, the code unit just before (for [^]) and the
    captures made so far, most recent first. *)
Record mstate : Type := MState {
  pos : nat;
  rest : text;
  prev : option ascii;
  caps : list (nat * text)
}.

Definition advance (c : ascii) (tl : text) (st : mstate) : mstate :=
  {| pos := S (pos st); rest := tl; prev := Some c; caps := caps st |}.

Definition set_cap (n : nat) (t : text) (st : mstate) : mstate :=
  {| pos := pos st; rest := rest st; prev := prev st;
     caps := (n, t) :: caps st |}.

(** [^] under the [m] flag: at the start of the text or just after a
    line terminator. *)
Definition at_line_start (st : mstate) : bool :=
  match prev st with
  | None => true
  | Some c => is_line_terminator c
  end.

Definition or_else {A} (a b : option A) : option A :=
  match a with
  | Some _ => a
  | None => b
  end.

(** The loop of a greedy [*] over [m1], the matcher of its body: try
    one more iteration first, fall back to the continuation.  An
    iteration that consumes nothing is rejected.  The counter starts at
    the length of the remaining text: every accepted iteration consumes
    a code unit, so it never runs out before the text does. *)
Fixpoint star_loop (m1 : mstate -> (mstate -> option mstate) -> option mstate)
  (k : mstate -> option mstate) (n : nat) (s0 : mstate) {struct n}
  : option mstate :=
  match n with
  | 0 => k s0
  | S n' =>
      or_else
        (m1 s0 (fun s1 => if pos s1 =? pos s0 then None else star_loop m1 k n' s1))
        (k s0)
  end.

(** The backtracking matcher, in continuation-passing style as in the
    ECMAScript specification: [rmatch r st k] runs [r] from [st] and
    hands each way of matching, in priority order, to [k] until [k]
    accepts one. *)
Fixpoint rmatch (r : regex) (st : mstate) (k : mstate -> option mstate)
  {struct r} : option mstate :=
  match r with
  | Empty => k st
  | Lit c =>
      match rest st with
      | x :: tl => if Ascii.eqb x c then k (advance x tl st) else None
      | [] => None
      end
  | Class p =>
      match rest st with
      | x :: tl => if p x then k (advance x tl st) else None
      | [] => None
      end
  | Seq r1 r2 => rmatch r1 st (fun st1 => rmatch r2 st1 k)
  | Alt r1 r2 => or_else (rmatch r1 st k) (rmatch r2 st k)
  | Star r1 => star_loop (rmatch r1) k (length (rest st)) st
  | Opt r1 =>
      or_else
        (rmatch r1 st (fun s1 => if pos s1 =? pos st then None else k s1))
        (k st)
  | Group n r1 =>
      rmatch r1 st
        (fun s1 => k (set_cap n (firstn (pos s1 - pos st) (rest st)) s1))
  | LineStart => if at_line_start st then k st else None
  end.

(** The result array of [regex.exec]: [match.index], [match[0]], the
    numbered groups, and the [lastIndex] the regex is left with. *)
Record rx_match : Type := RxMatch {
  index : nat;
  matched : text;
  groups : list (nat * text);
  lastIndex : nat
}.

(** [match[n]]; [None] is [undefined], a group that took no part. *)
Fixpoint group (n : nat) (g : list (nat * text)) : option text :=
  match g with
  | [] => None
  | (m, t) :: g' => if m =? n then Some t else group n g'
  end.

(** [match[n]] where the source uses it as a string: [undefined]
    cannot occur there. *)
Definition group_text (n : nat) (m : rx_match) : text :=
  match group n (groups m) with
  | Some t => t
  | None => []
  end.

(** One attempt at position [i] of the text, [s] being what remains. *)
Definition match_at (r : regex) (i : nat) (p : option ascii) (s : text)
  : option rx_match :=
  match rmatch r {| pos := i; rest := s; prev := p; caps := [] |} Some with
  | Some st =>
      Some {| index := i; matched := firstn (pos st - i) s;
              groups := caps st; lastIndex := pos st |}
  | None => None
  end.

(** The leftmost match at or after position [i]. *)
Fixpoint search (r : regex) (i : nat) (p : option ascii) (s : text)
  {struct s} : option rx_match :=
  match match_at r i p s with
  | Some m => Some m
  | None =>
      match s with
      | [] => None
      | c :: s' => search r (S i) (Some c) s'
      end
  end.

(** The code unit before position [i] of [s], if any. *)
Definition char_before (i : nat) (s : text) : option ascii :=
  match i with
  | 0 => None
  | S j => nth_error s j
  end.

(** [regex.exec(s)] of a global regex whose [lastIndex] is [i]. *)
Definition exec (r : regex) (s : text) (i : nat) : option rx_match :=
  if length s <? i then None
  else search r i (char_before i s) (skipn i s).

(** The loop [while ((match = regex.exec(s)) !== null) { ... }] of a
    global regex, as the list of the matches its body sees.  Each round
    restarts at the [lastIndex] of the match before.  The regular
    expressions of the source match no empty text (see [exec_progress]),
    so [lastIndex] grows at every round and [length s + 1] rounds are
    enough (see [exec_loop_unfold]). *)
Fixpoint exec_loop (r : regex) (s : text) (fuel : nat) (i : nat)
  {struct fuel} : list rx_match :=
  match fuel with
  | 0 => []
  | S fuel' =>
      match exec r s i with
      | Some m => m :: exec_loop r s fuel' (lastIndex m)
      | None => []
      end
  end.

Definition exec_all (r : regex) (s : text) : list rx_match :=
  exec_loop r s (S (length s)) 0.

(** ** Building blocks of the regular expression literals *)

Fixpoint seqs (l : list regex) : regex :=
  match l with
  | [] => Empty
  | [r] => r
  | r :: l' => Seq r (seqs l')
  end.

Fixpoint alts (l : list regex) : regex :=
  match l with
  | [] => Empty
  | [r] => r
  | r :: l' => Alt r (alts l')
  end.

(** [\s], [\S], [\w], a negated one-character class, the class of the
    two quote characters and its negation. *)
Definition ws : regex := Class is_space.
Definition non_ws : regex := Class (fun c => negb (is_space c)).
Definition wd : regex := Class is_word.
Definition is_quote (c : ascii) : bool :=
  Ascii.eqb c "'"%char || Ascii.eqb c DQUOTE.
Definition not_char (x : ascii) : regex := Class (fun c => negb (Ascii.eqb c x)).
Definition quote : regex := Class is_quote.
Definition non_quote : regex := Class (fun c => negb (is_quote c)).

(* ================================================================== *)
(** * Brace-scoped method scanner: [extractClassMethods]               *)
(* ================================================================== *)

(** One entry of [methods]: [{ name, signature }]. *)
Record method : Type := Method {
  method_name : text;
  method_signature : text
}.

(** The literal of the source, its parts set apart by blanks:
    [(?: (?: async|static|get|set|public|private|protected ) \s+ )*
     ( \w+ ) \s* \( ( [^)]* ) \) \s* (?: : \s* \w+ )? \s* \{], flag g. *)
Definition methodRegex : regex :=
  seqs [ Star (Seq (alts [Word "async"; Word "static"; Word "get"; Word "set";
                          Word "public"; Word "private"; Word "protected"])
                   (Plus ws));
         Group 1 (Plus wd); Star ws; Lit "("%char;
         Group 2 (Star (not_char ")"%char)); Lit ")"%char; Star ws;
         Opt (seqs [Lit ":"%char; Star ws; Plus wd]); Star ws; Lit "{"%char ].

(** The names the method loop skips. *)
Definition control_keywords : list text :=
  [txt "if"; txt "for"; txt "while"; txt "switch"; txt "catch"].

Definition is_control_keyword (name : text) : bool :=
  existsb (text_eqb name) control_keywords.

(** The loop [while (i < source.length)]: [s] is the text from position
    [i] on and [depth] the counter on entry.  The result is the [i] at
    which the loop breaks, [None] when it runs to the end of the text. *)
Fixpoint scan_braces (s : text) (i : nat) (depth : Z) {struct s} : option nat :=
  match s with
  | [] => None
  | c :: s' =>
      let depth1 := if Ascii.eqb c "{"%char then (depth + 1)%Z else depth in
      if Ascii.eqb c "}"%char then
        let depth2 := (depth1 - 1)%Z in
        if (depth2 =? 0)%Z then Some i else scan_braces s' (S i) depth2
      else scan_braces s' (S i) depth1
  end.

(** [classBodyEnd] after the loop: where it broke, else [source.length]. *)
Definition classBodyEnd (source : text) (braceStart : nat) : nat :=
  match scan_braces (skipn braceStart source) braceStart 0%Z with
  | Some i => i
  | None => length source
  end.

(** [source.slice(classBodyStart, classBodyEnd)]. *)
Definition classBody (source : text) (braceStart : nat) : text :=
  slice (braceStart + 1) (classBodyEnd source braceStart) source.

(** The body of the loop over the matches of [methodRegex]. *)
Fixpoint collect_methods (ms : list rx_match) : list method :=
  match ms with
  | [] => []
  | m :: ms' =>
      let name := group_text 1 m in
      if is_control_keyword name then collect_methods ms'
      else {| method_name := name;
              method_signature :=
                name ++ txt "(" ++ trim (group_text 2 m) ++ txt ")" |}
           :: collect_methods ms'
  end.

Definition extractClassMethods (source : text) (classStart : nat) : list method :=
  match indexOf "{"%char classStart source with
  | None => []
  | Some braceStart =>
      collect_methods (exec_all methodRegex (classBody source braceStart))
  end.

(* ================================================================== *)
(** * Export extractors                                                *)
(* ================================================================== *)

(** An element of [exports].  A function symbol is
    [{ type: 'function', name, signature, async }], with
    [isDefault: true] added by the default-export pass ([false] stands
    for the absent field); a class symbol is
    [{ type: 'class', name, extends, methods, signature }], where
    [extends] is [null] ([None]) without a base. *)
Inductive export_symbol : Type :=
| FunctionSymbol (name signature : text) (async isDefault : bool)
| ClassSymbol (name : text) (extends : option text) (methods : list method)
    (signature : text).

Definition symbol_name (e : export_symbol) : text :=
  match e with
  | FunctionSymbol n _ _ _ => n
  | ClassSymbol n _ _ _ => n
  end.

Definition is_function (e : export_symbol) : bool :=
  match e with
  | FunctionSymbol _ _ _ _ => true
  | ClassSymbol _ _ _ _ => false
  end.

Definition is_class (e : export_symbol) : bool := negb (is_function e).

(** [export \s+ (?: async \s+ )? function \s+ ( \w+ ) \s* \( ( [^)]* ) \)],
    flag g. *)
Definition namedFuncRegex : regex :=
  seqs [ Word "export"; Plus ws; Opt (Seq (Word "async") (Plus ws));
         Word "function"; Plus ws; Group 1 (Plus wd); Star ws; Lit "("%char;
         Group 2 (Star (not_char ")"%char)); Lit ")"%char ].

(** [export \s+ const \s+ ( \w+ ) \s* = \s* (?: async \s* )?
     \( ( [^)]* ) \) \s* =>], flag g. *)
Definition arrowFuncRegex : regex :=
  seqs [ Word "export"; Plus ws; Word "const"; Plus ws; Group 1 (Plus wd);
         Star ws; Lit "="%char; Star ws; Opt (Seq (Word "async") (Star ws));
         Lit "("%char; Group 2 (Star (not_char ")"%char)); Lit ")"%char;
         Star ws; Word "=>" ].

(** [export \s+ (?: default \s+ )? class \s+ ( \w+ )
     (?: \s+ extends \s+ ( \w+ ) )?], flag g. *)
Definition classRegex : regex :=
  seqs [ Word "export"; Plus ws; Opt (Seq (Word "default") (Plus ws));
         Word "class"; Plus ws; Group 1 (Plus wd);
         Opt (seqs [Plus ws; Word "extends"; Plus ws; Group 2 (Plus wd)]) ].

(** [export \s+ default \s+ (?: async \s+ )? function \s* ( \w* ) \s*
     \( ( [^)]* ) \)], flag g. *)
Definition defaultFuncRegex : regex :=
  seqs [ Word "export"; Plus ws; Word "default"; Plus ws;
         Opt (Seq (Word "async") (Plus ws)); Word "function"; Star ws;
         Group 1 (Star wd); Star ws; Lit "("%char;
         Group 2 (Star (not_char ")"%char)); Lit ")"%char ].

(** [source.slice(match.index, match.index + w).includes('async')]. *)
Definition async_in_window (w : nat) (source : text) (m : rx_match) : bool :=
  includes (txt "async") (slice (index m) (index m + w) source).

(** [`${name}(${params.trim()})`]. *)
Definition call_signature (name params : text) : text :=
  name ++ txt "(" ++ trim params ++ txt ")".

Definition named_function (source : text) (m : rx_match) : export_symbol :=
  FunctionSymbol (group_text 1 m)
                 (call_signature (group_text 1 m) (group_text 2 m))
                 (async_in_window 25 source m) false.

Definition arrow_function (source : text) (m : rx_match) : export_symbol :=
  FunctionSymbol (group_text 1 m)
                 (call_signature (group_text 1 m) (group_text 2 m))
                 (async_in_window 45 source m) false.

(** [x || y] on strings: the empty string and [undefined] are falsy. *)
Definition truthy (x : option text) : option text :=
  match x with
  | Some (_ :: _) => x
  | _ => None
  end.

Definition exported_class (source : text) (m : rx_match) : export_symbol :=
  let base := truthy (group 2 (groups m)) in
  ClassSymbol (group_text 1 m) base
              (extractClassMethods source (index m))
              (txt "class " ++ group_text 1 m ++
               match base with
               | Some b => txt " extends " ++ b
               | None => []
               end).

Definition default_function (source : text) (m : rx_match) : export_symbol :=
  let name := match truthy (group 1 (groups m)) with
              | Some n => n
              | None => txt "default"
              end in
  FunctionSymbol name (call_signature name (group_text 2 m))
                 (async_in_window 35 source m) true.

(** The four passes, in the order of the source, over the whole text. *)
Definition extractJSExports (source : text) : list export_symbol :=
  map (named_function source) (exec_all namedFuncRegex source)
  ++ map (arrow_function source) (exec_all arrowFuncRegex source)
  ++ map (exported_class source) (exec_all classRegex source)
  ++ map (default_function source) (exec_all defaultFuncRegex source).

(** [^ (?: async \s+ )? def \s+ ( \w+ ) \s* \( ( [^)]* ) \)], flags g and m. *)
Definition pyFuncRegex : regex :=
  seqs [ LineStart; Opt (Seq (Word "async") (Plus ws)); Word "def"; Plus ws;
         Group 1 (Plus wd); Star ws; Lit "("%char;
         Group 2 (Star (not_char ")"%char)); Lit ")"%char ].

(** [^ class \s+ ( \w+ ) (?: \( ( [^)]* ) \) )? :], flags g and m. *)
Definition pyClassRegex : regex :=
  seqs [ LineStart; Word "class"; Plus ws; Group 1 (Plus wd);
         Opt (seqs [Lit "("%char; Group 2 (Star (not_char ")"%char));
                    Lit ")"%char]);
         Lit ":"%char ].

(** The body of the loop over the matches of the Python [funcRegex]. *)
Fixpoint collect_py_functions (ms : list rx_match) : list export_symbol :=
  match ms with
  | [] => []
  | m :: ms' =>
      if startsWith (txt "_") (group_text 1 m) then collect_py_functions ms'
      else FunctionSymbol (group_text 1 m)
             (call_signature (group_text 1 m) (group_text 2 m))
             (startsWith (txt "async") (trim (matched m))) false
           :: collect_py_functions ms'
  end.

Definition py_class (m : rx_match) : export_symbol :=
  let base := truthy (group 2 (groups m)) in
  ClassSymbol (group_text 1 m) base []
              (txt "class " ++ group_text 1 m ++
               match base with
               | Some b => txt "(" ++ b ++ txt ")"
               | None => []
               end).

Definition extractPythonExports (source : text) : list export_symbol :=
  collect_py_functions (exec_all pyFuncRegex source)
  ++ map py_class (exec_all pyClassRegex source).

(* ================================================================== *)
(** * Import extractors                                                *)
(* ================================================================== *)

(** The binding forms [\{ [^}]* \}], [\* \s+ as \s+ \w+] and [\w+]. *)
Definition braces_form : regex :=
  seqs [Lit "{"%char; Star (not_char "}"%char); Lit "}"%char].
Definition namespace_form : regex :=
  seqs [Lit "*"%char; Plus ws; Word "as"; Plus ws; Plus wd].

(** [import \s+ (?: (?: B | N | \w+ ) (?: \s* , \s* (?: B | \w+ ) )* \s+ from \s+ )?
     Q ( [^Q]+ ) Q], flag g, where B and N are the braces and namespace
    forms above and Q is the class of the two quote characters. *)
Definition jsImportRegex : regex :=
  seqs [ Word "import"; Plus ws;
         Opt (seqs [ alts [braces_form; namespace_form; Plus wd];
                     Star (seqs [Star ws; Lit ","%char; Star ws;
                                 alts [braces_form; Plus wd]]);
                     Plus ws; Word "from"; Plus ws ]);
         quote; Group 1 (Plus non_quote); quote ].

Definition extractJSImports (source : text) : list text :=
  map (group_text 1) (exec_all jsImportRegex source).

(** [^ (?: from \s+ ( \S+ ) \s+ import | import \s+ ( \S+ ) )], flags g and m. *)
Definition pyImportRegex : regex :=
  seqs [ LineStart;
         alts [ seqs [Word "from"; Plus ws; Group 1 (Plus non_ws); Plus ws;
                      Word "import"];
                seqs [Word "import"; Plus ws; Group 2 (Plus non_ws)] ] ].

(** [match[1] || match[2]]; one of the two groups always took part. *)
Definition py_import_name (m : rx_match) : text :=
  match truthy (group 1 (groups m)) with
  | Some t => t
  | None => group_text 2 m
  end.

Definition extractPythonImports (source : text) : list text :=
  map py_import_name (exec_all pyImportRegex source).

(* ================================================================== *)
(** * What a match is: the declarative reading of the matcher          *)
(* ================================================================== *)

(** [Matches r st st']: [r] can take the attempt from [st] to [st'].
    The matcher explores such ways in priority order; this relation
    forgets the order. *)
Inductive Matches : regex -> mstate -> mstate -> Prop :=
| M_Empty st : Matches Empty st st
| M_Lit c tl st : rest st = c :: tl -> Matches (Lit c) st (advance c tl st)
| M_Class (p : ascii -> bool) c tl st :
    rest st = c :: tl -> p c = true -> Matches (Class p) st (advance c tl st)
| M_Seq r1 r2 st st1 st2 :
    Matches r1 st st1 -> Matches r2 st1 st2 -> Matches (Seq r1 r2) st st2
| M_AltL r1 r2 st st1 : Matches r1 st st1 -> Matches (Alt r1 r2) st st1
| M_AltR r1 r2 st st1 : Matches r2 st st1 -> Matches (Alt r1 r2) st st1
| M_StarStop r st : Matches (Star r) st st
| M_StarStep r st st1 st2 :
    Matches r st st1 -> pos st1 <> pos st -> Matches (Star r) st1 st2 ->
    Matches (Star r) st st2
| M_OptSkip r st : Matches (Opt r) st st
| M_OptTake r st st1 :
    Matches r st st1 -> pos st1 <> pos st -> Matches (Opt r) st st1
| M_Group n r st st1 :
    Matches r st st1 ->
    Matches (Group n r) st (set_cap n (firstn (pos st1 - pos st) (rest st)) st1)
| M_LineStart st : at_line_start st = true -> Matches LineStart st st.

Create HintDb rx.
#[local] Hint Constructors Matches : rx.

(** Whether [r] can match the empty text. *)
Fixpoint nullable (r : regex) : bool :=
  match r with
  | Empty | Star _ | Opt _ | LineStart => true
  | Lit _ | Class _ => false
  | Seq r1 r2 => nullable r1 && nullable r2
  | Alt r1 r2 => nullable r1 || nullable r2
  | Group _ r1 => nullable r1
  end.

(** One attempt at position [j] of the whole text [src]. *)
Definition attempt (r : regex) (src : text) (j : nat) : option rx_match :=
  match_at r j (char_before j src) (skipn j src).

Definition prev_at (p : option ascii) (s : text) (j : nat) : option ascii :=
  match j with
  | 0 => p
  | S j' => nth_error s j'
  end.

(* ================================================================== *)
(** * The host: Node's [path], [JSON] and the file system              *)
(* ================================================================== *)

(** The three functions the analyzer imports from [path].  They are
    platform functions, not code of the repository: the analyzer is
    modelled over any implementation of them. *)
Class PathApi : Type := {
  extname : text -> text;
  dirname : text -> text;
  join : text -> text -> text
}.

(** A parsed JSON value.  A number carries the text [JSON.stringify]
    prints for it, an object its own properties in property order,
    each key once. *)
#[warnings="-register-all"] Inductive json : Type :=
| JNull
| JBool (b : bool)
| JNumber (repr : text)
| JString (s : text)
| JArray (items : list json)
| JObject (props : list (text * json)).

(** [JSON.parse]; [None] when it throws a SyntaxError. *)
Class JsonApi : Type := {
  JSON_parse : text -> option json
}.

(** The file system as the analyzer sees it: [readFile(path, 'utf8')]
    answers the content or rejects ([None]); [access(path)] resolves
    ([true]) or rejects. *)
Record FileSystem : Type := {
  fs_readFile : text -> option text;
  fs_access : text -> bool
}.

(** The filesystem operations of a run, in the order they happen. *)
Inductive fs_op : Type :=
| OpReadFile (path : text)
| OpAccess (path : text).

(** What the source throws or lets through. *)
Inductive js_error : Type :=
| Error (message : text)
| FsError (path : text)
| SyntaxError
| TypeError.

Inductive outcome (A : Type) : Type :=
| Returned (a : A)
| Thrown (e : js_error).

Arguments Returned {A} a.
Arguments Thrown {A} e.

(** An asynchronous computation of the source: it extends the trace of
    filesystem operations and returns or throws. *)
Definition IO (A : Type) : Type := list fs_op -> outcome A * list fs_op.

Definition ret {A} (a : A) : IO A := fun tr => (Returned a, tr).

Definition throw {A} (e : js_error) : IO A := fun tr => (Thrown e, tr).

Definition bind {A B} (m : IO A) (f : A -> IO B) : IO B :=
  fun tr =>
    match m tr with
    | (Returned a, tr') => f a tr'
    | (Thrown e, tr') => (Thrown e, tr')
    end.

(** [try { m } catch { h }]. *)
Definition try_catch {A} (m : IO A) (h : IO A) : IO A :=
  fun tr =>
    match m tr with
    | (Returned a, tr') => (Returned a, tr')
    | (Thrown _, tr') => h tr'
    end.

(** A synchronous step that may throw [e]. *)
Definition or_throw {A} (e : js_error) (x : option A) : IO A :=
  match x with
  | Some a => ret a
  | None => throw e
  end.

Notation "x <- m ;; f" := (bind m (fun x => f))
  (at level 61, m at next level, right associativity).

(** A run from the empty trace. *)
Definition run {A} (m : IO A) : outcome A * list fs_op := m [].

(* ================================================================== *)
(** * Language classifier: [detectLanguage]                            *)
(* ================================================================== *)

Inductive language : Type := javascript | typescript | python.

(** The own properties of [LANGUAGE_MAP].  The keys an object literal
    inherits name no extension: they do not start with a dot, and
    [extname] answers the empty text or a text that starts with one. *)
Definition LANGUAGE_MAP : list (text * language) :=
  [ (txt ".js", javascript); (txt ".jsx", javascript);
    (txt ".mjs", javascript); (txt ".cjs", javascript);
    (txt ".ts", typescript); (txt ".tsx", typescript);
    (txt ".mts", typescript); (txt ".py", python) ].

(** [table[key]] on own properties; [None] is [undefined]. *)
Fixpoint lookup {A} (key : text) (table : list (text * A)) : option A :=
  match table with
  | [] => None
  | (k, v) :: table' => if text_eqb k key then Some v else lookup key table'
  end.

Section Classifier.
Context {P : PathApi}.

(** [LANGUAGE_MAP[ext] || null]. *)
Definition detectLanguage (filePath : text) : option language :=
  let ext := toLowerCase (extname filePath) in
  lookup ext LANGUAGE_MAP.
End Classifier.

(* ================================================================== *)
(** * Framework locator: [detectFramework]                             *)
(* ================================================================== *)

Inductive framework : Type := jest | vitest | mocha | pytest.

(** [FRAMEWORK_CONFIG_FILES], in the order [Object.entries] lists it:
    the insertion order of its four keys. *)
Definition FRAMEWORK_CONFIG_FILES : list (framework * list text) :=
  [ (jest, [txt "jest.config.js"; txt "jest.config.ts";
            txt "jest.config.mjs"; txt "jest.config.cjs"]);
    (vitest, [txt "vitest.config.js"; txt "vitest.config.ts";
              txt "vitest.config.mts"]);
    (mocha, [txt ".mocharc.js"; txt ".mocharc.cjs"; txt ".mocharc.yaml";
             txt ".mocharc.yml"; txt ".mocharc.json"]);
    (pytest, [txt "pytest.ini"; txt "conftest.py"]) ].

(** ** JavaScript values of the manifest *)

(** [value || {}] falls back on [undefined], [null], [false], [0] and
    the empty string. *)
Definition js_truthy (v : option json) : bool :=
  match v with
  | None | Some JNull | Some (JBool false) | Some (JString []) => false
  | Some (JNumber r) => negb (text_eqb r (txt "0"))
  | Some _ => true
  end.

(** [value.key] on a value that is not [null]: an own property of an
    object, [undefined] otherwise (none of the keys the source reads is
    inherited or an index). *)
Definition get_prop (key : text) (v : json) : option json :=
  match v with
  | JObject props => lookup key props
  | _ => None
  end.

Definition digit_char (d : nat) : ascii := ascii_of_nat (48 + d).

(** The decimal text of a natural number, as [String(i)] prints it. *)
Fixpoint decimal_fuel (fuel n : nat) (acc : text) : text :=
  match fuel with
  | 0 => acc
  | S fuel' =>
      let acc' := digit_char (n mod 10) :: acc in
      if n <? 10 then acc' else decimal_fuel fuel' (n / 10) acc'
  end.

Definition decimal (n : nat) : text := decimal_fuel (S n) n [].

Fixpoint indexed_from {A} (i : nat) (l : list A) : list (text * A) :=
  match l with
  | [] => []
  | x :: l' => (decimal i, x) :: indexed_from (S i) l'
  end.

(** The own enumerable properties a spread [...value] copies, in
    order: those of an object, the elements of an array and the
    characters of a string under their indices, none of a number or a
    boolean. *)
Definition own_props (v : json) : list (text * json) :=
  match v with
  | JObject props => props
  | JArray items => indexed_from 0 items
  | JString s => indexed_from 0 (map (fun c => JString [c]) s)
  | _ => []
  end.

Definition is_digit (c : ascii) : bool := between 48 57 c.

Fixpoint digits_value (s : text) (acc : N) : N :=
  match s with
  | [] => acc
  | c :: s' => digits_value s' (acc * 10 + N.of_nat (code c - 48))%N
  end.

(** An array index: the canonical decimal text of an integer between 0
    and 2^32 - 2.  Such keys come first in property order, by value. *)
Definition array_index (k : text) : option N :=
  match k with
  | [] => None
  | c :: k' =>
      if forallb is_digit k && (negb (Ascii.eqb c "0"%char) || text_eqb k' [])
         && (length k <=? 10)
      then let n := digits_value k 0%N in
           if (n <=? 4294967294)%N then Some n else None
      else None
  end.

Fixpoint has_key {A} (k : text) (props : list (text * A)) : bool :=
  match props with
  | [] => false
  | (k', _) :: props' => text_eqb k' k || has_key k props'
  end.

Fixpoint replace_prop {A} (k : text) (v : A) (props : list (text * A))
  : list (text * A) :=
  match props with
  | [] => []
  | (k', v') :: props' =>
      if text_eqb k' k then (k', v) :: props'
      else (k', v') :: replace_prop k v props'
  end.

(** A new index key goes before the first key that is no index or a
    larger one. *)
Fixpoint insert_index {A} (n : N) (k : text) (v : A) (props : list (text * A))
  : list (text * A) :=
  match props with
  | [] => [(k, v)]
  | (k', v') :: props' =>
      match array_index k' with
      | Some n' =>
          if (n' <? n)%N then (k', v') :: insert_index n k v props'
          else (k, v) :: props
      | None => (k, v) :: props
      end
  end.

(** Defining the property [k] of an object: an existing key keeps its
    place and takes the new value; a new key goes among the index keys
    or to the end. *)
Definition set_prop {A} (props : list (text * A)) (kv : text * A)
  : list (text * A) :=
  let (k, v) := kv in
  if has_key k props then replace_prop k v props
  else match array_index k with
       | Some n => insert_index n k v props
       | None => props ++ [(k, v)]
       end.

(** [{ ...a, ...b, ...c }]. *)
Definition spread (sources : list json) : list (text * json) :=
  fold_left (fun obj src => fold_left set_prop (own_props src) obj) sources [].

Definition hex_digit (d : nat) : ascii :=
  if d <? 10 then ascii_of_nat (48 + d) else ascii_of_nat (87 + d).

(** How [JSON.stringify] prints one code unit of a string. *)
Definition quote_char (c : ascii) : text :=
  if Ascii.eqb c DQUOTE then ["\"%char; DQUOTE]
  else if Ascii.eqb c "\"%char then ["\"%char; "\"%char]
  else if code c =? 8 then txt "\b"
  else if code c =? 9 then txt "\t"
  else if code c =? 10 then txt "\n"
  else if code c =? 12 then txt "\f"
  else if code c =? 13 then txt "\r"
  else if code c <? 32
       then txt "\u00" ++ [hex_digit (code c / 16); hex_digit (code c mod 16)]
  else [c].

Definition quote_json (s : text) : text :=
  [DQUOTE] ++ flat_map quote_char s ++ [DQUOTE].

(** [JSON.stringify(value)] without indentation. *)
Fixpoint JSON_stringify (v : json) : text :=
  match v with
  | JNull => txt "null"
  | JBool true => txt "true"
  | JBool false => txt "false"
  | JNumber r => r
  | JString s => quote_json s
  | JArray items =>
      txt "[" ++ join_with (txt ",") (map JSON_stringify items) ++ txt "]"
  | JObject props =>
      txt "{" ++
      join_with (txt ",")
        (map (fun kv => match kv with
                        | (k, x) => quote_json k ++ txt ":" ++ JSON_stringify x
                        end) props)
      ++ txt "}"
  end.

(** The first framework, in the order vitest, jest, mocha, whose name
    [depsStr] includes. *)
Definition framework_in (depsStr : text) : option framework :=
  if includes (txt "vitest") depsStr then Some vitest
  else if includes (txt "jest") depsStr then Some jest
  else if includes (txt "mocha") depsStr then Some mocha
  else None.

(** [pkg.key || {}], for a [pkg] that is not [null]. *)
Definition manifest_section (key : text) (pkg : json) : json :=
  let v := get_prop key pkg in
  if js_truthy v then match v with Some x => x | None => JObject [] end
  else JObject [].

(** [allDeps] of the manifest [pkg], which is not [null]. *)
Definition allDeps (pkg : json) : json :=
  JObject (spread [manifest_section (txt "dependencies") pkg;
                   manifest_section (txt "devDependencies") pkg;
                   manifest_section (txt "scripts") pkg]).

(** [depsStr] of the manifest [pkg]. *)
Definition depsStr (pkg : json) : text :=
  toLowerCase (JSON_stringify (allDeps pkg)).

Section Locator.
Context {P : PathApi} {J : JsonApi}.
Variable fs : FileSystem.

(** [await readFile(path, 'utf8')]. *)
Definition readFile (path : text) : IO text :=
  fun tr =>
    match fs_readFile fs path with
    | Some content => (Returned content, tr ++ [OpReadFile path])
    | None => (Thrown (FsError path), tr ++ [OpReadFile path])
    end.

(** [await access(path)]. *)
Definition access (path : text) : IO unit :=
  fun tr =>
    if fs_access fs path then (Returned tt, tr ++ [OpAccess path])
    else (Thrown (FsError path), tr ++ [OpAccess path]).

(** The loop [for (let i = 0; i < 4; i++)] from [current] on. *)
Fixpoint walk_up (n : nat) (current : text) : list text :=
  match n with
  | 0 => []
  | S n' =>
      let parent := dirname current in
      if text_eqb parent current then []
      else parent :: walk_up n' parent
  end.

Definition searchDirs (filePath : text) : list text :=
  let dir := dirname filePath in
  dir :: walk_up 4 dir.

(** The first [try] block; [Some f] stands for [return f], [None]
    for falling out of the block, through its end or its [catch]. *)
Definition manifest_step (searchDir : text) : IO (option framework) :=
  try_catch
    (pkgContent <- readFile (join searchDir (txt "package.json")) ;;
     pkg <- or_throw SyntaxError (JSON_parse pkgContent) ;;
     _ <- match pkg with
          | JNull => throw TypeError
          | _ => ret tt
          end ;;
     ret (framework_in (depsStr pkg)))
    (ret None).

(** The second [try] block.  Its second test subsumes the first. *)
Definition pyproject_step (searchDir : text) : IO (option framework) :=
  try_catch
    (content <- readFile (join searchDir (txt "pyproject.toml")) ;;
     ret (if includes (txt "[tool.pytest") content
             || includes (txt "pytest") content
          then Some pytest else None))
    (ret None).

(** The loop over the config files of one framework: [true] when
    one of them is accessible, at which the function returns. *)
Fixpoint any_config (searchDir : text) (configFiles : list text) : IO bool :=
  match configFiles with
  | [] => ret false
  | configFile :: configFiles' =>
      found <- try_catch (_ <- access (join searchDir configFile) ;; ret true)
                         (ret false) ;;
      if found then ret true else any_config searchDir configFiles'
  end.

(** The loop over [Object.entries(FRAMEWORK_CONFIG_FILES)]. *)
Fixpoint config_step (searchDir : text)
  (entries : list (framework * list text)) : IO (option framework) :=
  match entries with
  | [] => ret None
  | (fw, configFiles) :: entries' =>
      found <- any_config searchDir configFiles ;;
      if found then ret (Some fw) else config_step searchDir entries'
  end.

(** One round of the loop over [searchDirs]. *)
Definition search_dir (searchDir : text) : IO (option framework) :=
  r1 <- manifest_step searchDir ;;
  match r1 with
  | Some f => ret (Some f)
  | None =>
      r2 <- pyproject_step searchDir ;;
      match r2 with
      | Some f => ret (Some f)
      | None => config_step searchDir FRAMEWORK_CONFIG_FILES
      end
  end.

Fixpoint search_dirs (dirs : list text) : IO (option framework) :=
  match dirs with
  | [] => ret None
  | searchDir :: dirs' =>
      r <- search_dir searchDir ;;
      match r with
      | Some f => ret (Some f)
      | None => search_dirs dirs'
      end
  end.

(** [detectFramework(filePath)]; [None] is [null]. *)
Definition detectFramework (filePath : text) : IO (option framework) :=
  search_dirs (searchDirs filePath).

(* ================================================================ *)
(** * Analysis orchestrator: [analyzeFile]                             *)
(* ================================================================ *)

Record FileAnalysis : Type := {
  fa_filePath : text;
  fa_language : language;
  fa_framework : framework;
  fa_source : text;
  fa_exports : list export_symbol;
  fa_imports : list text;
  fa_lineCount : nat;
  fa_functionCount : nat;
  fa_classCount : nat
}.

(** [source.split('\n').length]. *)
Definition lineCount (source : text) : nat :=
  S (length (filter (Ascii.eqb LF) source)).

Definition analyzeFile (filePath : text) : IO FileAnalysis :=
  match detectLanguage filePath with
  | None => throw (Error (txt "Unsupported file type: " ++ extname filePath))
  | Some lang =>
      source <- readFile filePath ;;
      fw <- detectFramework filePath ;;
      let exports :=
        match lang with
        | javascript | typescript => extractJSExports source
        | python => extractPythonExports source
        end in
      let imports :=
        match lang with
        | javascript | typescript => extractJSImports source
        | python => extractPythonImports source
        end in
      ret {| fa_filePath := filePath;
             fa_language := lang;
             fa_framework :=
               match fw with
               | Some f => f
               | None => match lang with python => pytest | _ => jest end
               end;
             fa_source := source;
             fa_exports := exports;
             fa_imports := imports;
             fa_lineCount := lineCount source;
             fa_functionCount := length (filter is_function exports);
             fa_classCount := length (filter is_class exports) |}
  end.
End Locator.

(* ================================================================== *)
(** * A POSIX host for the worked examples                             *)
(* ================================================================== *)

(** Node's [path.posix], after its documented algorithms.  The general
    theorems hold for every [PathApi]; this instance runs the examples. *)

Definition SLASH : ascii := "/"%char.

(** The variables of the loop of [extname], [None] standing for -1. *)
Record ext_scan : Type := ExtScan {
  startDot : option nat;
  startPart : nat;
  ext_end : option nat;
  matchedSlash : bool;
  preDotState : Z
}.

(** The loop of [extname], from the last code unit down: [rpath] is
    the path up to the current position, reversed. *)
Fixpoint extname_loop (rpath : text) (st : ext_scan) : ext_scan :=
  match rpath with
  | [] => st
  | c :: rpath' =>
      let i := length rpath' in
      if Ascii.eqb c SLASH then
        if matchedSlash st then extname_loop rpath' st
        else ExtScan (startDot st) (i + 1) (ext_end st) (matchedSlash st)
                     (preDotState st)
      else
        let st1 :=
          match ext_end st with
          | None => ExtScan (startDot st) (startPart st) (Some (i + 1)) false
                            (preDotState st)
          | Some _ => st
          end in
        let st2 :=
          if Ascii.eqb c "."%char then
            match startDot st1 with
            | None => ExtScan (Some i) (startPart st1) (ext_end st1)
                              (matchedSlash st1) (preDotState st1)
            | Some _ => ExtScan (startDot st1) (startPart st1) (ext_end st1)
                                (matchedSlash st1) 1%Z
            end
          else
            match startDot st1 with
            | Some _ => ExtScan (startDot st1) (startPart st1) (ext_end st1)
                                (matchedSlash st1) (-1)%Z
            | None => st1
            end in
        extname_loop rpath' st2
  end.

Definition posix_extname (path : text) : text :=
  let st := extname_loop (rev path) (ExtScan None 0 None true 0%Z) in
  match startDot st, ext_end st with
  | Some d, Some e =>
      if (preDotState st =? 0)%Z
         || ((preDotState st =? 1)%Z && (d =? e - 1) && (d =? startPart st + 1))
      then []
      else slice d e path
  | _, _ => []
  end.

(** The loop of [dirname], from the last code unit down to the second:
    the position of the slash that ends the directory part. *)
Fixpoint dirname_loop (rtail : text) (matched : bool) : option nat :=
  match rtail with
  | [] => None
  | c :: rtail' =>
      if Ascii.eqb c SLASH then
        if matched then dirname_loop rtail' matched
        else Some (S (length rtail'))
      else dirname_loop rtail' false
  end.

Definition posix_dirname (path : text) : text :=
  match path with
  | [] => txt "."
  | c :: tail =>
      let hasRoot := Ascii.eqb c SLASH in
      match dirname_loop (rev tail) true with
      | None => if hasRoot then txt "/" else txt "."
      | Some e => if hasRoot && (e =? 1) then txt "//" else firstn e path
      end
  end.

(** [path.split('/')]. *)
Fixpoint split_slash (path : text) (seg : text) : list text :=
  match path with
  | [] => [rev seg]
  | c :: path' =>
      if Ascii.eqb c SLASH then rev seg :: split_slash path' []
      else split_slash path' (c :: seg)
  end.

(** The segments [normalize] keeps, last one first: empty and [.]
    segments go, [..] takes the segment before it away, or stays when
    there is none and the path is relative. *)
Fixpoint normalize_segments (allowAboveRoot : bool) (segs : list text)
  (kept : list text) : list text :=
  match segs with
  | [] => kept
  | seg :: segs' =>
      if text_eqb seg [] || text_eqb seg (txt ".") then
        normalize_segments allowAboveRoot segs' kept
      else if text_eqb seg (txt "..") then
        match kept with
        | top :: kept' =>
            if text_eqb top (txt "..") then
              normalize_segments allowAboveRoot segs' (seg :: kept)
            else normalize_segments allowAboveRoot segs' kept'
        | [] =>
            normalize_segments allowAboveRoot segs'
              (if allowAboveRoot then [seg] else [])
        end
      else normalize_segments allowAboveRoot segs' (seg :: kept)
  end.

Definition posix_normalize (path : text) : text :=
  match path with
  | [] => txt "."
  | c :: _ =>
      let isAbsolute := Ascii.eqb c SLASH in
      let trailingSeparator :=
        match rev path with
        | l :: _ => Ascii.eqb l SLASH
        | [] => false
        end in
      let body :=
        join_with [SLASH]
          (rev (normalize_segments (negb isAbsolute) (split_slash path [] ) [])) in
      match body with
      | [] => if isAbsolute then txt "/"
              else if trailingSeparator then txt "./" else txt "."
      | _ =>
          (if isAbsolute then [SLASH] else []) ++ body ++
          (if trailingSeparator then [SLASH] else [])
      end
  end.

Definition posix_join (a b : text) : text :=
  match a, b with
  | [], [] => txt "."
  | [], _ => posix_normalize b
  | _, [] => posix_normalize a
  | _, _ => posix_normalize (a ++ [SLASH] ++ b)
  end.

Definition posix : PathApi :=
  {| extname := posix_extname; dirname := posix_dirname; join := posix_join |}.

(** A file system given by the list of its files and their contents. *)
Definition fs_of_files (files : list (text * text)) : FileSystem :=
  {| fs_readFile := fun path => lookup path files;
     fs_access := fun path => has_key path files |}.

(** [JSON.parse] on the manifests of an example, given by their parsed
    values; every other text is taken as unparseable. *)
Definition json_table (manifests : list (text * json)) : JsonApi :=
  {| JSON_parse := fun content => lookup content manifests |}.

(* ================================================================== *)
(** * The value the locator computes, apart from its trace             *)
(* ================================================================== *)

Section Signals.
Context {P : PathApi} {J : JsonApi}.
Variable fs : FileSystem.

(** What the manifest of a directory says: nothing when it cannot be
    read or parsed or is [null]. *)
Definition manifest_signal (d : text) : option framework :=
  match fs_readFile fs (join d (txt "package.json")) with
  | Some content =>
      match JSON_parse content with
      | Some JNull => None
      | Some pkg => framework_in (depsStr pkg)
      | None => None
      end
  | None => None
  end.

(** What the Python project file of a directory says. *)
Definition pyproject_signal (d : text) : option framework :=
  match fs_readFile fs (join d (txt "pyproject.toml")) with
  | Some content =>
      if includes (txt "[tool.pytest") content || includes (txt "pytest") content
      then Some pytest else None
  | None => None
  end.

(** Whether one of [configFiles] is accessible in a directory. *)
Definition config_exists (d : text) (configFiles : list text) : bool :=
  existsb (fun f => fs_access fs (join d f)) configFiles.

(** The first framework of [entries] with an accessible config file. *)
Fixpoint config_signal (d : text) (entries : list (framework * list text))
  : option framework :=
  match entries with
  | [] => None
  | (fw, configFiles) :: entries' =>
      if config_exists d configFiles then Some fw
      else config_signal d entries'
  end.

Definition dir_signal (d : text) : option framework :=
  or_else (manifest_signal d)
    (or_else (pyproject_signal d) (config_signal d FRAMEWORK_CONFIG_FILES)).

Fixpoint first_signal (dirs : list text) : option framework :=
  match dirs with
  | [] => None
  | d :: dirs' => or_else (dir_signal d) (first_signal dirs')
  end.
(** The paths the config check probes in a directory, in order: those
    of [configFiles] up to the first accessible one. *)
Fixpoint probed (d : text) (configFiles : list text) : list text :=
  match configFiles with
  | [] => []
  | f :: configFiles' =>
      join d f :: if fs_access fs (join d f) then [] else probed d configFiles'
  end.

(** The directory yields no manifest match, no project-file match and
    has none of the config files. *)
Definition yields_nothing (d : text) : Prop :=
  manifest_signal d = None
  /\ pyproject_signal d = None
  /\ forall fw files f, In (fw, files) FRAMEWORK_CONFIG_FILES -> In f files ->
       fs_access fs (join d f) = false.
End Signals.

(* ================================================================== *)
(** * Worked examples: files and hosts                                 *)
(* ================================================================== *)

(** A text written with apostrophes where the JSON has double quotes. *)
Definition json_text (s : string) : text :=
  map (fun c => if Ascii.eqb c "'"%char then DQUOTE else c) (txt s).

(** A project with no manifest, project file or config file at all. *)
Definition bare_fs : FileSystem := fs_of_files [].

Definition no_json : JsonApi := json_table [].

(** [proj/jest.config.js] and [proj/vitest.config.ts] side by side. *)
Definition two_configs_fs : FileSystem :=
  fs_of_files [ (txt "proj/vitest.config.ts", txt "export default {}");
                (txt "proj/jest.config.js", txt "module.exports = {}");
                (txt "proj/app.js", txt "export function f() {}") ].

(** The blob as the specification words it, to compare with
    [depsStr]: the three sections of the manifest, one after the
    other, lower-cased. *)
Definition concatenated_blob (pkg : json) : text :=
  toLowerCase (JSON_stringify (manifest_section (txt "dependencies") pkg)
               ++ JSON_stringify (manifest_section (txt "devDependencies") pkg)
               ++ JSON_stringify (manifest_section (txt "scripts") pkg)).

(** A manifest that lists one name in two sections:
    [{"dependencies":{"tester":"npm:vitest@1.6.0"},
      "devDependencies":{"tester":"^2.0.0"}}]. *)
Definition aliased_manifest_text : text :=
  json_text "{'dependencies':{'tester':'npm:vitest@1.6.0'},'devDependencies':{'tester':'^2.0.0'}}".

Definition aliased_manifest : json :=
  JObject [ (txt "dependencies",
             JObject [(txt "tester", JString (txt "npm:vitest@1.6.0"))]);
            (txt "devDependencies",
             JObject [(txt "tester", JString (txt "^2.0.0"))]) ].

Definition aliased_fs : FileSystem :=
  fs_of_files [ (txt "proj/package.json", aliased_manifest_text);
                (txt "proj/app.js", txt "export function f() {}") ].

Definition aliased_json : JsonApi :=
  json_table [(aliased_manifest_text, aliased_manifest)].

(** A manifest with both runners:
    [{"devDependencies":{"vitest":"^1.6.0","jest":"^29.7.0"}}]. *)
Definition both_runners_text : text :=
  json_text "{'devDependencies':{'vitest':'^1.6.0','jest':'^29.7.0'}}".

Definition both_runners : json :=
  JObject [ (txt "devDependencies",
             JObject [(txt "vitest", JString (txt "^1.6.0"));
                      (txt "jest", JString (txt "^29.7.0"))]) ].

Definition both_runners_fs : FileSystem :=
  fs_of_files [ (txt "proj/package.json", both_runners_text);
                (txt "proj/src/app.js", txt "export function f() {}") ].

Definition both_runners_json : JsonApi :=
  json_table [(both_runners_text, both_runners)].

(** The [async] field of a function symbol; a class has none. *)
Definition symbol_async (e : export_symbol) : bool :=
  match e with
  | FunctionSymbol _ _ a _ => a
  | ClassSymbol _ _ _ _ => false
  end.

(** Net brace depth of a stretch of text: +1 for each opening brace,
    -1 for each closing one. *)
Fixpoint brace_depth (s : text) : Z :=
  match s with
  | [] => 0%Z
  | c :: s' =>
      ((if Ascii.eqb c "{"%char then 1
        else if Ascii.eqb c "}"%char then -1 else 0) + brace_depth s')%Z
  end.

(** The depth the scanner has reached once it has gone through
    position [j], having started at [braceStart]. *)
Definition depth_at (source : text) (braceStart j : nat) : Z :=
  brace_depth (slice braceStart (S j) source).

(** A class with three methods, one of which holds an [if]. *)
Definition calc_source : text :=
  join_with [LF] (map txt
    [ "export class Calc extends Base {";
      "  add(a, b) {";
      "    if (a) {";
      "      return b";
      "    }";
      "    return a + b";
      "  }";
      "  async load(id) {";
      "    return id";
      "  }";
      "  static create() {";
      "    return new Calc()";
      "  }";
      "}" ]%string).

(* ================================================================== *)
(** * What a match reads: its text and its captures                    *)
(* ================================================================== *)

(** The text between two states of one attempt. *)
Definition taken (st st1 : mstate) : text :=
  firstn (pos st1 - pos st) (rest st).

Fixpoint has_group (r : regex) : bool :=
  match r with
  | Group _ _ => true
  | Seq r1 r2 | Alt r1 r2 => has_group r1 || has_group r2
  | Star r1 | Opt r1 => has_group r1
  | Empty | Lit _ | Class _ | LineStart => false
  end.

(** No capturing group stands under a [*]: true of the nine patterns
    of the source. *)
Fixpoint groups_outside_star (r : regex) : bool :=
  match r with
  | Star r1 => negb (has_group r1)
  | Seq r1 r2 | Alt r1 r2 => groups_outside_star r1 && groups_outside_star r2
  | Opt r1 | Group _ r1 => groups_outside_star r1
  | Empty | Lit _ | Class _ | LineStart => true
  end.

(** [reads r t cs]: [t] has the form of [r], and matching it captures
    [cs], most recent first. *)
Fixpoint reads (r : regex) (t : text) (cs : list (nat * text)) : Prop :=
  match r with
  | Empty | LineStart => t = [] /\ cs = []
  | Lit c => t = [c] /\ cs = []
  | Class p => (exists c, t = [c] /\ p c = true) /\ cs = []
  | Seq r1 r2 =>
      exists t1 t2 cs1 cs2,
        t = t1 ++ t2 /\ cs = cs2 ++ cs1 /\ reads r1 t1 cs1 /\ reads r2 t2 cs2
  | Alt r1 r2 => reads r1 t cs \/ reads r2 t cs
  | Star r1 =>
      cs = [] /\ exists parts, t = concat parts /\ Forall (fun p => reads r1 p []) parts
  | Opt r1 => (t = [] /\ cs = []) \/ reads r1 t cs
  | Group n r1 => exists cs1, reads r1 t cs1 /\ cs = (n, t) :: cs1
  end.

(** Position [i] of [source] starts a line. *)
Definition line_start (source : text) (i : nat) : Prop :=
  i = 0 \/ exists c, nth_error source (i - 1) = Some c
                     /\ is_line_terminator c = true.

Definition all_space (t : text) : Prop := Forall (fun c => is_space c = true) t.
Definition all_word (t : text) : Prop := Forall (fun c => is_word c = true) t.

(** The text of a Python definition [(async\s+)? def \s+ name \s* ( params )]. *)
Definition py_def_text (t name params : text) : Prop :=
  exists pre sp sp',
    t = pre ++ txt "def" ++ sp ++ name ++ sp' ++ txt "(" ++ params ++ txt ")"
    /\ (pre = [] \/ exists w, pre = txt "async" ++ w /\ w <> [] /\ all_space w)
    /\ sp <> [] /\ all_space sp
    /\ name <> [] /\ all_word name
    /\ all_space sp'
    /\ ~ In ")"%char params.

(** The text of a JavaScript import of the module [ref]: the keyword,
    blanks, nothing or a binding clause that ends in [from] and
    blanks, and [ref] between two quote characters. *)
Definition js_import_text (t ref : text) : Prop :=
  exists sp clause q1 q2,
    t = txt "import" ++ sp ++ clause ++ [q1] ++ ref ++ [q2]
    /\ sp <> [] /\ all_space sp
    /\ (clause = []
        \/ exists bindings sp1 sp2,
             clause = bindings ++ sp1 ++ txt "from" ++ sp2
             /\ sp1 <> [] /\ all_space sp1 /\ sp2 <> [] /\ all_space sp2)
    /\ is_quote q1 = true /\ is_quote q2 = true
    /\ ref <> [] /\ Forall (fun c => is_quote c = false) ref.

(** The text of a Python import of the module [ref]. *)
Definition py_import_text (t ref : text) : Prop :=
  ref <> [] /\ Forall (fun c => is_space c = false) ref
  /\ ((exists sp sp', t = txt "from" ++ sp ++ ref ++ sp' ++ txt "import"
                      /\ sp <> [] /\ all_space sp /\ sp' <> [] /\ all_space sp')
      \/ (exists sp, t = txt "import" ++ sp ++ ref /\ sp <> [] /\ all_space sp)).




(** Group [n] takes part in every way of matching [r]: then
    [match[n]] is a string, never [undefined]. *)
Fixpoint always_captures (n : nat) (r : regex) : bool :=
  match r with
  | Group k r1 => (k =? n) || always_captures n r1
  | Seq r1 r2 => always_captures n r1 || always_captures n r2
  | Alt r1 r2 => always_captures n r1 && always_captures n r2
  | Empty | Lit _ | Class _ | Star _ | Opt _ | LineStart => false
  end.

(** A class whose closing brace is missing, and a project that holds
    it. *)
Definition unclosed_source : text := txt "export class B { m() { return 1 }".

Definition unclosed_fs : FileSystem :=
  fs_of_files [(txt "src/b.js", unclosed_source)].

(* ================================================================== *)
(** * The filesystem operations of the locator                         *)
(* ================================================================== *)

Section Traces.
Context {P : PathApi} {J : JsonApi}.
Variable fs : FileSystem.

(** The operations of one round of the loop over [searchDirs]: the
    manifest is read; unless it decides, the project file is read;
    unless it decides, the config files are probed up to the first
    accessible one. *)
Definition dir_trace (d : text) : list fs_op :=
  OpReadFile (join d (txt "package.json")) ::
  match manifest_signal fs d with
  | Some _ => []
  | None =>
      OpReadFile (join d (txt "pyproject.toml")) ::
      match pyproject_signal fs d with
      | Some _ => []
      | None => map OpAccess (probed fs d (flat_map snd FRAMEWORK_CONFIG_FILES))
      end
  end.

(** The operations of the whole loop: round after round, up to the
    first directory that yields a framework. *)
Fixpoint dirs_trace (dirs : list text) : list fs_op :=
  match dirs with
  | [] => []
  | d :: dirs' =>
      dir_trace d ++
      match dir_signal fs d with
      | Some _ => []
      | None => dirs_trace dirs'
      end
  end.

(** The path of an operation. *)
Definition op_path (op : fs_op) : text :=
  match op with
  | OpReadFile p => p
  | OpAccess p => p
  end.

(** The names the locator looks for in a directory. *)
Definition probe_names : list text :=
  txt "package.json" :: txt "pyproject.toml"
  :: flat_map snd FRAMEWORK_CONFIG_FILES.
End Traces.

(** A Python project whose project file names pytest in a comment,
    next to a jest config file. *)
Definition pyproject_fs : FileSystem :=
  fs_of_files [ (txt "svc/pyproject.toml", txt "# run with pytest -q");
                (txt "svc/jest.config.js", txt "module.exports = {}");
                (txt "svc/app.py", txt "def main(): pass") ].

(** A manifest that names its runner only in upper case, in the key of
    a dependency. *)
Definition shouting_manifest : json :=
  JObject [ (txt "dependencies",
             JObject [ (txt "@Scope/VITEST-preset", JString (txt "1.0.0")) ]) ].

(** A manifest that names its runner only in the command of a script. *)
Definition script_manifest : json :=
  JObject [ (txt "name", JString (txt "app"));
            (txt "scripts",
             JObject [ (txt "build", JString (txt "tsc"));
                       (txt "test", JString (txt "Mocha --recursive")) ]) ].

(* ================================================================== *)
(** * What the extractors hand on                                      *)
(* ================================================================== *)

(** The bodies of the groups numbered [n] that can take part in a
    match of [r]. *)
Fixpoint group_bodies (n : nat) (r : regex) : list regex :=
  match r with
  | Group k r1 => (if k =? n then [r1] else []) ++ group_bodies n r1
  | Seq r1 r2 | Alt r1 r2 => group_bodies n r1 ++ group_bodies n r2
  | Opt r1 => group_bodies n r1
  | Empty | Lit _ | Class _ | Star _ | LineStart => []
  end.

(** A non-empty run of word characters. *)
Definition identifier (t : text) : Prop := t <> [] /\ all_word t.

Definition symbol_methods (e : export_symbol) : list method :=
  match e with
  | FunctionSymbol _ _ _ _ => []
  | ClassSymbol _ _ ms _ => ms
  end.

Definition symbol_extends (e : export_symbol) : option text :=
  match e with
  | FunctionSymbol _ _ _ _ => None
  | ClassSymbol _ b _ _ => b
  end.

Definition symbol_signature (e : export_symbol) : text :=
  match e with
  | FunctionSymbol _ s _ _ => s
  | ClassSymbol _ _ _ s => s
  end.

(** A text with no blank at either end, as [trim] leaves it. *)
Definition trimmed (p : text) : Prop :=
  (forall c, hd_error p = Some c -> is_space c = false)
  /\ (forall c, hd_error (rev p) = Some c -> is_space c = false).

(** [name(params)], the parameters trimmed and free of a closing
    parenthesis. *)
Definition call_form (name signature : text) : Prop :=
  exists p, signature = name ++ txt "(" ++ p ++ txt ")"
            /\ trimmed p /\ ~ In ")"%char p.

(** A class that is closed, and text that follows it. *)
Definition closed_class_source : text := txt "export class A { m() { } }".
Definition following_source : text := txt " function later() { }".

(* ================================================================== *)
(** * The generator: the code block of a response, [extractCodeBlock]  *)
(* ================================================================== *)

Definition BACKTICK : ascii := "`"%char.

(** Three backticks, the fence of a code block. *)
Definition FENCE : text := [BACKTICK; BACKTICK; BACKTICK].

(** The strings [LANGUAGE_MAP] has for its values. *)
Definition language_name (lang : language) : text :=
  match lang with
  | javascript => txt "javascript"
  | typescript => txt "typescript"
  | python => txt "python"
  end.

(** [Canonicalize] under the [i] flag, for code units below 256: the
    upper case of a letter [a-z] or of a lower-case letter of the
    Latin-1 supplement (U+00E0..U+00FE but U+00F7).  The upper cases of
    U+00B5 and U+00FF lie above 255 and that of U+00DF is two code
    units long; these three are compared as they are, which gives the
    same equalities among code units below 256. *)
Definition canonicalize (c : ascii) : ascii :=
  if between 97 122 c || (between 224 254 c && negb (code c =? 247))
  then ascii_of_nat (code c - 32)
  else c.

(** A pattern character and a literal run under the [i] flag. *)
Definition CiLit (c : ascii) : regex :=
  Class (fun x => Ascii.eqb (canonicalize x) (canonicalize c)).

Fixpoint CiStr (s : text) : regex :=
  match s with
  | [] => Empty
  | [c] => CiLit c
  | c :: s' => Seq (CiLit c) (CiStr s')
  end.

(** The two patterns of [extractCodeBlock] use the lazy quantifier
    [[\s\S]*?], which the patterns of the analyzer do not: a pattern
    here is a sequence of parts without it ([Plain]), lazy runs of any
    code units ([AnyLazy]) and groups. *)
Inductive lazy_regex : Type :=
| Plain (r : regex)
| AnyLazy
| LSeq (a b : lazy_regex)
| LGroup (n : nat) (a : lazy_regex).

(** The loop of [[\s\S]*?]: try the continuation first, take one more
    code unit when it fails.  [s] is the text that remains at [st]. *)
Fixpoint lazy_loop (k : mstate -> option mstate) (s : text) (st : mstate)
  {struct s} : option mstate :=
  or_else (k st)
    match s with
    | [] => None
    | c :: tl => lazy_loop k tl (advance c tl st)
    end.

Fixpoint lmatch (r : lazy_regex) (st : mstate) (k : mstate -> option mstate)
  {struct r} : option mstate :=
  match r with
  | Plain r0 => rmatch r0 st k
  | AnyLazy => lazy_loop k (rest st) st
  | LSeq a b => lmatch a st (fun s1 => lmatch b s1 k)
  | LGroup n a =>
      lmatch a st
        (fun s1 => k (set_cap n (firstn (pos s1 - pos st) (rest st)) s1))
  end.

Definition lmatch_at (r : lazy_regex) (i : nat) (p : option ascii) (s : text)
  : option rx_match :=
  match lmatch r {| pos := i; rest := s; prev := p; caps := [] |} Some with
  | Some st =>
      Some {| index := i; matched := firstn (pos st - i) s;
              groups := caps st; lastIndex := pos st |}
  | None => None
  end.

Fixpoint lsearch (r : lazy_regex) (i : nat) (p : option ascii) (s : text)
  {struct s} : option rx_match :=
  match lmatch_at r i p s with
  | Some m => Some m
  | None =>
      match s with
      | [] => None
      | c :: s' => lsearch r (S i) (Some c) s'
      end
  end.

(** [text.match(regex)] for a regex without the [g] flag: the leftmost
    match, [None] for [null]. *)
Definition match_first (r : lazy_regex) (s : text) : option rx_match :=
  lsearch r 0 None s.

(** The alternatives after the opening fence, in the order of the
    pattern: the language of the analysis, then the six fixed tags. *)
Definition fence_tags (lang : language) : list text :=
  [ language_name lang; txt "javascript"; txt "typescript"; txt "python";
    txt "js"; txt "ts"; txt "py" ].

(** [new RegExp(F (?: language|javascript|typescript|python|js|ts|py )
     [\s\S]*? LF ( [\s\S]*? ) F, 'i')], F being the fence and LF the
    line feed the template literal puts into the pattern. *)
Definition fencedWithLang (lang : language) : lazy_regex :=
  LSeq (Plain (CiStr FENCE))
    (LSeq (Plain (alts (map CiStr (fence_tags lang))))
       (LSeq AnyLazy
          (LSeq (Plain (CiLit LF))
             (LSeq (LGroup 1 AnyLazy) (Plain (CiStr FENCE)))))).

(** [F [\s\S]*? \n ( [\s\S]*? ) F], no flag. *)
Definition fencedAny : lazy_regex :=
  LSeq (Plain (Str FENCE))
    (LSeq AnyLazy
       (LSeq (Plain (Lit LF))
          (LSeq (LGroup 1 AnyLazy) (Plain (Str FENCE))))).

(** [extractCodeBlock(text, language)]. *)
Definition extractCodeBlock (response : text) (lang : language) : text :=
  match match_first (fencedWithLang lang) response with
  | Some m => trim (group_text 1 m)
  | None =>
      match match_first fencedAny response with
      | Some m => trim (group_text 1 m)
      | None => trim response
      end
  end.

(** [t] starts with [p] up to letter case. *)
Fixpoint ci_startsWith (p t : text) : bool :=
  match p, t with
  | [], _ => true
  | _ :: _, [] => false
  | a :: p', b :: t' =>
      Ascii.eqb (canonicalize b) (canonicalize a) && ci_startsWith p' t'
  end.

(** The state after [n] more code units of the text. *)
Fixpoint skip (n : nat) (st : mstate) : mstate :=
  match n, rest st with
  | S n', c :: tl => skip n' (advance c tl st)
  | _, _ => st
  end.

(** No fence starts inside [u] when a fence follows it. *)
Definition no_fence_start (u : text) : Prop :=
  includes FENCE (u ++ [BACKTICK; BACKTICK]) = false.

(** A response with a tagged code block. *)
Definition tagged_response : text :=
  join_with [LF]
    [ txt "Here are the tests for `add`:"; txt "";
      FENCE ++ txt "JavaScript title=add.test.js";
      txt "test('adds', () => {})"; txt "";
      FENCE; txt "Run them with `npm test`." ].

(** The shape the two patterns share: an opening, the tags, and the
    body [[\s\S]*? LF ( [\s\S]*? ) F]. *)
Definition fence_body (nl close : regex) : lazy_regex :=
  LSeq AnyLazy (LSeq (Plain nl) (LSeq (LGroup 1 AnyLazy) (Plain close))).

(** The state at the end of a block: after the info line [w], its line
    feed, the code, which group 1 takes, and the closing fence. *)
Definition after_block (w code : text) (st : mstate) : mstate :=
  skip 3 (set_cap 1 code (skip (length code) (skip (S (length w)) st))).

(** [tag] is one of the tags of the pattern, up to letter case. *)
Definition ci_tag (lang : language) (tag : text) : Prop :=
  exists a, In a (fence_tags lang)
            /\ map canonicalize tag = map canonicalize a.

(** A response whose only block carries a tag the pattern does not
    list. *)
Definition foreign_response : text :=
  join_with [LF] [ txt "Run:"; FENCE ++ txt "bash"; txt "  pytest -q";
                   FENCE; txt "" ].

(* ================================================================== *)
(** * The generator: the parts of the prompt, [buildPrompt]            *)
(* ================================================================== *)

(** [buildPrompt] computes five texts from the analysis and the
    existing tests and sets them into its template; these five are
    modelled here.  The template itself holds a code unit above 255
    and is left out. *)

(** The strings the analyzer has for the frameworks. *)
Definition framework_name (fw : framework) : text :=
  match fw with
  | jest => txt "jest"
  | vitest => txt "vitest"
  | mocha => txt "mocha"
  | pytest => txt "pytest"
  end.

(** [FRAMEWORK_IMPORTS]: per framework, the import line per language. *)
Definition FRAMEWORK_IMPORTS : list (text * list (text * text)) :=
  [ (txt "jest",
     [ (txt "javascript",
        txt "import { describe, it, expect, beforeEach, afterEach, jest } from '@jest/globals'");
       (txt "typescript",
        txt "import { describe, it, expect, beforeEach, afterEach, jest } from '@jest/globals'") ]);
    (txt "vitest",
     [ (txt "javascript",
        txt "import { describe, it, expect, beforeEach, afterEach, vi } from 'vitest'");
       (txt "typescript",
        txt "import { describe, it, expect, beforeEach, afterEach, vi } from 'vitest'") ]);
    (txt "mocha",
     [ (txt "javascript",
        txt "import { describe, it } from 'mocha'" ++ LF
          :: txt "import assert from 'assert'");
       (txt "typescript",
        txt "import { describe, it } from 'mocha'" ++ LF
          :: txt "import assert from 'assert'") ]);
    (txt "pytest", [ (txt "python", txt "import pytest") ]) ].

(** [FRAMEWORK_IMPORTS[framework]?.[language] || '']. *)
Definition frameworkImport (fw : framework) (lang : language) : text :=
  match lookup (framework_name fw) FRAMEWORK_IMPORTS with
  | Some by_language =>
      match lookup (language_name lang) by_language with
      | Some line => line
      | None => []
      end
  | None => []
  end.

(** One line of [methodList]. *)
Definition method_line (m : method) : text :=
  txt "    - " ++ method_signature m.

(** The text of one symbol in [exportSummary]. *)
Definition export_line (e : export_symbol) : text :=
  match e with
  | ClassSymbol _ _ methods signature =>
      let methodList := join_with [LF] (map method_line methods) in
      txt "- class " ++ signature ++
      match methodList with
      | [] => []
      | _ :: _ => LF :: txt "  Methods:" ++ LF :: methodList
      end
  | FunctionSymbol _ signature async _ =>
      txt "- " ++ (if async then txt "async " else []) ++ txt "function "
      ++ signature
  end.

Definition exportSummary (exports : list export_symbol) : text :=
  join_with [LF] (map export_line exports).

Definition importSummary (imports : list text) : text :=
  match imports with
  | [] => []
  | _ :: _ => LF :: txt "Imports: " ++ join_with (txt ", ") imports
  end.

Definition frameworkGuidance (fw : framework) : text :=
  match fw with
  | jest | vitest =>
      join_with [LF]
        [ []; txt "Framework: " ++ framework_name fw;
          txt "- Use describe/it blocks";
          txt "- Use expect().toBe(), expect().toEqual(), expect().toThrow()";
          txt "- Mock with jest.fn() or vi.fn() respectively";
          txt "- Test happy path, edge cases, and error conditions" ]
  | mocha =>
      join_with [LF]
        [ []; txt "Framework: mocha";
          txt "- Use describe/it blocks";
          txt "- Use assert.strictEqual(), assert.deepEqual()";
          txt "- Test happy path, edge cases, and error conditions" ]
  | pytest =>
      join_with [LF]
        [ []; txt "Framework: pytest";
          txt "- Use test_ prefix for all test functions";
          txt "- Use assert statements";
          txt "- Use pytest.raises() for exception testing";
          txt "- Use fixtures for setup/teardown" ]
  end.

(** [existingTestsSection]; [None] is [null]. *)
Definition existingTestsSection (existingTests : option text) : text :=
  match truthy existingTests with
  | Some tests =>
      [LF; LF] ++ txt "EXISTING TESTS (do not duplicate these):" ++ [LF]
      ++ FENCE ++ [LF] ++ slice 0 2000 tests ++ [LF] ++ FENCE
  | None => []
  end.

(** [loadExistingTests(filePath)]. *)
Definition loadExistingTests (fs : FileSystem) (filePath : text)
  : IO (option text) :=
  try_catch (content <- readFile fs filePath ;; ret (Some content))
            (ret None).

(** [existingTestPath ? await loadExistingTests(existingTestPath) : null],
    the first statement of [generateTests]. *)
Definition existingTests (fs : FileSystem) (existingTestPath : option text)
  : IO (option text) :=
  match truthy existingTestPath with
  | Some path => loadExistingTests fs path
  | None => ret None
  end.

(** A Python file in a project that has only a jest config file. *)
Definition mixed_fs : FileSystem :=
  {| fs_readFile :=
       fun path => if text_eqb path (txt "app/tool.py")
                   then Some (txt "def main(): pass") else None;
     fs_access := fun path => text_eqb path (txt "app/jest.config.js") |}.

(** A response with a shell block before the tagged one. *)
Definition two_block_response : text :=
  join_with [LF]
    [ txt "Install first:"; FENCE; txt "npm i -D vitest"; FENCE; txt "";
      txt "Then the tests:"; FENCE ++ txt "ts"; txt "it('works', () => {})";
      FENCE ].

(** Every probe of a round, in order: what the locator does in a
    directory that yields nothing. *)
Definition probe_all {P : PathApi} (d : text) : list fs_op :=
  OpReadFile (join d (txt "package.json"))
  :: OpReadFile (join d (txt "pyproject.toml"))
  :: map (fun f => OpAccess (join d f)) (flat_map snd FRAMEWORK_CONFIG_FILES).

(** A manifest one directory above the file:
    [{"devDependencies":{"mocha":"^10"}}] in [proj]. *)
Definition parent_manifest_text : text :=
  json_text "{'devDependencies':{'mocha':'^10'}}".

Definition parent_manifest : json :=
  JObject [ (txt "devDependencies",
             JObject [(txt "mocha", JString (txt "^10"))]) ].

Definition parent_manifest_fs : FileSystem :=
  fs_of_files [(txt "proj/package.json", parent_manifest_text)].

Definition parent_manifest_json : JsonApi :=
  json_table [(parent_manifest_text, parent_manifest)].


(* ================================================================== *)
(** * Part II: lemmas and theorems                                     *)
(* ================================================================== *)

(** ** Text primitives *)

Lemma text_eqb_eq (a b : text) : text_eqb a b = true <-> a = b.
Proof.
  unfold text_eqb. destruct (list_eq_dec ascii_dec a b); split; congruence.
Qed.

Lemma text_eqb_refl (a : text) : text_eqb a a = true.
Proof. now apply text_eqb_eq. Qed.

Lemma text_eqb_sym (a b : text) : text_eqb a b = text_eqb b a.
Proof.
  destruct (text_eqb a b) eqn:E1, (text_eqb b a) eqn:E2; try reflexivity.
  - apply text_eqb_eq in E1. subst. now rewrite text_eqb_refl in E2.
  - apply text_eqb_eq in E2. subst. now rewrite text_eqb_refl in E1.
Qed.

Lemma startsWith_spec (p s : text) :
  startsWith p s = true <-> exists b, s = p ++ b.
Proof.
  revert s. induction p as [|a p IH]; intro s; simpl.
  - split; [intros _; now exists s | reflexivity].
  - destruct s as [|c s].
    + split; [discriminate | intros (b & H); discriminate].
    + rewrite andb_true_iff, Ascii.eqb_eq, IH. split.
      * intros (-> & b & ->). now exists b.
      * intros (b & H). injection H as -> ->. split; [reflexivity | now exists b].
Qed.

Lemma includes_spec (p s : text) :
  includes p s = true <-> exists a b, s = a ++ p ++ b.
Proof.
  induction s as [|c s IH]; simpl.
  - rewrite orb_false_r, startsWith_spec. split.
    + intros (b & H). now exists [], b.
    + intros (a & b & H). destruct a; simpl in H.
      * now exists b.
      * discriminate.
  - rewrite orb_true_iff, startsWith_spec, IH. split.
    + intros [(b & H) | (a & b & H)].
      * now exists [], b.
      * exists (c :: a), b. simpl. now f_equal.
    + intros (a & b & H). destruct a as [|x a]; simpl in H.
      * left. now exists b.
      * right. injection H as _ H. now exists a, b.
Qed.

Lemma includes_intro (p a b : text) : includes p (a ++ p ++ b) = true.
Proof. apply includes_spec. now exists a, b. Qed.

Lemma includes_trans (p q s : text) :
  includes p q = true -> includes q s = true -> includes p s = true.
Proof.
  rewrite !includes_spec. intros (a & b & ->) (c & d & ->).
  exists (c ++ a), (b ++ d). now rewrite <- !app_assoc.
Qed.

Lemma includes_app_r (p a s : text) :
  includes p s = true -> includes p (a ++ s) = true.
Proof.
  rewrite !includes_spec. intros (x & y & ->). exists (a ++ x), y.
  now rewrite <- app_assoc.
Qed.

Lemma includes_app_l (p s b : text) :
  includes p s = true -> includes p (s ++ b) = true.
Proof.
  rewrite !includes_spec. intros (x & y & ->). exists x, (y ++ b).
  now rewrite <- !app_assoc.
Qed.

Lemma includes_lower (p s : text) :
  includes p s = true -> includes (toLowerCase p) (toLowerCase s) = true.
Proof.
  rewrite !includes_spec. intros (a & b & ->).
  exists (toLowerCase a), (toLowerCase b). unfold toLowerCase.
  now rewrite !map_app.
Qed.

(** [slice(i, i + w).includes(p)] looks for [p] inside the window of
    [w] code units that starts at [i]. *)
Lemma includes_window (p src : text) (i w : nat) :
  p <> [] ->
  (includes p (slice i (i + w) src) = true <->
   exists q, i <= q /\ q + length p <= i + w /\ slice q (q + length p) src = p).
Proof.
  intro Hp. unfold slice.
  replace (i + w - i) with w by lia. rewrite includes_spec. split.
  - intros (a & b & H). exists (i + length a).
    assert (Hlen : length (a ++ p ++ b) <= w).
    { rewrite <- H. apply firstn_le_length. }
    rewrite !length_app in Hlen.
    split; [lia|]. split; [lia|].
    replace (i + length a + length p - (i + length a)) with (length p) by lia.
    assert (HX : skipn i src = a ++ p ++ (b ++ skipn w (skipn i src))).
    { rewrite <- (firstn_skipn w (skipn i src)) at 1. rewrite H.
      now rewrite <- !app_assoc. }
    replace (i + length a) with (length a + i) by lia.
    rewrite <- skipn_skipn, HX, skipn_app, skipn_all, Nat.sub_diag. simpl.
    rewrite firstn_app, firstn_all, Nat.sub_diag. simpl. apply app_nil_r.
  - intros (q & H1 & H2 & H).
    replace (q + length p - q) with (length p) in H by lia.
    assert (Hq : q < length src).
    { destruct (Nat.lt_ge_cases q (length src)) as [|G]; [assumption|].
      rewrite skipn_all2 in H by assumption. rewrite firstn_nil in H.
      now symmetry in H. }
    set (X := skipn i src). set (d := q - i).
    assert (HX : skipn d X = p ++ skipn (length p) (skipn q src)).
    { unfold X, d. rewrite skipn_skipn. replace (q - i + i) with q by lia.
      rewrite <- H at 1. now rewrite firstn_skipn. }
    assert (Hd : length (firstn d X) = d).
    { apply firstn_length_le. unfold X, d. rewrite length_skipn. lia. }
    exists (firstn d X), (firstn (w - d - length p) (skipn (length p) (skipn q src))).
    rewrite <- (firstn_skipn d X) at 1. rewrite HX.
    rewrite firstn_app, Hd, firstn_app.
    rewrite (firstn_all2 (firstn d X)) by (rewrite Hd; unfold d; lia).
    rewrite (firstn_all2 p) by (unfold d; lia).
    reflexivity.
Qed.

Lemma find_char_some (c : ascii) (s : text) :
  forall k, find_char c s = Some k ->
  nth_error s k = Some c /\ forall i, i < k -> nth_error s i <> Some c.
Proof.
  induction s as [|x s IH]; intros k H; simpl in H; [discriminate|].
  destruct (Ascii.eqb x c) eqn:E.
  - injection H as <-. apply Ascii.eqb_eq in E. subst x.
    split; [reflexivity | intros i Hi; lia].
  - destruct (find_char c s) as [k'|]; [|discriminate].
    injection H as <-. destruct (IH k' eq_refl) as (H1 & H2).
    split; [exact H1|]. intros [|i] Hi; simpl.
    + intro F. injection F as ->. now rewrite Ascii.eqb_refl in E.
    + apply H2. lia.
Qed.

Lemma find_char_none (c : ascii) (s : text) :
  find_char c s = None -> forall i, nth_error s i <> Some c.
Proof.
  induction s as [|x s IH]; intros H i; simpl in H.
  - destruct i; discriminate.
  - destruct (Ascii.eqb x c) eqn:E; [discriminate|].
    destruct (find_char c s); [discriminate|].
    destruct i as [|i]; simpl.
    + intro F. injection F as ->. now rewrite Ascii.eqb_refl in E.
    + now apply IH.
Qed.

(** [indexOf] answers the first position at or after [from] that holds
    the code unit. *)
Lemma indexOf_some (c : ascii) (from : nat) (s : text) (b : nat) :
  indexOf c from s = Some b ->
  from <= b /\ nth_error s b = Some c
  /\ forall i, from <= i -> i < b -> nth_error s i <> Some c.
Proof.
  unfold indexOf. destruct (find_char c (skipn from s)) as [k|] eqn:E;
    [|discriminate].
  intro H. injection H as <-. apply find_char_some in E.
  destruct E as (H1 & H2). rewrite nth_error_skipn in H1.
  split; [lia|]. split; [exact H1|].
  intros i Hi Hb. specialize (H2 (i - from) ltac:(lia)).
  rewrite nth_error_skipn in H2. now replace (from + (i - from)) with i in H2 by lia.
Qed.

Lemma indexOf_none (c : ascii) (from : nat) (s : text) :
  indexOf c from s = None ->
  forall i, from <= i -> nth_error s i <> Some c.
Proof.
  unfold indexOf. destruct (find_char c (skipn from s)) as [k|] eqn:E;
    [discriminate|].
  intros _ i Hi. pose proof (find_char_none _ _ E (i - from)) as H.
  rewrite nth_error_skipn in H. now replace (from + (i - from)) with i in H by lia.
Qed.

Lemma indexOf_complete (c : ascii) (from : nat) (s : text) :
  (forall i, from <= i -> nth_error s i <> Some c) -> indexOf c from s = None.
Proof.
  intro H. destruct (indexOf c from s) as [b|] eqn:E; [|reflexivity].
  apply indexOf_some in E. destruct E as (H1 & H2 & _).
  now destruct (H b H1).
Qed.

Lemma indexOf_first (c : ascii) (from : nat) (s : text) (b : nat) :
  from <= b -> nth_error s b = Some c ->
  (forall i, from <= i -> i < b -> nth_error s i <> Some c) ->
  indexOf c from s = Some b.
Proof.
  intros H1 H2 H3. destruct (indexOf c from s) as [b'|] eqn:E.
  - apply indexOf_some in E. destruct E as (E1 & E2 & E3).
    destruct (Nat.lt_trichotomy b b') as [L | [-> | L]]; [|reflexivity|].
    + now destruct (E3 b H1 L).
    + now destruct (H3 b' E1 L).
  - now destruct (indexOf_none _ _ _ E b H1).
Qed.

(* ================================================================== *)
(** * The matcher and the declarative reading of a match               *)
(* ================================================================== *)

(** ** Soundness *)

Lemma or_else_some {A} (a b : option A) (x : A) :
  or_else a b = Some x -> a = Some x \/ (a = None /\ b = Some x).
Proof. destruct a; simpl; intro H; [left | right]; auto. Qed.

Lemma star_loop_sound (r1 : regex)
  (IH : forall st k res, rmatch r1 st k = Some res ->
        exists st1, Matches r1 st st1 /\ k st1 = Some res) :
  forall n st k res, star_loop (rmatch r1) k n st = Some res ->
  exists st1, Matches (Star r1) st st1 /\ k st1 = Some res.
Proof.
  induction n as [|n IHn]; intros st k res H; simpl in H.
  - exists st. split; [constructor | exact H].
  - apply or_else_some in H. destruct H as [H | [_ H]].
    + apply IH in H. destruct H as (s1 & Hm & Hk).
      destruct (pos s1 =? pos st) eqn:E; [discriminate|].
      apply Nat.eqb_neq in E.
      apply IHn in Hk. destruct Hk as (s2 & Hm2 & Hk2).
      exists s2. split; [eapply M_StarStep; eauto | exact Hk2].
    + exists st. split; [constructor | exact H].
Qed.

(** Soundness: what the matcher accepts is a match, and the
    continuation accepted its end state. *)
Lemma rmatch_sound (r : regex) :
  forall st k res, rmatch r st k = Some res ->
  exists st1, Matches r st st1 /\ k st1 = Some res.
Proof.
  induction r as [ | c | p | r1 IH1 r2 IH2 | r1 IH1 r2 IH2 | r1 IH1 | r1 IH1
                 | n r1 IH1 | ]; intros st k res H; simpl in H.
  - exists st. auto with rx.
  - destruct (rest st) as [|x tl] eqn:E; [discriminate|].
    destruct (Ascii.eqb x c) eqn:Ex; [|discriminate].
    apply Ascii.eqb_eq in Ex. subst x.
    exists (advance c tl st). auto with rx.
  - destruct (rest st) as [|x tl] eqn:E; [discriminate|].
    destruct (p x) eqn:Ex; [|discriminate].
    exists (advance x tl st). auto with rx.
  - apply IH1 in H. destruct H as (s1 & Hm1 & H).
    apply IH2 in H. destruct H as (s2 & Hm2 & H).
    exists s2. eauto with rx.
  - apply or_else_some in H. destruct H as [H | [_ H]].
    + apply IH1 in H. destruct H as (s1 & Hm & H). eauto with rx.
    + apply IH2 in H. destruct H as (s1 & Hm & H). eauto with rx.
  - eapply star_loop_sound; eauto.
  - apply or_else_some in H. destruct H as [H | [_ H]].
    + apply IH1 in H. destruct H as (s1 & Hm & H).
      destruct (pos s1 =? pos st) eqn:E; [discriminate|].
      apply Nat.eqb_neq in E. eauto with rx.
    + eauto with rx.
  - apply IH1 in H. destruct H as (s1 & Hm & H). eauto with rx.
  - destruct (at_line_start st) eqn:E; [|discriminate]. eauto with rx.
Qed.

(** A match consumes a prefix of the remaining text: the position moves
    forward by what was consumed. *)
Lemma Matches_rest r st st1 :
  Matches r st st1 ->
  pos st <= pos st1 /\ rest st1 = skipn (pos st1 - pos st) (rest st)
  /\ pos st1 - pos st <= length (rest st).
Proof.
  assert (Stay : forall s : mstate,
             pos s <= pos s /\ rest s = skipn (pos s - pos s) (rest s)
             /\ pos s - pos s <= length (rest s)).
  { intro s. rewrite Nat.sub_diag. simpl. repeat split; lia. }
  assert (One : forall (s : mstate) c tl, rest s = c :: tl ->
             pos s <= S (pos s) /\ tl = skipn (S (pos s) - pos s) (rest s)
             /\ S (pos s) - pos s <= length (rest s)).
  { intros s c tl E. rewrite E.
    replace (S (pos s) - pos s) with 1 by lia. simpl. repeat split; lia. }
  assert (Two : forall s s1 s2 : mstate,
             pos s <= pos s1 /\ rest s1 = skipn (pos s1 - pos s) (rest s)
             /\ pos s1 - pos s <= length (rest s) ->
             pos s1 <= pos s2 /\ rest s2 = skipn (pos s2 - pos s1) (rest s1)
             /\ pos s2 - pos s1 <= length (rest s1) ->
             pos s <= pos s2 /\ rest s2 = skipn (pos s2 - pos s) (rest s)
             /\ pos s2 - pos s <= length (rest s)).
  { intros s s1 s2 (L1 & R1 & B1) (L2 & R2 & B2).
    rewrite R1 in R2, B2. rewrite skipn_skipn in R2. rewrite length_skipn in B2.
    replace (pos s2 - pos s) with (pos s2 - pos s1 + (pos s1 - pos s)) by lia.
    repeat split; auto; lia. }
  induction 1; simpl; eauto.
Qed.

Lemma Matches_progress r st st1 :
  Matches r st st1 -> nullable r = false -> pos st < pos st1.
Proof.
  induction 1; simpl; intro N; try discriminate; try lia.
  - apply Matches_rest in H, H0.
    apply andb_false_iff in N. destruct N as [N | N]; [specialize (IHMatches1 N) | specialize (IHMatches2 N)]; lia.
  - apply orb_false_iff in N. tauto.
  - apply orb_false_iff in N. tauto.
  - auto.
Qed.

(** ** Completeness *)

Lemma or_else_left {A} (a b : option A) : a <> None -> or_else a b <> None.
Proof. destruct a; simpl; congruence. Qed.

Lemma or_else_right {A} (a b : option A) : b <> None -> or_else a b <> None.
Proof. destruct a; simpl; congruence. Qed.

Lemma star_loop_stop (m1 : mstate -> (mstate -> option mstate) -> option mstate)
  (k : mstate -> option mstate) (n : nat) (st : mstate) :
  k st <> None -> star_loop m1 k n st <> None.
Proof. destruct n; simpl; [auto | apply or_else_right]. Qed.

(** Whatever the declarative reading allows and the continuation
    accepts, the matcher finds a match; the counter of [*] is never
    what stops it. *)
Lemma rmatch_complete_gen r st st1 :
  Matches r st st1 ->
  forall k, k st1 <> None ->
  rmatch r st k <> None
  /\ forall r1, r = Star r1 -> forall n, length (rest st) <= n ->
       star_loop (rmatch r1) k n st <> None.
Proof.
  intro H. induction H; intros k Hk.
  - split; [exact Hk | discriminate].
  - split; [|discriminate]. simpl. rewrite H, Ascii.eqb_refl. exact Hk.
  - split; [|discriminate]. simpl. rewrite H, H0. exact Hk.
  - split; [|discriminate]. simpl.
    apply (IHMatches1 (fun s => rmatch r2 s k)).
    now apply IHMatches2.
  - split; [|discriminate]. simpl. apply or_else_left. now apply IHMatches.
  - split; [|discriminate]. simpl. apply or_else_right. now apply IHMatches.
  - split.
    + simpl. now apply star_loop_stop.
    + intros r1 E n Hn. now apply star_loop_stop.
  - assert (G : forall n, length (rest st) <= n ->
                  star_loop (rmatch r) k n st <> None).
    { intros n Hn.
      destruct (Matches_rest _ _ _ H) as (L & R & B).
      destruct n as [|n]; [lia|]. simpl. apply or_else_left.
      apply IHMatches1.
      destruct (pos st1 =? pos st) eqn:E; [apply Nat.eqb_eq in E; contradiction|].
      apply (proj2 (IHMatches2 k Hk) r eq_refl).
      rewrite R, length_skipn. lia. }
    split.
    + simpl. now apply G.
    + intros r1 E. injection E as <-. exact G.
  - split; [|discriminate]. simpl. now apply or_else_right.
  - split; [|discriminate]. simpl. apply or_else_left. apply IHMatches.
    destruct (pos st1 =? pos st) eqn:E; [apply Nat.eqb_eq in E; contradiction|].
    exact Hk.
  - split; [|discriminate]. simpl.
    now apply (IHMatches (fun s1 => k (set_cap n (firstn (pos s1 - pos st) (rest st)) s1))).
  - split; [|discriminate]. simpl. now rewrite H.
Qed.

Lemma rmatch_complete r st st1 k :
  Matches r st st1 -> k st1 <> None -> rmatch r st k <> None.
Proof. intros H Hk. now apply (rmatch_complete_gen _ _ _ H). Qed.

(** ** What [exec] and the loop over its matches return *)

Lemma search_inv (r : regex) :
  forall s i p m, search r i p s = Some m ->
  exists j, j <= length s
    /\ match_at r (i + j) (prev_at p s j) (skipn j s) = Some m
    /\ forall j', j' < j ->
         match_at r (i + j') (prev_at p s j') (skipn j' s) = None.
Proof.
  induction s as [|c s IH]; intros i p m H; simpl in H.
  - destruct (match_at r i p []) eqn:E; [|discriminate].
    exists 0. rewrite Nat.add_0_r. simpl. split; [lia|]. split; [congruence|].
    intros j' Hj. lia.
  - destruct (match_at r i p (c :: s)) eqn:E.
    + exists 0. rewrite Nat.add_0_r. simpl. split; [lia|]. split; [congruence|].
      intros j' Hj. lia.
    + apply IH in H. destruct H as (j & Hj & Hm & Hleft).
      exists (S j). simpl. split; [lia|]. split.
      * rewrite Nat.add_succ_r. destruct j; exact Hm.
      * intros [|j'] Hj'.
        -- rewrite Nat.add_0_r. exact E.
        -- rewrite Nat.add_succ_r. specialize (Hleft j' ltac:(lia)).
           destruct j'; exact Hleft.
Qed.

Lemma search_none (r : regex) :
  forall s i p, search r i p s = None ->
  forall j, j <= length s ->
    match_at r (i + j) (prev_at p s j) (skipn j s) = None.
Proof.
  induction s as [|c s IH]; intros i p H j Hj; simpl in H;
    destruct (match_at r i p _) eqn:E; try discriminate.
  - simpl in Hj. replace j with 0 by lia. now rewrite Nat.add_0_r.
  - destruct j as [|j].
    + now rewrite Nat.add_0_r.
    + simpl in Hj. specialize (IH _ _ H j ltac:(lia)).
      rewrite Nat.add_succ_r. simpl. destruct j; exact IH.
Qed.

Lemma prev_at_skipn (src : text) (i j : nat) :
  i <= length src ->
  prev_at (char_before i src) (skipn i src) j = char_before (i + j) src.
Proof.
  intro Hi. destruct j as [|j]; simpl.
  - now rewrite Nat.add_0_r.
  - rewrite Nat.add_succ_r. simpl. revert src Hi.
    induction i as [|i IH]; intros src Hi; simpl; [reflexivity|].
    destruct src as [|c src]; simpl in *; [lia|]. apply IH. lia.
Qed.

Lemma attempt_skipn (r : regex) (src : text) (i j : nat) :
  i <= length src ->
  match_at r (i + j) (prev_at (char_before i src) (skipn i src) j)
           (skipn j (skipn i src))
  = attempt r src (i + j).
Proof.
  intro Hi. unfold attempt. rewrite prev_at_skipn by assumption.
  rewrite skipn_skipn, (Nat.add_comm j i). reflexivity.
Qed.

(** [exec] answers with the leftmost position at or after [lastIndex]
    where an attempt succeeds, and with the match of that attempt. *)
Lemma exec_some (r : regex) (src : text) (i : nat) (m : rx_match) :
  exec r src i = Some m ->
  exists j, i <= j /\ j <= length src /\ attempt r src j = Some m
    /\ forall j', i <= j' -> j' < j -> attempt r src j' = None.
Proof.
  unfold exec. destruct (length src <? i) eqn:L; [discriminate|].
  apply Nat.ltb_ge in L. intro H. apply search_inv in H.
  destruct H as (j & Hj & Hm & Hleft). rewrite length_skipn in Hj.
  exists (i + j). rewrite attempt_skipn in Hm by assumption.
  repeat split; try lia; try assumption.
  intros j' H1 H2. specialize (Hleft (j' - i) ltac:(lia)).
  rewrite attempt_skipn in Hleft by assumption.
  now replace (i + (j' - i)) with j' in Hleft by lia.
Qed.

(** [exec] answers [null] only when no attempt from [lastIndex] on
    succeeds. *)
Lemma exec_none (r : regex) (src : text) (i : nat) :
  exec r src i = None ->
  forall j, i <= j -> j <= length src -> attempt r src j = None.
Proof.
  unfold exec. destruct (length src <? i) eqn:L.
  - apply Nat.ltb_lt in L. intros _ j H1 H2. lia.
  - apply Nat.ltb_ge in L. intros H j H1 H2.
    pose proof (search_none _ _ _ _ H (j - i)) as Hn.
    rewrite length_skipn in Hn. specialize (Hn ltac:(lia)).
    rewrite attempt_skipn in Hn by assumption.
    now replace (i + (j - i)) with j in Hn by lia.
Qed.

(** A successful attempt is a match in the declarative sense, between
    [index] and [lastIndex], and [match[0]] is the text between. *)
Lemma attempt_some (r : regex) (src : text) (j : nat) (m : rx_match) :
  attempt r src j = Some m ->
  exists st1,
    Matches r {| pos := j; rest := skipn j src; prev := char_before j src;
                 caps := [] |} st1
    /\ index m = j /\ lastIndex m = pos st1 /\ groups m = caps st1
    /\ matched m = slice j (pos st1) src.
Proof.
  unfold attempt, match_at. intro H.
  destruct (rmatch r _ Some) as [st1|] eqn:E; [|discriminate].
  apply rmatch_sound in E. destruct E as (s1 & Hm & Hs).
  injection Hs as <-. injection H as <-. exists s1. simpl. auto.
Qed.

(** An attempt fails only where the pattern has no match. *)
Lemma attempt_none (r : regex) (src : text) (j : nat) :
  attempt r src j = None ->
  forall st1,
    ~ Matches r {| pos := j; rest := skipn j src; prev := char_before j src;
                   caps := [] |} st1.
Proof.
  unfold attempt, match_at. intros H st1 Hm.
  pose proof (rmatch_complete _ _ _ Some Hm) as C.
  destruct (rmatch r _ Some); [discriminate|]. apply C; congruence.
Qed.

Lemma attempt_bounds (r : regex) (src : text) (j : nat) (m : rx_match) :
  j <= length src -> attempt r src j = Some m ->
  index m = j /\ j <= lastIndex m /\ lastIndex m <= length src
  /\ (nullable r = false -> j < lastIndex m).
Proof.
  intros Hj H. apply attempt_some in H.
  destruct H as (st1 & Hm & Hi & Hl & _).
  pose proof (Matches_rest _ _ _ Hm) as (L1 & _ & B). simpl in *.
  rewrite length_skipn in B. rewrite Hl.
  repeat split; try lia; auto.
  intro N. apply (Matches_progress _ _ _ Hm) in N. simpl in N. exact N.
Qed.

(** A match of a regular expression that matches no empty text moves
    [lastIndex] forward. *)
Lemma exec_progress (r : regex) (src : text) (i : nat) (m : rx_match) :
  nullable r = false -> exec r src i = Some m ->
  i <= index m /\ index m < lastIndex m /\ lastIndex m <= length src.
Proof.
  intros N H. apply exec_some in H. destruct H as (j & H1 & H2 & Ha & _).
  destruct (attempt_bounds _ _ _ _ H2 Ha) as (Hi & _ & Hl & Hp).
  specialize (Hp N). lia.
Qed.

(** Past that many rounds the fuel of [exec_loop] plays no part. *)
Lemma exec_loop_fuel (r : regex) (src : text) :
  nullable r = false ->
  forall f1 f2 i, length src - i < f1 -> length src - i < f2 ->
  exec_loop r src f1 i = exec_loop r src f2 i.
Proof.
  intro N. induction f1 as [|f1 IH]; intros f2 i H1 H2; [lia|].
  destruct f2 as [|f2]; [lia|]. simpl.
  destruct (exec r src i) as [m|] eqn:E; [|reflexivity].
  destruct (exec_progress _ _ _ _ N E) as (A & B & C).
  f_equal. apply IH; lia.
Qed.

(** The loop equation of [while ((match = regex.exec(s)) !== null)]:
    the model takes exactly the rounds the loop takes. *)
Lemma exec_loop_unfold (r : regex) (src : text) (i : nat) :
  nullable r = false ->
  exec_loop r src (S (length src)) i =
  match exec r src i with
  | Some m => m :: exec_loop r src (S (length src)) (lastIndex m)
  | None => []
  end.
Proof.
  intro N.
  change (exec_loop r src (S (length src)) i)
    with (match exec r src i with
          | Some m => m :: exec_loop r src (length src) (lastIndex m)
          | None => []
          end).
  destruct (exec r src i) as [m|] eqn:E; [|reflexivity].
  destruct (exec_progress _ _ _ _ N E) as (A & B & C).
  f_equal. apply exec_loop_fuel; [assumption | lia | lia].
Qed.

(** Every match the loop sees is a successful attempt at a position of
    the text. *)
Lemma exec_loop_attempts (r : regex) (src : text) (Q : rx_match -> Prop) :
  (forall j m, j <= length src -> attempt r src j = Some m -> Q m) ->
  forall fuel i, Forall Q (exec_loop r src fuel i).
Proof.
  intro H. induction fuel as [|fuel IH]; intro i; simpl; [constructor|].
  destruct (exec r src i) as [m|] eqn:E; [|constructor].
  constructor; [|apply IH].
  apply exec_some in E. destruct E as (j & _ & Hj & Ha & _). eauto.
Qed.

Lemma exec_all_attempts (r : regex) (src : text) (Q : rx_match -> Prop) :
  (forall j m, j <= length src -> attempt r src j = Some m -> Q m) ->
  Forall Q (exec_all r src).
Proof. intro H. now apply exec_loop_attempts. Qed.



Lemma nullable_regexes :
  nullable methodRegex = false /\ nullable namedFuncRegex = false
  /\ nullable arrowFuncRegex = false /\ nullable classRegex = false
  /\ nullable defaultFuncRegex = false /\ nullable pyFuncRegex = false
  /\ nullable pyClassRegex = false /\ nullable jsImportRegex = false
  /\ nullable pyImportRegex = false.
Proof. repeat split. Qed.

(** ** The text and the captures of a match *)

Lemma taken_refl (st : mstate) : taken st st = [].
Proof. unfold taken. now rewrite Nat.sub_diag. Qed.

Lemma taken_trans r1 r2 st st1 st2 :
  Matches r1 st st1 -> Matches r2 st1 st2 ->
  taken st st2 = taken st st1 ++ taken st1 st2.
Proof.
  intros H1 H2. unfold taken.
  destruct (Matches_rest _ _ _ H1) as (L1 & R1 & B1).
  destruct (Matches_rest _ _ _ H2) as (L2 & R2 & B2).
  rewrite R1.
  replace (pos st2 - pos st) with (pos st1 - pos st + (pos st2 - pos st1)) by lia.
  rewrite <- (firstn_skipn (pos st1 - pos st) (rest st)) at 1.
  rewrite <- (firstn_length_le (rest st) B1) at 1.
  now rewrite firstn_app_2.
Qed.

Lemma no_group_outside (r : regex) :
  has_group r = false -> groups_outside_star r = true.
Proof.
  induction r; simpl; intro H; try reflexivity; try discriminate.
  - apply orb_false_iff in H. destruct H. now rewrite IHr1, IHr2.
  - apply orb_false_iff in H. destruct H. now rewrite IHr1, IHr2.
  - now rewrite H.
  - auto.
Qed.

Lemma reads_no_group (r : regex) :
  has_group r = false -> forall t cs, reads r t cs -> cs = [].
Proof.
  induction r; simpl; intros H t cs R; try discriminate.
  - tauto.
  - tauto.
  - tauto.
  - apply orb_false_iff in H. destruct H as (H1 & H2).
    destruct R as (t1 & t2 & cs1 & cs2 & _ & -> & R1 & R2).
    now rewrite (IHr1 H1 _ _ R1), (IHr2 H2 _ _ R2).
  - apply orb_false_iff in H. destruct H as (H1 & H2).
    destruct R as [R | R]; eauto.
  - tauto.
  - destruct R as [(_ & R) | R]; eauto.
  - tauto.
Qed.

(** A match reads the text it takes, and adds to the captures what
    reading it captures. *)
Lemma Matches_reads r st st1 :
  Matches r st st1 -> groups_outside_star r = true ->
  exists cs, caps st1 = cs ++ caps st /\ reads r (taken st st1) cs.
Proof.
  intro H. induction H; intro G; simpl in G.
  - exists []. rewrite taken_refl. simpl. auto.
  - exists []. unfold taken, advance. cbn [pos rest caps reads app]. rewrite H.
    replace (S (pos st) - pos st) with 1 by lia. simpl. auto.
  - exists []. unfold taken, advance. cbn [pos rest caps reads app]. rewrite H.
    replace (S (pos st) - pos st) with 1 by lia. simpl. eauto.
  - apply andb_true_iff in G. destruct G as (G1 & G2).
    destruct (IHMatches1 G1) as (cs1 & C1 & R1).
    destruct (IHMatches2 G2) as (cs2 & C2 & R2).
    exists (cs2 ++ cs1). split.
    + now rewrite C2, C1, app_assoc.
    + simpl. exists (taken st st1), (taken st1 st2), cs1, cs2.
      split; [eapply taken_trans; eassumption | auto].
  - apply andb_true_iff in G. destruct G as (G1 & G2).
    destruct (IHMatches G1) as (cs & C & R). exists cs. simpl. auto.
  - apply andb_true_iff in G. destruct G as (G1 & G2).
    destruct (IHMatches G2) as (cs & C & R). exists cs. simpl. auto.
  - exists []. rewrite taken_refl. simpl. split; [reflexivity|].
    split; [reflexivity|]. exists []. auto.
  - apply negb_true_iff in G.
    destruct (IHMatches1 (no_group_outside _ G)) as (cs1 & C1 & R1).
    assert (G' : groups_outside_star (Star r) = true).
    { simpl. now rewrite G. }
    destruct (IHMatches2 G') as (cs2 & C2 & R2).
    pose proof (reads_no_group _ G _ _ R1) as E1. subst cs1. simpl in C1.
    simpl in R2. destruct R2 as (-> & parts & Ep & Fp). simpl in C2.
    exists []. split; [simpl; congruence|]. simpl. split; [reflexivity|].
    exists (taken st st1 :: parts). split.
    + simpl. rewrite <- Ep. eapply taken_trans; eassumption.
    + constructor; assumption.
  - exists []. rewrite taken_refl. simpl. auto.
  - destruct (IHMatches G) as (cs & C & R). exists cs. simpl. auto.
  - destruct (IHMatches G) as (cs & C & R).
    exists ((n, taken st st1) :: cs). split.
    + simpl. now rewrite C.
    + simpl. exists cs. split; [|reflexivity]. exact R.
  - exists []. rewrite taken_refl. simpl. auto.
Qed.

(** What a successful attempt reads. *)
Lemma attempt_reads (r : regex) (src : text) (j : nat) (m : rx_match) :
  groups_outside_star r = true -> attempt r src j = Some m ->
  index m = j /\ matched m = slice j (lastIndex m) src
  /\ reads r (matched m) (groups m).
Proof.
  intros G H. apply attempt_some in H.
  destruct H as (st1 & Hm & Hi & Hl & Hg & Ht).
  destruct (Matches_reads _ _ _ Hm G) as (cs & C & R).
  simpl in C. rewrite app_nil_r in C.
  split; [exact Hi|]. rewrite Hl. split; [exact Ht|].
  rewrite Hg, C, Ht. exact R.
Qed.

Lemma char_before_line_start (src : text) (j : nat) :
  at_line_start {| pos := j; rest := skipn j src; prev := char_before j src;
                   caps := [] |} = true ->
  j <= length src -> line_start src j.
Proof.
  unfold at_line_start, line_start. simpl. intros H Hj.
  destruct j as [|j]; [now left|]. right. simpl in *.
  rewrite Nat.sub_0_r.
  destruct (nth_error src j) as [c|] eqn:E.
  - exists c. auto.
  - apply nth_error_None in E. lia.
Qed.

(** A pattern that begins with [^] matches at the start of a line. *)
Lemma attempt_line_start (r : regex) (src : text) (j : nat) (m : rx_match) :
  j <= length src -> attempt (Seq LineStart r) src j = Some m ->
  line_start src j.
Proof.
  intros Hj H. apply attempt_some in H. destruct H as (st1 & Hm & _).
  inversion Hm as [ | | | r1 r2 s s1 s2 H1 H2 | | | | | | | | ]; subst.
  inversion H1; subst. now apply char_before_line_start.
Qed.

Lemma groups_outside_star_regexes :
  groups_outside_star methodRegex = true
  /\ groups_outside_star namedFuncRegex = true
  /\ groups_outside_star arrowFuncRegex = true
  /\ groups_outside_star classRegex = true
  /\ groups_outside_star defaultFuncRegex = true
  /\ groups_outside_star pyFuncRegex = true
  /\ groups_outside_star pyClassRegex = true
  /\ groups_outside_star jsImportRegex = true
  /\ groups_outside_star pyImportRegex = true.
Proof. repeat split. Qed.

(** ** The groups the source reads are defined *)

Lemma group_app (n : nat) (a b : list (nat * text)) :
  group n (a ++ b) = or_else (group n a) (group n b).
Proof.
  induction a as [|[k t] a IH]; simpl; [reflexivity|].
  destruct (k =? n); [reflexivity | exact IH].
Qed.

Lemma reads_always_captures (n : nat) (r : regex) :
  always_captures n r = true ->
  forall t cs, reads r t cs -> exists x, group n cs = Some x.
Proof.
  induction r as [ | c | p | r1 IH1 r2 IH2 | r1 IH1 r2 IH2 | r1 IH1 | r1 IH1
                 | k r1 IH1 | ]; simpl; intros A t cs R; try discriminate.
  - destruct R as (t1 & t2 & cs1 & cs2 & _ & -> & R1 & R2).
    rewrite group_app. apply orb_true_iff in A.
    destruct (group n cs2) as [x|] eqn:E2; [now exists x|]. simpl.
    destruct A as [A | A]; [now apply (IH1 A t1)|].
    destruct (IH2 A t2 cs2 R2) as (x & Hx). congruence.
  - apply andb_true_iff in A. destruct A as (A1 & A2).
    destruct R as [R | R]; eauto.
  - destruct R as (cs1 & R & ->). simpl.
    destruct (k =? n) eqn:E; [now exists t|].
    simpl in A. eauto.
Qed.

(** In every match the loop sees, a group that takes part in every way
    of matching is defined. *)
Lemma exec_all_group_defined (n : nat) (r : regex) (src : text) :
  groups_outside_star r = true -> always_captures n r = true ->
  Forall (fun m => exists x, group n (groups m) = Some x) (exec_all r src).
Proof.
  intros G A. apply exec_all_attempts. intros j m Hj Ha.
  destruct (attempt_reads _ _ _ _ G Ha) as (_ & _ & R).
  eapply reads_always_captures; eassumption.
Qed.

(** The groups the source reads as strings always take part: group 1
    and group 2 of the method, function and arrow patterns, group 1 of
    the class and import patterns. *)
Lemma groups_read_are_defined :
  always_captures 1 methodRegex = true /\ always_captures 2 methodRegex = true
  /\ always_captures 1 namedFuncRegex = true
  /\ always_captures 2 namedFuncRegex = true
  /\ always_captures 1 arrowFuncRegex = true
  /\ always_captures 2 arrowFuncRegex = true
  /\ always_captures 1 classRegex = true
  /\ always_captures 1 defaultFuncRegex = true
  /\ always_captures 2 defaultFuncRegex = true
  /\ always_captures 1 pyFuncRegex = true /\ always_captures 2 pyFuncRegex = true
  /\ always_captures 1 pyClassRegex = true
  /\ always_captures 1 jsImportRegex = true.
Proof. repeat split. Qed.

(** ** Reading the forms of the source *)

Lemma reads_Str (s t : text) (cs : list (nat * text)) :
  reads (Str s) t cs -> t = s /\ cs = [].
Proof.
  revert t cs. induction s as [|c s IH]; intros t cs H.
  - exact H.
  - destruct s as [|c' s'].
    + exact H.
    + change (reads (Seq (Lit c) (Str (c' :: s'))) t cs) in H.
      destruct H as (t1 & t2 & cs1 & cs2 & -> & -> & (-> & ->) & H2).
      apply IH in H2. destruct H2 as (-> & ->). auto.
Qed.

Lemma reads_Word (s : string) (t : text) (cs : list (nat * text)) :
  reads (Word s) t cs -> t = txt s /\ cs = [].
Proof. apply reads_Str. Qed.

Lemma reads_Star_class (p : ascii -> bool) (t : text) (cs : list (nat * text)) :
  reads (Star (Class p)) t cs -> cs = [] /\ Forall (fun c => p c = true) t.
Proof.
  intros (-> & parts & -> & F). split; [reflexivity|].
  induction F as [|x parts Hx F IH]; simpl; [constructor|].
  destruct Hx as ((c & -> & Hc) & _). simpl. now constructor.
Qed.

Lemma reads_Plus_class (p : ascii -> bool) (t : text) (cs : list (nat * text)) :
  reads (Plus (Class p)) t cs ->
  cs = [] /\ t <> [] /\ Forall (fun c => p c = true) t.
Proof.
  intros (t1 & t2 & cs1 & cs2 & -> & -> & ((c & -> & Hc) & ->) & H2).
  apply reads_Star_class in H2. destruct H2 as (-> & F).
  split; [reflexivity|]. split; [discriminate|]. now constructor.
Qed.

Lemma reads_Seq (r1 r2 : regex) (t : text) (cs : list (nat * text)) :
  reads (Seq r1 r2) t cs ->
  exists t1 t2 cs1 cs2,
    t = t1 ++ t2 /\ cs = cs2 ++ cs1 /\ reads r1 t1 cs1 /\ reads r2 t2 cs2.
Proof. exact (fun H => H). Qed.

Lemma reads_Group (n : nat) (r : regex) (t : text) (cs : list (nat * text)) :
  reads (Group n r) t cs -> exists cs1, reads r t cs1 /\ cs = (n, t) :: cs1.
Proof. exact (fun H => H). Qed.

Lemma reads_Opt (r : regex) (t : text) (cs : list (nat * text)) :
  reads (Opt r) t cs -> (t = [] /\ cs = []) \/ reads r t cs.
Proof. exact (fun H => H). Qed.

Lemma reads_Alt (r1 r2 : regex) (t : text) (cs : list (nat * text)) :
  reads (Alt r1 r2) t cs -> reads r1 t cs \/ reads r2 t cs.
Proof. exact (fun H => H). Qed.

(** One step of breaking a reading down to its parts. *)
Ltac read_step :=
  match goal with
  | H : reads (Word _) _ _ |- _ =>
      apply reads_Word in H; destruct H as (? & ?)
  | H : reads (Plus (Class _)) _ _ |- _ =>
      apply reads_Plus_class in H; destruct H as (? & ? & ?)
  | H : reads (Star (Class _)) _ _ |- _ =>
      apply reads_Star_class in H; destruct H as (? & ?)
  | H : reads (Seq _ _) _ _ |- _ =>
      apply reads_Seq in H; destruct H as (? & ? & ? & ? & ? & ? & ? & ?)
  | H : reads (Group _ _) _ _ |- _ =>
      apply reads_Group in H; destruct H as (? & ? & ?)
  | H : reads (Lit _) _ _ |- _ => destruct H as (? & ?)
  | H : reads (Class _) _ _ |- _ => destruct H as ((? & ? & ?) & ?)
  | H : reads LineStart _ _ |- _ => destruct H as (? & ?)
  | H : reads Empty _ _ |- _ => destruct H as (? & ?)
  end.

Ltac read_inv := repeat read_step; subst.

Ltac read_pattern H :=
  cbn [seqs alts] in H;
  unfold ws, wd, non_ws, not_char, quote, non_quote in H.

Lemma Forall_negb (p : ascii -> bool) (t : text) :
  Forall (fun c => negb (p c) = true) t -> Forall (fun c => p c = false) t.
Proof.
  apply Forall_impl. intros c H. now apply negb_true_iff.
Qed.

Lemma not_in_char (x : ascii) (t : text) :
  Forall (fun c => negb (Ascii.eqb c x) = true) t -> ~ In x t.
Proof.
  intros F Hin. rewrite Forall_forall in F. specialize (F x Hin).
  now rewrite Ascii.eqb_refl in F.
Qed.

(** What the Python [funcRegex] reads. *)
Lemma reads_pyFuncRegex (t : text) (cs : list (nat * text)) :
  reads pyFuncRegex t cs ->
  exists name params,
    cs = [(2, params); (1, name)] /\ py_def_text t name params.
Proof.
  unfold pyFuncRegex. intro H. read_pattern H.
  apply reads_Seq in H. destruct H as (t0 & t1 & c0 & c1 & -> & -> & H0 & H).
  apply reads_Seq in H. destruct H as (pre & t2 & cpre & c2 & -> & -> & Hpre & H).
  read_inv.
  assert (Pre : cpre = []
                /\ (pre = [] \/ exists w, pre = txt "async" ++ w /\ w <> []
                                          /\ all_space w)).
  { apply reads_Opt in Hpre. destruct Hpre as [(-> & ->) | Hpre].
    - split; [reflexivity | now left].
    - read_inv. split; [reflexivity | right]. eexists. repeat split; eauto. }
  destruct Pre as (-> & Pre).
  do 2 eexists. split; [reflexivity|].
  exists pre. do 2 eexists. split; [reflexivity|].
  repeat split; try eassumption. now apply not_in_char.
Qed.

(** What the JavaScript [importRegex] reads. *)
Lemma reads_jsImportRegex (t : text) (cs : list (nat * text)) :
  reads jsImportRegex t cs ->
  exists ref, cs = [(1, ref)] /\ js_import_text t ref.
Proof.
  unfold jsImportRegex. intro H. read_pattern H.
  apply reads_Seq in H. destruct H as (t0 & t1 & c0 & c1 & -> & -> & H0 & H).
  apply reads_Seq in H. destruct H as (sp & t2 & c2 & c3 & -> & -> & Hsp & H).
  apply reads_Seq in H.
  destruct H as (clause & t3 & cc & c4 & -> & -> & Hclause & H).
  read_inv.
  assert (Clause : cc = []
            /\ (clause = []
                \/ exists bindings sp1 sp2,
                     clause = bindings ++ sp1 ++ txt "from" ++ sp2
                     /\ sp1 <> [] /\ all_space sp1 /\ sp2 <> [] /\ all_space sp2)).
  { apply reads_Opt in Hclause. destruct Hclause as [(-> & ->) | Hclause].
    - split; [reflexivity | now left].
    - split; [eapply reads_no_group; [|exact Hclause]; reflexivity|]. right.
      apply reads_Seq in Hclause.
      destruct Hclause as (b1 & u1 & d1 & d2 & -> & _ & _ & Hclause).
      apply reads_Seq in Hclause.
      destruct Hclause as (b2 & u2 & d3 & d4 & -> & _ & _ & Hclause).
      read_inv. exists (b1 ++ b2). do 2 eexists.
      split; [now rewrite <- app_assoc|]. repeat split; assumption. }
  destruct Clause as (-> & Clause).
  eexists. split; [reflexivity|].
  exists sp, clause. do 2 eexists. split; [reflexivity|].
  repeat split; try eassumption. now apply Forall_negb.
Qed.

(** What the Python [importRegex] reads. *)
Lemma reads_pyImportRegex (t : text) (cs : list (nat * text)) :
  reads pyImportRegex t cs ->
  exists ref, (cs = [(1, ref)] \/ cs = [(2, ref)]) /\ py_import_text t ref.
Proof.
  unfold pyImportRegex. intro H. read_pattern H.
  apply reads_Seq in H. destruct H as (t0 & t1 & c0 & c1 & -> & -> & H0 & H).
  apply reads_Alt in H. destruct H as [H | H]; read_inv.
  - eexists. split; [left; reflexivity|].
    split; [eassumption|]. split; [now apply Forall_negb|]. left.
    do 2 eexists. split; [reflexivity|]. repeat split; assumption.
  - eexists. split; [right; reflexivity|].
    split; [eassumption|]. split; [now apply Forall_negb|]. right.
    eexists. split; [reflexivity|]. repeat split; assumption.
Qed.

(* ================================================================== *)
(** * The extractors                                                   *)
(* ================================================================== *)

(** ** The brace scanner *)

Lemma brace_depth_cons (c : ascii) (s : text) :
  brace_depth (c :: s)
  = ((if Ascii.eqb c "{"%char then 1
      else if Ascii.eqb c "}"%char then -1 else 0) + brace_depth s)%Z.
Proof. reflexivity. Qed.

(** The loop, entered with a depth of at least one, breaks at the
    first position where the depth is zero and keeps a depth of at
    least one until then; it runs to the end when there is none. *)
Lemma scan_braces_spec (s : text) :
  forall i d, (1 <= d)%Z ->
  match scan_braces s i d with
  | Some j =>
      exists k, j = i + k /\ k < length s
        /\ (d + brace_depth (firstn (S k) s) = 0)%Z
        /\ forall k', k' < k -> (1 <= d + brace_depth (firstn (S k') s))%Z
  | None =>
      forall k, k < length s -> (1 <= d + brace_depth (firstn (S k) s))%Z
  end.
Proof.
  induction s as [|c s IH]; intros i d Hd.
  - simpl. intros k Hk. lia.
  - cbn [scan_braces].
    assert (Step : forall d', (1 <= d')%Z ->
               (d' = d + (if Ascii.eqb c "{"%char then 1
                          else if Ascii.eqb c "}"%char then -1 else 0))%Z ->
               match scan_braces s (S i) d' with
               | Some j =>
                   exists k, j = i + k /\ k < length (c :: s)
                     /\ (d + brace_depth (firstn (S k) (c :: s)) = 0)%Z
                     /\ forall k', k' < k ->
                          (1 <= d + brace_depth (firstn (S k') (c :: s)))%Z
               | None =>
                   forall k, k < length (c :: s) ->
                     (1 <= d + brace_depth (firstn (S k) (c :: s)))%Z
               end).
    { intros d' Hd' Ed'. specialize (IH (S i) d' Hd').
      destruct (scan_braces s (S i) d') as [j|].
      - destruct IH as (k & -> & Hk & Hz & Hbefore).
        exists (S k). split; [lia|]. split; [simpl; lia|]. split.
        + rewrite firstn_cons, brace_depth_cons. lia.
        + intros [|k'] Hk'.
          * rewrite firstn_cons, brace_depth_cons. simpl firstn.
            simpl brace_depth. lia.
          * rewrite firstn_cons, brace_depth_cons.
            specialize (Hbefore k' ltac:(lia)). lia.
      - intros [|k] Hk.
        + rewrite firstn_cons, brace_depth_cons. simpl firstn.
          simpl brace_depth. lia.
        + rewrite firstn_cons, brace_depth_cons. simpl in Hk.
          specialize (IH k ltac:(lia)). lia. }
    destruct (Ascii.eqb c "{"%char) eqn:E1.
    + apply Ascii.eqb_eq in E1. subst c. cbn [Ascii.eqb Bool.eqb].
      apply Step; lia.
    + destruct (Ascii.eqb c "}"%char) eqn:E2.
      * destruct (d - 1 =? 0)%Z eqn:E3.
        -- exists 0. rewrite Nat.add_0_r. split; [reflexivity|].
           split; [simpl; lia|]. split.
           ++ rewrite firstn_cons, brace_depth_cons, E1, E2. simpl. lia.
           ++ intros k' Hk'. lia.
        -- apply Step; lia.
      * apply Step; lia.
Qed.

(** Where the class body ends, for a [braceStart] that holds an
    opening brace: at the first position where the depth is back to
    zero, or at the end of the text when there is none. *)
Lemma classBodyEnd_cases (source : text) (b : nat) :
  nth_error source b = Some "{"%char ->
  (b < classBodyEnd source b /\ classBodyEnd source b < length source
   /\ depth_at source b (classBodyEnd source b) = 0%Z
   /\ forall i, b <= i -> i < classBodyEnd source b ->
        (1 <= depth_at source b i)%Z)
  \/ (classBodyEnd source b = length source
      /\ forall j, b <= j -> j < length source -> (1 <= depth_at source b j)%Z).
Proof.
  intro Hb. unfold classBodyEnd, depth_at, slice.
  assert (Hlen : b < length source).
  { apply nth_error_Some. congruence. }
  assert (Hs : skipn b source = "{"%char :: skipn (S b) source).
  { assert (Hb' : nth_error (skipn b source) 0 = Some "{"%char).
    { now rewrite nth_error_skipn, Nat.add_0_r. }
    replace (S b) with (1 + b) by lia. rewrite <- skipn_skipn.
    destruct (skipn b source) as [|x s']; [discriminate|].
    simpl in Hb'. injection Hb' as ->. reflexivity. }
  rewrite Hs. cbn [scan_braces Ascii.eqb Bool.eqb]. simpl Z.add.
  pose proof (scan_braces_spec (skipn (S b) source) (S b) 1%Z ltac:(lia)) as H.
  assert (Hd : forall j, b <= j ->
             brace_depth (firstn (S j - b) ("{"%char :: skipn (S b) source))
             = match j - b with
               | 0 => 1%Z
               | S k => (1 + brace_depth (firstn (S k) (skipn (S b) source)))%Z
               end).
  { intros j Hj. replace (S j - b) with (S (j - b)) by lia.
    rewrite firstn_cons, brace_depth_cons. cbn [Ascii.eqb Bool.eqb].
    destruct (j - b) as [|k]; [simpl; lia | reflexivity]. }
  destruct (scan_braces (skipn (S b) source) (S b) 1%Z) as [j|].
  - left. destruct H as (k & -> & Hk & Hz & Hbefore).
    rewrite length_skipn in Hk.
    split; [lia|]. split; [lia|]. split.
    + rewrite Hd by lia. replace (S b + k - b) with (S k) by lia. exact Hz.
    + intros i H1 H2. rewrite Hd by assumption.
      destruct (i - b) as [|k'] eqn:Ei; [lia|].
      apply Hbefore. lia.
  - right. split; [reflexivity|]. intros j H1 H2. rewrite Hd by assumption.
    destruct (j - b) as [|k] eqn:Ej; [lia|].
    apply H. rewrite length_skipn. lia.
Qed.

(** ** The method loop *)

Lemma is_control_keyword_spec (name : text) :
  is_control_keyword name = false <-> ~ In name control_keywords.
Proof.
  unfold is_control_keyword. split.
  - intros H Hin. assert (E : existsb (text_eqb name) control_keywords = true).
    { apply existsb_exists. exists name. split; [exact Hin | apply text_eqb_refl]. }
    congruence.
  - intro H. apply not_true_is_false. intro E. apply existsb_exists in E.
    destruct E as (k & Hk & Ek). apply text_eqb_eq in Ek. now subst.
Qed.

(** The method loop keeps, in order, the matches whose name is no
    control keyword. *)
Lemma collect_methods_names (ms : list rx_match) :
  map method_name (collect_methods ms)
  = filter (fun n => negb (is_control_keyword n)) (map (group_text 1) ms).
Proof.
  induction ms as [|m ms IH]; [reflexivity|].
  cbn [collect_methods map filter].
  destruct (is_control_keyword (group_text 1 m)); simpl; [exact IH|].
  now rewrite IH.
Qed.

Lemma collect_methods_no_keyword (ms : list rx_match) :
  Forall (fun m => ~ In (method_name m) control_keywords) (collect_methods ms).
Proof.
  induction ms as [|m ms IH]; [constructor|].
  cbn [collect_methods].
  destruct (is_control_keyword (group_text 1 m)) eqn:E; [exact IH|].
  constructor; [|exact IH]. simpl. now apply is_control_keyword_spec.
Qed.

(** ** The Python function pass *)

Lemma filter_collect_py_functions (ms : list rx_match) :
  filter is_function (collect_py_functions ms) = collect_py_functions ms.
Proof.
  induction ms as [|m ms IH]; [reflexivity|]. cbn [collect_py_functions].
  destruct (startsWith (txt "_") (group_text 1 m)); [exact IH|].
  cbn [filter is_function]. now rewrite IH.
Qed.

Lemma filter_py_classes (ms : list rx_match) :
  filter is_function (map py_class ms) = [].
Proof. induction ms as [|m ms IH]; [reflexivity | exact IH]. Qed.

Lemma python_function_symbols (source : text) :
  filter is_function (extractPythonExports source)
  = collect_py_functions (exec_all pyFuncRegex source).
Proof.
  unfold extractPythonExports.
  now rewrite filter_app, filter_collect_py_functions, filter_py_classes, app_nil_r.
Qed.

Lemma collect_py_functions_Forall (Q : export_symbol -> Prop)
  (R : rx_match -> Prop) (ms : list rx_match) :
  (forall m, R m -> startsWith (txt "_") (group_text 1 m) = false ->
     Q (FunctionSymbol (group_text 1 m)
          (call_signature (group_text 1 m) (group_text 2 m))
          (startsWith (txt "async") (trim (matched m))) false)) ->
  Forall R ms -> Forall Q (collect_py_functions ms).
Proof.
  intros H F. induction F as [|m ms Hm F IH]; [constructor|].
  cbn [collect_py_functions].
  destruct (startsWith (txt "_") (group_text 1 m)) eqn:E; [exact IH|].
  constructor; [now apply H | exact IH].
Qed.

(** A match of the Python [funcRegex] is a definition at the start of
    a line, named by its first group. *)
Lemma py_function_match (source : text) (j : nat) (m : rx_match) :
  j <= length source -> attempt pyFuncRegex source j = Some m ->
  line_start source (index m)
  /\ py_def_text (slice (index m) (lastIndex m) source)
                 (group_text 1 m) (group_text 2 m).
Proof.
  intros Hj H.
  destruct (attempt_reads _ _ _ _ (eq_refl : groups_outside_star pyFuncRegex = true) H)
    as (Hi & Ht & R).
  apply reads_pyFuncRegex in R. destruct R as (name & params & Hg & Hform).
  split.
  - rewrite Hi. unfold pyFuncRegex in H. cbn [seqs] in H.
    eapply attempt_line_start; eassumption.
  - unfold group_text. rewrite Hg. simpl. rewrite Hi, <- Ht. exact Hform.
Qed.

(** ** The import passes *)



(* ================================================================== *)
(** * The framework locator                                            *)
(* ================================================================== *)

Section LocatorFacts.
Context {P : PathApi} {J : JsonApi}.
Variable fs : FileSystem.

(** A computation of the locator never throws: its outcome is its
    value. *)
Lemma value_run {A} (m : IO A) (a : A) (tr : list fs_op) :
  fst (m tr) = Returned a -> exists tr', m tr = (Returned a, tr').
Proof. destruct (m tr) as [o tr']. simpl. intros ->. now exists tr'. Qed.

Lemma manifest_step_value (d : text) (tr : list fs_op) :
  fst (manifest_step fs d tr) = Returned (manifest_signal fs d).
Proof.
  unfold manifest_step, manifest_signal, try_catch, bind, readFile, or_throw,
    ret, throw.
  destruct (fs_readFile fs _) as [content|]; [|reflexivity].
  destruct (JSON_parse content) as [pkg|]; [|reflexivity].
  destruct pkg; reflexivity.
Qed.

Lemma pyproject_step_value (d : text) (tr : list fs_op) :
  fst (pyproject_step fs d tr) = Returned (pyproject_signal fs d).
Proof.
  unfold pyproject_step, pyproject_signal, try_catch, bind, readFile, ret.
  destruct (fs_readFile fs _) as [content|]; reflexivity.
Qed.

Lemma any_config_value (d : text) (files : list text) :
  forall tr, fst (any_config fs d files tr) = Returned (config_exists fs d files).
Proof.
  induction files as [|f files IH]; intro tr; [reflexivity|].
  simpl. unfold bind, try_catch, access, ret.
  destruct (fs_access fs (join d f)); simpl; [reflexivity | apply IH].
Qed.

Lemma config_step_value (d : text) (entries : list (framework * list text)) :
  forall tr, fst (config_step fs d entries tr) = Returned (config_signal fs d entries).
Proof.
  induction entries as [|[fw files] entries IH]; intro tr; [reflexivity|].
  simpl. unfold bind.
  destruct (value_run _ _ tr (any_config_value d files tr)) as (tr' & ->).
  destruct (config_exists fs d files); [reflexivity | apply IH].
Qed.

Lemma any_config_trace (d : text) (files : list text) :
  forall tr, snd (any_config fs d files tr) = tr ++ map OpAccess (probed fs d files).
Proof.
  induction files as [|f files IH]; intro tr; simpl; [now rewrite app_nil_r|].
  unfold bind, try_catch, access, ret.
  destruct (fs_access fs (join d f)); simpl.
  - reflexivity.
  - rewrite IH, <- app_assoc. reflexivity.
Qed.

Lemma probed_app (d : text) (files1 files2 : list text) :
  probed fs d (files1 ++ files2)
  = probed fs d files1
    ++ (if config_exists fs d files1 then [] else probed fs d files2).
Proof.
  induction files1 as [|f files1 IH]; simpl; [reflexivity|].
  destruct (fs_access fs (join d f)); simpl; [reflexivity|]. now rewrite IH.
Qed.

(** The config check probes the files of the entries in their order
    and stops at the first accessible one. *)
Lemma config_step_trace (d : text) (entries : list (framework * list text)) :
  forall tr,
  snd (config_step fs d entries tr)
  = tr ++ map OpAccess (probed fs d (flat_map snd entries)).
Proof.
  induction entries as [|[fw files] entries IH]; intro tr; simpl;
    [now rewrite app_nil_r|].
  unfold bind.
  pose proof (any_config_value d files tr) as V.
  pose proof (any_config_trace d files tr) as T.
  destruct (any_config fs d files tr) as [o tr1]. simpl in V, T. subst o tr1.
  rewrite probed_app.
  destruct (config_exists fs d files); simpl.
  - now rewrite app_nil_r.
  - rewrite IH, map_app, app_assoc. reflexivity.
Qed.

Lemma search_dir_value (d : text) (tr : list fs_op) :
  fst (search_dir fs d tr) = Returned (dir_signal fs d).
Proof.
  unfold search_dir, dir_signal, bind.
  destruct (value_run _ _ tr (manifest_step_value d tr)) as (tr1 & ->).
  destruct (manifest_signal fs d); [reflexivity|].
  destruct (value_run _ _ tr1 (pyproject_step_value d tr1)) as (tr2 & ->).
  destruct (pyproject_signal fs d); [reflexivity|].
  apply config_step_value.
Qed.

Lemma search_dirs_value (dirs : list text) :
  forall tr, fst (search_dirs fs dirs tr) = Returned (first_signal fs dirs).
Proof.
  induction dirs as [|d dirs IH]; intro tr; [reflexivity|].
  simpl. unfold bind.
  destruct (value_run _ _ tr (search_dir_value d tr)) as (tr1 & ->).
  destruct (dir_signal fs d); [reflexivity | apply IH].
Qed.

(** [detectFramework] returns, never throws, and its value is the
    first signal along the search list. *)
Lemma detectFramework_value (filePath : text) (tr : list fs_op) :
  fst (detectFramework fs filePath tr)
  = Returned (first_signal fs (searchDirs filePath)).
Proof. apply search_dirs_value. Qed.

Lemma walk_up_length (n : nat) :
  forall current, length (walk_up n current) <= n.
Proof.
  induction n as [|n IH]; intro current; simpl; [lia|].
  destruct (text_eqb (dirname current) current); simpl; [lia|].
  specialize (IH (dirname current)). lia.
Qed.

(** Along [current :: walk_up n current] each directory is the parent
    of the one before and differs from it. *)
Lemma walk_up_chain (n : nat) :
  forall current i d e,
  nth_error (current :: walk_up n current) i = Some d ->
  nth_error (current :: walk_up n current) (S i) = Some e ->
  e = dirname d /\ e <> d.
Proof.
  induction n as [|n IH]; intros current i d e Hd He.
  - simpl in He. destruct i; discriminate.
  - simpl in Hd, He.
    destruct (text_eqb (dirname current) current) eqn:E.
    + destruct i; discriminate.
    + destruct i as [|i].
      * simpl in *. injection Hd as <-. injection He as <-.
        split; [reflexivity|]. intro H. apply text_eqb_eq in H. congruence.
      * apply (IH (dirname current) i); assumption.
Qed.

Lemma last_nonempty {A} (l : list A) (a d d' : A) :
  last (a :: l) d = last (a :: l) d'.
Proof.
  revert a. induction l as [|b l IH]; intro a; [reflexivity|].
  change (last (b :: l) d = last (b :: l) d'). apply IH.
Qed.

(** The walk stops before its bound only at a directory that is its
    own parent. *)
Lemma walk_up_stop (n : nat) :
  forall current,
  length (walk_up n current) < n ->
  dirname (last (walk_up n current) current)
  = last (walk_up n current) current.
Proof.
  induction n as [|n IH]; intros current H; [simpl in H; lia|].
  cbn [walk_up] in *.
  destruct (text_eqb (dirname current) current) eqn:E.
  - simpl. now apply text_eqb_eq.
  - cbn [length] in H. specialize (IH (dirname current) ltac:(lia)).
    destruct (walk_up n (dirname current)) as [|x w].
    + exact IH.
    + change (last (dirname current :: x :: w) current)
        with (last (x :: w) current).
      now rewrite (last_nonempty w x current (dirname current)).
Qed.

Lemma config_signal_none (d : text) (entries : list (framework * list text)) :
  (forall fw files f, In (fw, files) entries -> In f files ->
     fs_access fs (join d f) = false) ->
  config_signal fs d entries = None.
Proof.
  induction entries as [|[fw files] entries IH]; intro H; [reflexivity|].
  simpl. replace (config_exists fs d files) with false.
  - apply IH. intros fw' files' f Hin. apply (H fw' files' f). now right.
  - symmetry. unfold config_exists. apply not_true_is_false. intro E.
    apply existsb_exists in E. destruct E as (f & Hf & Ha).
    rewrite (H fw files f) in Ha; [discriminate | now left | assumption].
Qed.

Lemma dir_signal_none (d : text) :
  yields_nothing fs d -> dir_signal fs d = None.
Proof.
  intros (H1 & H2 & H3). unfold dir_signal.
  now rewrite H1, H2, (config_signal_none d _ H3).
Qed.

(** The directories that yield nothing are passed over. *)
Lemma first_signal_skip (before rest0 : list text) :
  (forall d, In d before -> yields_nothing fs d) ->
  first_signal fs (before ++ rest0) = first_signal fs rest0.
Proof.
  induction before as [|d before IH]; intro H; [reflexivity|].
  simpl. rewrite (dir_signal_none d (H d (or_introl eq_refl))). simpl.
  apply IH. intros d' Hd'. apply H. now right.
Qed.

Lemma first_signal_none (dirs : list text) :
  (forall d, In d dirs -> yields_nothing fs d) -> first_signal fs dirs = None.
Proof.
  intro H. rewrite <- (app_nil_r dirs). now rewrite first_signal_skip.
Qed.

End LocatorFacts.

(** ** The manifest: merged sections *)

Lemma has_key_app {A} (k : text) (l1 l2 : list (text * A)) :
  has_key k (l1 ++ l2) = has_key k l1 || has_key k l2.
Proof.
  induction l1 as [|[k' v] l1 IH]; simpl; [reflexivity|].
  now rewrite IH, orb_assoc.
Qed.

Lemma has_key_replace {A} (k k' : text) (v : A) (props : list (text * A)) :
  has_key k (replace_prop k' v props) = has_key k props.
Proof.
  induction props as [|[k0 v0] props IH]; simpl; [reflexivity|].
  destruct (text_eqb k0 k'); simpl; [reflexivity | now rewrite IH].
Qed.

Lemma has_key_insert {A} (k k' : text) (n : N) (v : A) (props : list (text * A)) :
  has_key k (insert_index n k' v props) = text_eqb k' k || has_key k props.
Proof.
  induction props as [|[k0 v0] props IH]; simpl; [reflexivity|].
  destruct (array_index k0) as [n'|]; [|reflexivity].
  destruct (n' <? n)%N; [|reflexivity].
  simpl. rewrite IH.
  destruct (text_eqb k0 k), (text_eqb k' k); reflexivity.
Qed.

(** Defining a property keeps every key and adds its own. *)
Lemma has_key_set_prop {A} (k : text) (props : list (text * A)) (kv : text * A) :
  has_key k (set_prop props kv) = text_eqb (fst kv) k || has_key k props.
Proof.
  destruct kv as [k' v]. unfold set_prop. simpl.
  destruct (has_key k' props) eqn:E.
  - rewrite has_key_replace.
    destruct (text_eqb k' k) eqn:Ek; [|reflexivity].
    apply text_eqb_eq in Ek. subst. now rewrite E.
  - destruct (array_index k') as [n|].
    + apply has_key_insert.
    + rewrite has_key_app. simpl. rewrite orb_false_r. apply orb_comm.
Qed.

Lemma has_key_fold {A} (k : text) (l : list (text * A)) :
  forall obj, has_key k (fold_left set_prop l obj) = has_key k l || has_key k obj.
Proof.
  induction l as [|[k' v] l IH]; intro obj; [reflexivity|].
  cbn [fold_left]. rewrite IH, has_key_set_prop. simpl.
  destruct (text_eqb k' k), (has_key k l), (has_key k obj); reflexivity.
Qed.

(** The merged object has the keys of all its sources. *)
Lemma has_key_spread (k : text) (sources : list json) :
  has_key k (spread sources)
  = existsb (fun src => has_key k (own_props src)) sources.
Proof.
  unfold spread.
  assert (G : forall obj,
             has_key k (fold_left (fun o src => fold_left set_prop (own_props src) o)
                          sources obj)
             = existsb (fun src => has_key k (own_props src)) sources
               || has_key k obj).
  { induction sources as [|src sources IH]; intro obj; simpl; [reflexivity|].
    rewrite IH, has_key_fold.
    destruct (has_key k (own_props src)), (has_key k obj),
      (existsb (fun src0 => has_key k (own_props src0)) sources); reflexivity. }
  rewrite G. simpl. apply orb_false_r.
Qed.

(** [JSON.stringify] of an object prints each of its keys, quoted. *)
Lemma stringify_has_key (k : text) (props : list (text * json)) :
  has_key k props = true ->
  includes (quote_json k) (JSON_stringify (JObject props)) = true.
Proof.
  intro H. cbn [JSON_stringify]. apply includes_app_r, includes_app_l.
  induction props as [|[k' v] props IH]; [discriminate|].
  simpl in H. cbn [map].
  assert (Hd : forall rest0 : list text,
             text_eqb k' k = true ->
             includes (quote_json k)
               (join_with (txt ",")
                  ((quote_json k' ++ txt ":" ++ JSON_stringify v) :: rest0)) = true).
  { intros rest0 E. apply text_eqb_eq in E. subst k'.
    destruct rest0 as [|r rest0]; cbn [join_with].
    - rewrite <- (app_nil_l (quote_json k ++ _)). apply includes_intro.
    - rewrite <- app_assoc.
      rewrite <- (app_nil_l (quote_json k ++ _)). apply includes_intro. }
  destruct (text_eqb k' k) eqn:E; [now apply Hd|].
  simpl in H. specialize (IH H).
  destruct props as [|p0 props]; [discriminate|].
  cbn [join_with map] in *. destruct p0 as [k0 v0].
  apply includes_app_r, includes_app_r. exact IH.
Qed.

Lemma lookup_app {A} (k : text) (l1 l2 : list (text * A)) :
  lookup k (l1 ++ l2) = or_else (lookup k l1) (lookup k l2).
Proof.
  induction l1 as [|[k' v] l1 IH]; simpl; [reflexivity|].
  destruct (text_eqb k' k); [reflexivity | exact IH].
Qed.

Lemma lookup_has_key {A} (k : text) (l : list (text * A)) :
  has_key k l = false -> lookup k l = None.
Proof.
  induction l as [|[k' v] l IH]; simpl; [reflexivity|].
  destruct (text_eqb k' k); simpl; [discriminate | exact IH].
Qed.

Lemma lookup_replace {A} (k k' : text) (v : A) (props : list (text * A)) :
  has_key k' props = true ->
  lookup k (replace_prop k' v props)
  = if text_eqb k' k then Some v else lookup k props.
Proof.
  induction props as [|[k0 v0] props IH]; simpl; [discriminate|].
  destruct (text_eqb k0 k') eqn:E0; simpl.
  - intros _. apply text_eqb_eq in E0. subst k0.
    destruct (text_eqb k' k); reflexivity.
  - intro H. rewrite (IH H).
    destruct (text_eqb k0 k) eqn:E1; [|reflexivity].
    destruct (text_eqb k' k) eqn:E2; [|reflexivity].
    apply text_eqb_eq in E1, E2. subst. now rewrite text_eqb_refl in E0.
Qed.

Lemma lookup_insert {A} (k k' : text) (n : N) (v : A) (props : list (text * A)) :
  has_key k' props = false ->
  lookup k (insert_index n k' v props)
  = if text_eqb k' k then Some v else lookup k props.
Proof.
  induction props as [|[k0 v0] props IH]; simpl; [reflexivity|].
  destruct (text_eqb k0 k') eqn:E0; simpl; [discriminate|]. intro H.
  destruct (array_index k0) as [n'|]; [|reflexivity].
  destruct (n' <? n)%N; [|reflexivity].
  simpl. rewrite (IH H).
  destruct (text_eqb k0 k) eqn:E1; [|reflexivity].
  destruct (text_eqb k' k) eqn:E2; [|reflexivity].
  apply text_eqb_eq in E1, E2. subst. now rewrite text_eqb_refl in E0.
Qed.

(** Reading a property after defining one: the value just defined
    under its key, the former value under any other. *)
Lemma lookup_set_prop {A} (k : text) (props : list (text * A)) (kv : text * A) :
  lookup k (set_prop props kv)
  = if text_eqb (fst kv) k then Some (snd kv) else lookup k props.
Proof.
  destruct kv as [k' v]. unfold set_prop. simpl.
  destruct (has_key k' props) eqn:E; [now apply lookup_replace|].
  destruct (array_index k') as [n|]; [now apply lookup_insert|].
  rewrite lookup_app. simpl.
  destruct (text_eqb k' k) eqn:Ek.
  - apply text_eqb_eq in Ek. subst. now rewrite (lookup_has_key _ _ E).
  - destruct (lookup k props); reflexivity.
Qed.

(** After a run of definitions the last one of a key decides. *)
Lemma lookup_fold {A} (k : text) (l : list (text * A)) :
  forall obj,
  lookup k (fold_left set_prop l obj) = or_else (lookup k (rev l)) (lookup k obj).
Proof.
  induction l as [|[k' v] l IH]; intro obj; [reflexivity|].
  cbn [fold_left rev]. rewrite IH, lookup_set_prop, lookup_app. simpl.
  destruct (lookup k (rev l)); [reflexivity|]. simpl.
  destruct (text_eqb k' k); reflexivity.
Qed.

(** In [{ ...a, ...b, ...c }] a key has the value of the last source
    that has it. *)
Lemma lookup_spread3 (k : text) (a b c : json) :
  lookup k (spread [a; b; c])
  = or_else (lookup k (rev (own_props c)))
      (or_else (lookup k (rev (own_props b))) (lookup k (rev (own_props a)))).
Proof.
  unfold spread. cbn [fold_left]. rewrite !lookup_fold. simpl.
  destruct (lookup k (rev (own_props c))); [reflexivity|].
  destruct (lookup k (rev (own_props b))); [reflexivity|].
  destruct (lookup k (rev (own_props a))); reflexivity.
Qed.

(** A key of the merged sections shows in [depsStr] when it prints as
    itself in lower case. *)
Lemma deps_str_key (k word : text) (pkg : json) (props : list (text * json)) :
  get_prop (txt "devDependencies") pkg = Some (JObject props) ->
  has_key k props = true ->
  includes word (toLowerCase (quote_json k)) = true ->
  includes word (depsStr pkg) = true.
Proof.
  intros Hdev Hk Hw. unfold depsStr, allDeps.
  apply (includes_trans _ _ _ Hw), includes_lower, stringify_has_key.
  rewrite has_key_spread. cbn [existsb].
  unfold manifest_section at 2. rewrite Hdev. cbn [js_truthy own_props].
  rewrite Hk. apply orb_true_r.
Qed.

Lemma lookup_in {A} (k : text) (l : list (text * A)) (v : A) :
  lookup k l = Some v -> In (k, v) l.
Proof.
  induction l as [|[k' v'] l IH]; simpl; [discriminate|].
  destruct (text_eqb k' k) eqn:E.
  - intro H. injection H as <-. apply text_eqb_eq in E. subst. now left.
  - intro H. right. now apply IH.
Qed.

Lemma lookup_not_in {A} (k : text) (l : list (text * A)) :
  ~ In k (map fst l) -> lookup k l = None.
Proof.
  induction l as [|[k' v'] l IH]; simpl; [reflexivity|]. intro H.
  destruct (text_eqb k' k) eqn:E.
  - apply text_eqb_eq in E. subst. destruct H. now left.
  - apply IH. intro H'. apply H. now right.
Qed.

(** ** The merged object has each key once *)

Lemma has_key_in {A} (k : text) (l : list (text * A)) :
  has_key k l = true <-> In k (map fst l).
Proof.
  induction l as [|[k' v] l IH]; simpl; [split; [discriminate | intros []]|].
  rewrite orb_true_iff, IH. split.
  - intros [E | H]; [left; now apply text_eqb_eq | now right].
  - intros [-> | H]; [left; apply text_eqb_refl | now right].
Qed.

Lemma keys_replace {A} (k : text) (v : A) (l : list (text * A)) :
  map fst (replace_prop k v l) = map fst l.
Proof.
  induction l as [|[k' v'] l IH]; [reflexivity|]. cbn [replace_prop].
  destruct (text_eqb k' k); cbn [map fst]; [reflexivity | now rewrite IH].
Qed.

Lemma keys_insert {A} (n : N) (k : text) (v : A) (l : list (text * A))
      (x : text) :
  In x (map fst (insert_index n k v l)) <-> x = k \/ In x (map fst l).
Proof.
  induction l as [|[k' v'] l IH]; cbn [insert_index].
  - simpl. intuition.
  - destruct (array_index k') as [n'|].
    + destruct (n' <? n)%N.
      * cbn [map fst In]. rewrite IH. intuition.
      * cbn [map fst In]. intuition.
    + cbn [map fst In]. intuition.
Qed.

Lemma NoDup_insert {A} (n : N) (k : text) (v : A) (l : list (text * A)) :
  ~ In k (map fst l) -> NoDup (map fst l) ->
  NoDup (map fst (insert_index n k v l)).
Proof.
  induction l as [|[k' v'] l IH]; intros Hk Hn; cbn [insert_index].
  - repeat constructor. intros [].
  - assert (C : NoDup (map fst ((k, v) :: (k', v') :: l))).
    { cbn [map fst]. constructor; assumption. }
    destruct (array_index k') as [n'|]; [|exact C].
    destruct (n' <? n)%N; [|exact C].
    cbn [map fst] in *. apply NoDup_cons_iff in Hn. destruct Hn as (Hk' & Hn).
    constructor.
    + rewrite keys_insert. intros [-> | H]; [apply Hk; now left | now apply Hk'].
    + apply IH; [|exact Hn]. intro H. apply Hk. now right.
Qed.

(** Defining a property keeps each key once. *)
Lemma NoDup_set_prop {A} (l : list (text * A)) (kv : text * A) :
  NoDup (map fst l) -> NoDup (map fst (set_prop l kv)).
Proof.
  destruct kv as [k v]. intro Hn. unfold set_prop.
  destruct (has_key k l) eqn:E.
  - now rewrite keys_replace.
  - assert (Hk : ~ In k (map fst l)).
    { intro H. apply has_key_in in H. congruence. }
    destruct (array_index k) as [n|].
    + now apply NoDup_insert.
    + rewrite map_app. cbn [map fst]. apply NoDup_app.
      * exact Hn.
      * repeat constructor. intros [].
      * intros x Hx [<- | []]. now apply Hk.
Qed.

Lemma NoDup_fold_set_prop {A} (src : list (text * A)) :
  forall obj, NoDup (map fst obj) ->
  NoDup (map fst (fold_left set_prop src obj)).
Proof.
  induction src as [|kv src IH]; intros obj H; [exact H|].
  cbn [fold_left]. apply IH. now apply NoDup_set_prop.
Qed.

(** [{ ...a, ...b, ... }] has each key once, whatever its sources. *)
Lemma NoDup_spread (sources : list json) : NoDup (map fst (spread sources)).
Proof.
  unfold spread.
  assert (G : forall obj, NoDup (map fst obj) ->
              NoDup (map fst (fold_left
                       (fun o src => fold_left set_prop (own_props src) o)
                       sources obj))).
  { induction sources as [|src sources IH]; intros obj H; [exact H|].
    cbn [fold_left]. apply IH. now apply NoDup_fold_set_prop. }
  apply G. constructor.
Qed.

(** In an object that has each key once a binding is what [lookup]
    finds. *)
Lemma lookup_unique {A} (k : text) (v : A) (l : list (text * A)) :
  NoDup (map fst l) -> In (k, v) l -> lookup k l = Some v.
Proof.
  induction l as [|[k' v'] l IH]; intros Hn Hin; [destruct Hin|].
  cbn [map fst] in Hn. apply NoDup_cons_iff in Hn. destruct Hn as (Hk & Hn).
  cbn [lookup]. destruct Hin as [E | Hin].
  - injection E as -> ->. now rewrite text_eqb_refl.
  - destruct (text_eqb k' k) eqn:E; [|now apply IH].
    apply text_eqb_eq in E. subst k'. destruct Hk.
    apply (in_map fst) in Hin. exact Hin.
Qed.

(** ** The greedy end of a Python reference *)





(* ================================================================== *)
(** * Worked examples                                                  *)
(* ================================================================== *)

(** An anonymous default export takes the name [default]. *)
Example default_export_anonymous :
  extractJSExports (txt "export default function (q) {}")
  = [FunctionSymbol (txt "default") (txt "default(q)") false true].
Proof. vm_compute. reflexivity. Qed.

(** An arrow export; its parameters are trimmed in the signature. *)
Example arrow_export_async :
  extractJSExports (txt "export const f = async ( x ) => 1")
  = [FunctionSymbol (txt "f") (txt "f(x)") true false].
Proof. vm_compute. reflexivity. Qed.

(** The window looks for the letters, not for the keyword. *)
Example async_window_reads_names :
  extractJSExports (txt "export function asyncTask() {}")
  = [FunctionSymbol (txt "asyncTask") (txt "asyncTask()") true false].
Proof. vm_compute. reflexivity. Qed.

(** The five control keywords are all passed over, at any depth. *)
Example control_statements_skipped :
  extractJSExports
    (txt "export default class A extends B { run(x) { for (;;) { while (x) { switch (x) { } } } try { } catch (e) { } if (x) { } } get v(): number { return 1 } }")
  = [ ClassSymbol (txt "A") (Some (txt "B"))
        [Method (txt "run") (txt "run(x)"); Method (txt "v") (txt "v()")]
        (txt "class A extends B") ].
Proof. vm_compute. reflexivity. Qed.

(** Python classes come after the functions, without methods; empty
    parentheses give no base. *)
Example python_functions_and_classes :
  extractPythonExports
    (join_with [LF] [ txt "class A(B):"; txt "async def go(a, b): pass";
                      txt "class C():"; txt "def __init__(self): pass" ])
  = [ FunctionSymbol (txt "go") (txt "go(a, b)") true false;
      ClassSymbol (txt "A") (Some (txt "B")) [] (txt "class A(B)");
      ClassSymbol (txt "C") None [] (txt "class C") ].
Proof. vm_compute. reflexivity. Qed.

(** A Python reference is the run of non-blank characters that follows
    the keyword, whatever it holds. *)
Example python_import_run :
  extractPythonImports
    (join_with [LF] [txt "import os, sys"; txt "from . import x";
                     txt "import a.b as c"])
  = [txt "os,"; txt "."; txt "a.b"].
Proof. vm_compute. reflexivity. Qed.

(** Forms the JavaScript pattern does not match give no reference. *)
Example js_import_unmatched :
  extractJSImports
    (join_with [LF] [txt "import type { X } from 'x'";
                     txt "import a, * as b from 'y'"])
  = [].
Proof. vm_compute. reflexivity. Qed.

(** The scenario of a manifest one directory up: mocha is found there,
    after the directory of the file has been probed in full. *)
Example manifest_in_parent :
  let manifest := json_text "{'devDependencies':{'mocha':'^10'}}" in
  let parsed :=
    JObject [(txt "devDependencies", JObject [(txt "mocha", JString (txt "^10"))])] in
  fst (run (@detectFramework posix (json_table [(manifest, parsed)])
              (fs_of_files [(txt "proj/package.json", manifest)])
              (txt "proj/src/app.js")))
  = Returned (Some mocha).
Proof. vm_compute. reflexivity. Qed.

(* ================================================================== *)
(** * The claims                                                       *)
(* ================================================================== *)

(** C1. On [export function add(a, b) {}] the extractor returns one
    function symbol, named [add], not async, of signature [add(a, b)];
    on [export async function fetchUser(id) {}] the function symbol is
    async.  The symbols of the first pass come first, and the flag of
    such a symbol says whether [async] occurs within the 25 code units
    that start at the match. *)
Theorem C1_named_function_export :
  extractJSExports (txt "export function add(a, b) {}")
  = [FunctionSymbol (txt "add") (txt "add(a, b)") false false]
  /\ extractJSExports (txt "export async function fetchUser(id) {}")
     = [FunctionSymbol (txt "fetchUser") (txt "fetchUser(id)") true false]
  /\ (forall source, exists others,
        extractJSExports source
        = map (named_function source) (exec_all namedFuncRegex source) ++ others)
  /\ (forall source m,
        symbol_async (named_function source m) = true <->
        exists q, index m <= q /\ q + 5 <= index m + 25
                  /\ slice q (q + 5) source = txt "async").
Proof.
  split; [vm_compute; reflexivity|]. split; [vm_compute; reflexivity|]. split.
  - intro source. eexists. reflexivity.
  - intros source m. cbn [symbol_async named_function]. unfold async_in_window.
    apply (includes_window (txt "async") source (index m) 25). discriminate.
Qed.

(** C2. When no opening brace stands at or after the offset the
    scanner returns no method.  Otherwise, [b] being the first such
    brace, the methods are those of the text between [b + 1] and the
    end of the body, and that end is the first position from [b] on
    where the depth (+1 for each opening brace, -1 for each closing
    one) is zero, or the end of the source when the depth is zero
    nowhere.  Nothing in the scanner can throw: it is a total function,
    the loop over the matches takes the rounds of the loop equation,
    and the two groups its body reads are defined in every match.  The
    analysis of a readable file of a recognized language returns,
    whatever its braces; for [unclosed_source] the body is the rest of
    the file and the method is found. *)
Theorem C2_brace_scan :
  (forall source classStart,
      (forall i, classStart <= i -> nth_error source i <> Some "{"%char) ->
      extractClassMethods source classStart = [])
  /\ (forall source classStart b,
        classStart <= b -> nth_error source b = Some "{"%char ->
        (forall i, classStart <= i -> i < b ->
                   nth_error source i <> Some "{"%char) ->
        extractClassMethods source classStart
        = collect_methods
            (exec_all methodRegex
               (slice (b + 1) (classBodyEnd source b) source))
        /\ (forall j, b <= j -> j < length source ->
              depth_at source b j = 0%Z ->
              (forall i, b <= i -> i < j -> depth_at source b i <> 0%Z) ->
              classBodyEnd source b = j)
        /\ ((forall j, b <= j -> j < length source ->
               depth_at source b j <> 0%Z) ->
            classBodyEnd source b = length source))
  /\ (forall body i,
        exec_loop methodRegex body (S (length body)) i
        = match exec methodRegex body i with
          | Some m => m :: exec_loop methodRegex body (S (length body)) (lastIndex m)
          | None => []
          end)
  /\ (forall body,
        Forall (fun m => (exists name, group 1 (groups m) = Some name)
                         /\ (exists params, group 2 (groups m) = Some params))
               (exec_all methodRegex body))
  /\ (forall (P : PathApi) (J : JsonApi) (fs : FileSystem) filePath lang
             source tr,
        detectLanguage filePath = Some lang ->
        fs_readFile fs filePath = Some source ->
        exists analysis tr',
          analyzeFile fs filePath tr = (Returned analysis, tr')
          /\ fa_source analysis = source)
  /\ classBodyEnd unclosed_source 15 = length unclosed_source
  /\ extractClassMethods unclosed_source 0 = [Method (txt "m") (txt "m()")].
Proof.
  split; [|split; [|split; [|split; [|split; [|split]]]]].
  - intros source classStart H. unfold extractClassMethods.
    now rewrite (indexOf_complete _ _ _ H).
  - intros source classStart b H1 H2 H3. unfold extractClassMethods.
    rewrite (indexOf_first _ _ _ _ H1 H2 H3). split; [reflexivity|].
    destruct (classBodyEnd_cases source b H2)
      as [(A1 & A2 & A3 & A4) | (A1 & A2)]; split.
    + intros j J1 J2 J3 J4.
      destruct (Nat.lt_trichotomy j (classBodyEnd source b)) as [L | [E | L]].
      * specialize (A4 j J1 L). lia.
      * now symmetry.
      * now destruct (J4 (classBodyEnd source b) ltac:(lia) L).
    + intro H. now destruct (H (classBodyEnd source b) ltac:(lia) A2).
    + intros j J1 J2 J3 _. specialize (A2 j J1 J2). lia.
    + intros _. exact A1.
  - intros body i. apply exec_loop_unfold. reflexivity.
  - intro body.
    pose proof (exec_all_group_defined 1 methodRegex body eq_refl eq_refl) as G1.
    pose proof (exec_all_group_defined 2 methodRegex body eq_refl eq_refl) as G2.
    rewrite Forall_forall in *. intros m Hm. split; auto.
  - intros P J fs filePath lang source tr HL HR. unfold analyzeFile.
    rewrite HL. unfold bind at 1. unfold readFile at 1. rewrite HR.
    unfold bind.
    destruct (value_run _ _ (tr ++ [OpReadFile filePath])
                (detectFramework_value fs filePath (tr ++ [OpReadFile filePath])))
      as (tr' & ->).
    eexists. eexists. split; reflexivity.
  - vm_compute. reflexivity.
  - vm_compute. reflexivity.
Qed.

(** Instances: a class with no brace at all, and [unclosed_source] in a
    project of its own. *)
Lemma C2_witness :
  (forall i, 0 <= i -> nth_error (txt "export class A") i <> Some "{"%char)
  /\ extractClassMethods (txt "export class A") 0 = []
  /\ extractClassMethods unclosed_source 0
     = collect_methods
         (exec_all methodRegex
            (slice (15 + 1) (classBodyEnd unclosed_source 15) unclosed_source))
  /\ exists analysis tr',
       @analyzeFile posix no_json unclosed_fs (txt "src/b.js") []
       = (Returned analysis, tr')
       /\ fa_source analysis = unclosed_source.
Proof.
  assert (H : forall i, 0 <= i ->
                nth_error (txt "export class A") i <> Some "{"%char).
  { intros i _. do 15 (destruct i as [|i]; [discriminate|]).
    destruct i; discriminate. }
  split; [exact H|]. split.
  - apply (proj1 C2_brace_scan (txt "export class A") 0 H).
  - split.
    + apply (proj1 (proj2 C2_brace_scan) unclosed_source 0 15).
      * lia.
      * reflexivity.
      * intros i _ Hi. do 15 (destruct i as [|i]; [discriminate|]). lia.
    + apply (proj1 (proj2 (proj2 (proj2 (proj2 C2_brace_scan))))
               posix no_json unclosed_fs (txt "src/b.js") javascript
               unclosed_source []); reflexivity.
Defined.

(** C3. No method the scanner returns is named [if], [for], [while],
    [switch] or [catch]: the names returned are, in order, the names
    matched that are none of these.  In [calc_source] the pattern
    matches the three methods and the [if] of the first one, and the
    class symbol has exactly the three methods. *)
Theorem C3_control_keywords_rejected :
  (forall source classStart,
      Forall (fun m => ~ In (method_name m)
                         [txt "if"; txt "for"; txt "while"; txt "switch";
                          txt "catch"])
             (extractClassMethods source classStart))
  /\ (forall source classStart,
        exists ms,
          map method_name (extractClassMethods source classStart)
          = filter (fun n => negb (is_control_keyword n))
                   (map (group_text 1) ms))
  /\ map (group_text 1) (exec_all methodRegex (classBody calc_source 31))
     = [txt "add"; txt "if"; txt "load"; txt "create"]
  /\ extractClassMethods calc_source 0
     = [ Method (txt "add") (txt "add(a, b)");
         Method (txt "load") (txt "load(id)");
         Method (txt "create") (txt "create()") ]
  /\ extractJSExports calc_source
     = [ ClassSymbol (txt "Calc") (Some (txt "Base"))
           [ Method (txt "add") (txt "add(a, b)");
             Method (txt "load") (txt "load(id)");
             Method (txt "create") (txt "create()") ]
           (txt "class Calc extends Base") ].
Proof.
  split; [|split; [|split; [|split]]].
  - intros source classStart. unfold extractClassMethods.
    destruct (indexOf "{"%char classStart source); [|constructor].
    apply collect_methods_no_keyword.
  - intros source classStart. unfold extractClassMethods.
    destruct (indexOf "{"%char classStart source) as [b|].
    + eexists. apply collect_methods_names.
    + exists []. reflexivity.
  - vm_compute. reflexivity.
  - vm_compute. reflexivity.
  - vm_compute. reflexivity.
Qed.

Section ManifestPriority.
Context {P : PathApi} {J : JsonApi}.
Variable fs : FileSystem.

(** C4, amended.  Where the manifest of a directory is read and
    parsed, the round decides by inclusion in one lower-cased text: the
    JSON text of the object that merges [dependencies],
    [devDependencies] and [scripts] in that order.  The merged object
    has each key once, bound to the value of the last section that has
    the key, and no other binding.  The text is tested for
    vitest, then jest, then mocha, and the first found is returned.  So
    a manifest whose [devDependencies] list both vitest and jest, in
    the first directory of the search list that yields anything, makes
    [detectFramework] return vitest. *)
Theorem C4_manifest_priority :
  (forall d content pkg tr,
      fs_readFile fs (join d (txt "package.json")) = Some content ->
      JSON_parse content = Some pkg ->
      fst (manifest_step fs d tr) = Returned (framework_in (depsStr pkg))
      /\ (forall f, framework_in (depsStr pkg) = Some f ->
                    fst (search_dir fs d tr) = Returned (Some f)))
  /\ (forall pkg, exists merged,
        depsStr pkg = toLowerCase (JSON_stringify (JObject merged))
        /\ NoDup (map fst merged)
        /\ (forall k v, In (k, v) merged <-> lookup k merged = Some v)
        /\ forall k,
             lookup k merged
             = or_else
                 (lookup k (rev (own_props (manifest_section (txt "scripts") pkg))))
                 (or_else
                    (lookup k (rev (own_props
                       (manifest_section (txt "devDependencies") pkg))))
                    (lookup k (rev (own_props
                       (manifest_section (txt "dependencies") pkg))))))
  /\ (forall blob,
        (framework_in blob = Some vitest <-> includes (txt "vitest") blob = true)
        /\ (framework_in blob = Some jest <->
            includes (txt "vitest") blob = false
            /\ includes (txt "jest") blob = true)
        /\ (framework_in blob = Some mocha <->
            includes (txt "vitest") blob = false
            /\ includes (txt "jest") blob = false
            /\ includes (txt "mocha") blob = true)
        /\ (framework_in blob = None <->
            includes (txt "vitest") blob = false
            /\ includes (txt "jest") blob = false
            /\ includes (txt "mocha") blob = false)
        /\ framework_in blob <> Some pytest)
  /\ (forall filePath before d after content pkg props tr,
        searchDirs filePath = before ++ d :: after ->
        (forall d', In d' before -> yields_nothing fs d') ->
        fs_readFile fs (join d (txt "package.json")) = Some content ->
        JSON_parse content = Some pkg ->
        get_prop (txt "devDependencies") pkg = Some (JObject props) ->
        has_key (txt "vitest") props = true ->
        has_key (txt "jest") props = true ->
        fst (detectFramework fs filePath tr) = Returned (Some vitest)).
Proof.
  assert (Step : forall d content pkg,
             fs_readFile fs (join d (txt "package.json")) = Some content ->
             JSON_parse content = Some pkg ->
             manifest_signal fs d = framework_in (depsStr pkg)).
  { intros d content pkg Hr Hp. unfold manifest_signal. rewrite Hr, Hp.
    destruct pkg; reflexivity. }
  split; [|split; [|split]].
  - intros d content pkg tr Hr Hp. split.
    + rewrite manifest_step_value. f_equal. eapply Step; eassumption.
    + intros f Hf. rewrite search_dir_value. unfold dir_signal.
      rewrite (Step _ _ _ Hr Hp), Hf. reflexivity.
  - intro pkg. eexists. split; [reflexivity|].
    split; [apply NoDup_spread|]. split; [|intro k; apply lookup_spread3].
    intros k v. split.
    + apply lookup_unique, NoDup_spread.
    + apply lookup_in.
  - intro blob. unfold framework_in.
    destruct (includes (txt "vitest") blob), (includes (txt "jest") blob),
      (includes (txt "mocha") blob);
      repeat split; try congruence; try tauto;
      try (intros (? & ?); congruence); try (intros (? & ? & ?); congruence).
  - intros filePath before d after content pkg props tr Hs Hb Hr Hp Hdev Hv Hj.
    rewrite detectFramework_value, Hs, (first_signal_skip fs before _ Hb).
    cbn [first_signal].
    unfold dir_signal. rewrite (Step _ _ _ Hr Hp).
    unfold framework_in.
    rewrite (deps_str_key (txt "vitest") (txt "vitest") pkg props Hdev Hv eq_refl).
    reflexivity.
Qed.

End ManifestPriority.

(** An instance: [proj/package.json] lists both runners and
    [proj/src] holds nothing but the file. *)
Lemma C4_witness :
  @searchDirs posix (txt "proj/src/app.js")
  = [txt "proj/src"] ++ txt "proj" :: [txt "."]
  /\ (forall d', In d' [txt "proj/src"] ->
                 @yields_nothing posix both_runners_json both_runners_fs d')
  /\ fs_readFile both_runners_fs (@join posix (txt "proj") (txt "package.json"))
     = Some both_runners_text
  /\ @JSON_parse both_runners_json both_runners_text = Some both_runners
  /\ fst (@detectFramework posix both_runners_json both_runners_fs
            (txt "proj/src/app.js") [])
     = Returned (Some vitest).
Proof.
  assert (H : forall d', In d' [txt "proj/src"] ->
                @yields_nothing posix both_runners_json both_runners_fs d').
  { intros d' [<- | []]. repeat split.
    intros fw files f Hin Hf. simpl in Hin.
    repeat (destruct Hin as [E | Hin]; [injection E as <- <-; simpl in Hf;
      repeat (destruct Hf as [<- | Hf]; [reflexivity|]); contradiction|]).
    contradiction. }
  split; [reflexivity|]. split; [exact H|].
  split; [reflexivity|]. split; [reflexivity|].
  apply (proj2 (proj2 (proj2
           (@C4_manifest_priority posix both_runners_json both_runners_fs)))
           (txt "proj/src/app.js") [txt "proj/src"] (txt "proj") [txt "."]
           both_runners_text both_runners
           [(txt "vitest", JString (txt "^1.6.0"));
            (txt "jest", JString (txt "^29.7.0"))]);
    try reflexivity.
  exact H.
Defined.

(** C4 as stated fails.  The manifest [aliased_manifest] is read and
    parsed; its sections, one after the other, include vitest, yet the
    merged object keeps the [devDependencies] value of the shared key
    and [detectFramework] returns [null]. *)
Lemma C4_counterexample :
  fs_readFile aliased_fs
    (@join posix (@dirname posix (txt "proj/app.js")) (txt "package.json"))
  = Some aliased_manifest_text
  /\ @JSON_parse aliased_json aliased_manifest_text = Some aliased_manifest
  /\ framework_in (concatenated_blob aliased_manifest) = Some vitest
  /\ framework_in (depsStr aliased_manifest) = None
  /\ run (@manifest_step posix aliased_json aliased_fs (txt "proj"))
     = (Returned None, [OpReadFile (txt "proj/package.json")])
  /\ fst (run (@detectFramework posix aliased_json aliased_fs (txt "proj/app.js")))
     = Returned None.
Proof. repeat split; vm_compute; reflexivity. Qed.

(** C6. For a path whose extension is not recognized, [analyzeFile]
    throws an error whose message names the extension, at once: the
    trace of filesystem operations is left as it was and no result is
    returned.  On a POSIX host a [.rb] file fails so on every file
    system. *)
Theorem C6_unsupported_file_type :
  (forall (P : PathApi) (J : JsonApi) (fs : FileSystem) (filePath : text)
          (tr : list fs_op),
      detectLanguage filePath = None ->
      analyzeFile fs filePath tr
      = (Thrown (Error (txt "Unsupported file type: " ++ extname filePath)), tr))
  /\ (forall (J : JsonApi) (fs : FileSystem),
        run (@analyzeFile posix J fs (txt "lib/tool.rb"))
        = (Thrown (Error (txt "Unsupported file type: .rb")), [])).
Proof.
  split.
  - intros P J fs filePath tr H. unfold analyzeFile. now rewrite H.
  - intros J fs. reflexivity.
Qed.

(** An instance: a Ruby file on a POSIX host. *)
Lemma C6_witness :
  @detectLanguage posix (txt "lib/tool.rb") = None
  /\ @analyzeFile posix no_json bare_fs (txt "lib/tool.rb") []
     = (Thrown (Error (txt "Unsupported file type: .rb")), []).
Proof.
  split; [reflexivity|].
  apply (proj1 C6_unsupported_file_type posix no_json bare_fs). reflexivity.
Defined.

(** C7. Every function symbol the Python extractor returns has a name
    that does not start with an underscore and is the name of a
    definition [(async\s+)? def \s+ name \s* ( params )] whose text
    starts a line of the source.  So [def _helper(): pass] yields no
    symbol, [def public_fn(x): pass] yields one function symbol named
    [public_fn], and a definition that does not start its line yields
    none. *)
Theorem C7_python_functions :
  (forall source,
      Forall (fun e =>
                startsWith (txt "_") (symbol_name e) = false
                /\ exists i j params,
                     line_start source i
                     /\ py_def_text (slice i j source) (symbol_name e) params)
             (filter is_function (extractPythonExports source)))
  /\ extractPythonExports (txt "def _helper(): pass") = []
  /\ extractPythonExports (txt "def public_fn(x): pass")
     = [FunctionSymbol (txt "public_fn") (txt "public_fn(x)") false false]
  /\ extractPythonExports (txt "    def method(self): pass") = [].
Proof.
  split; [|repeat split; vm_compute; reflexivity].
  intro source. rewrite python_function_symbols.
  apply collect_py_functions_Forall
    with (R := fun m => line_start source (index m)
                        /\ py_def_text (slice (index m) (lastIndex m) source)
                                       (group_text 1 m) (group_text 2 m)).
  - intros m (L & T) E. cbn [symbol_name]. split; [exact E|].
    exists (index m), (lastIndex m), (group_text 2 m). auto.
  - apply exec_all_attempts. intros j m Hj Ha. eapply py_function_match; eassumption.
Qed.



(** C9. [detectLanguage] is a function of the lower-cased extension
    alone: paths whose lower-cased extensions agree are classified
    alike; [.js], [.jsx], [.mjs], [.cjs] give javascript, [.ts],
    [.tsx], [.mts] give typescript, [.py] gives python and every other
    extension gives none.  On a POSIX host [App.TSX] is typescript and
    [style.css] is none. *)
Theorem C9_classify_by_lowercase_extension :
  (forall (P : PathApi) (p q : text),
      toLowerCase (extname p) = toLowerCase (extname q) ->
      detectLanguage p = detectLanguage q)
  /\ (forall (P : PathApi) (p : text),
        detectLanguage p =
        let ext := toLowerCase (extname p) in
        if existsb (text_eqb ext)
             [txt ".js"; txt ".jsx"; txt ".mjs"; txt ".cjs"]
        then Some javascript
        else if existsb (text_eqb ext) [txt ".ts"; txt ".tsx"; txt ".mts"]
        then Some typescript
        else if text_eqb ext (txt ".py") then Some python
        else None)
  /\ @detectLanguage posix (txt "App.TSX") = Some typescript
  /\ @detectLanguage posix (txt "style.css") = None.
Proof.
  split; [|split; [|split; reflexivity]].
  - intros P p q H. unfold detectLanguage. now rewrite H.
  - intros P p. unfold detectLanguage.
    generalize (toLowerCase (extname p)) as ext. intro ext.
    cbn [lookup LANGUAGE_MAP existsb].
    rewrite (text_eqb_sym (txt ".js") ext), (text_eqb_sym (txt ".jsx") ext),
      (text_eqb_sym (txt ".mjs") ext), (text_eqb_sym (txt ".cjs") ext),
      (text_eqb_sym (txt ".ts") ext), (text_eqb_sym (txt ".tsx") ext),
      (text_eqb_sym (txt ".mts") ext), (text_eqb_sym (txt ".py") ext).
    repeat (match goal with
            | |- context [text_eqb ext ?k] => destruct (text_eqb ext k)
            end; cbn [orb]; try reflexivity).
Qed.

(** An instance: two paths whose extensions differ in case only. *)
Lemma C9_witness :
  toLowerCase (@extname posix (txt "App.TSX"))
  = toLowerCase (@extname posix (txt "src/view.tsx"))
  /\ @detectLanguage posix (txt "App.TSX")
     = @detectLanguage posix (txt "src/view.tsx").
Proof.
  split; [reflexivity|].
  apply (proj1 C9_classify_by_lowercase_extension posix). reflexivity.
Defined.

Section ConfigOrder.
Context {P : PathApi} {J : JsonApi}.
Variable fs : FileSystem.

(** C10. In a directory where neither the manifest nor the project
    file yields a framework, the config files decide in the order jest,
    vitest, mocha, pytest: the round returns the first of the four with
    an accessible config file, and the files are probed in that order
    up to the first accessible one.  So when the first directory of
    the search list that yields anything has both a jest and a vitest
    config file, [detectFramework] returns jest. *)
Theorem C10_config_order :
  (forall d tr,
      manifest_signal fs d = None -> pyproject_signal fs d = None ->
      fst (search_dir fs d tr)
      = Returned
          (if config_exists fs d [txt "jest.config.js"; txt "jest.config.ts";
                                  txt "jest.config.mjs"; txt "jest.config.cjs"]
           then Some jest
           else if config_exists fs d [txt "vitest.config.js";
                                       txt "vitest.config.ts";
                                       txt "vitest.config.mts"]
           then Some vitest
           else if config_exists fs d [txt ".mocharc.js"; txt ".mocharc.cjs";
                                       txt ".mocharc.yaml"; txt ".mocharc.yml";
                                       txt ".mocharc.json"]
           then Some mocha
           else if config_exists fs d [txt "pytest.ini"; txt "conftest.py"]
           then Some pytest
           else None))
  /\ (forall d tr,
        snd (config_step fs d FRAMEWORK_CONFIG_FILES tr)
        = tr ++ map OpAccess
                  (probed fs d
                     [txt "jest.config.js"; txt "jest.config.ts";
                      txt "jest.config.mjs"; txt "jest.config.cjs";
                      txt "vitest.config.js"; txt "vitest.config.ts";
                      txt "vitest.config.mts";
                      txt ".mocharc.js"; txt ".mocharc.cjs"; txt ".mocharc.yaml";
                      txt ".mocharc.yml"; txt ".mocharc.json";
                      txt "pytest.ini"; txt "conftest.py"]))
  /\ (forall filePath before d after jestFile vitestFile tr,
        searchDirs filePath = before ++ d :: after ->
        (forall d', In d' before -> yields_nothing fs d') ->
        manifest_signal fs d = None ->
        pyproject_signal fs d = None ->
        In jestFile [txt "jest.config.js"; txt "jest.config.ts";
                     txt "jest.config.mjs"; txt "jest.config.cjs"] ->
        In vitestFile [txt "vitest.config.js"; txt "vitest.config.ts";
                       txt "vitest.config.mts"] ->
        fs_access fs (join d jestFile) = true ->
        fs_access fs (join d vitestFile) = true ->
        fst (detectFramework fs filePath tr) = Returned (Some jest)).
Proof.
  split; [|split].
  - intros d tr H1 H2. rewrite search_dir_value. unfold dir_signal.
    rewrite H1, H2. reflexivity.
  - intros d tr. apply config_step_trace.
  - intros filePath before d after jf vf tr Hs Hb H1 H2 Hj Hv Aj Av.
    rewrite detectFramework_value, Hs, (first_signal_skip fs before _ Hb).
    cbn [first_signal].
    unfold dir_signal. rewrite H1, H2. cbn [or_else config_signal FRAMEWORK_CONFIG_FILES].
    replace (config_exists fs d _) with true; [reflexivity|].
    symmetry. apply existsb_exists. exists jf. split; assumption.
Qed.

End ConfigOrder.

(** An instance: [proj] holds both config files; one probe of the
    jest file settles the answer. *)
Lemma C10_witness :
  @searchDirs posix (txt "proj/app.js") = [] ++ txt "proj" :: [txt "."]
  /\ @manifest_signal posix no_json two_configs_fs (txt "proj") = None
  /\ @pyproject_signal posix two_configs_fs (txt "proj") = None
  /\ fs_access two_configs_fs (posix_join (txt "proj") (txt "jest.config.js")) = true
  /\ fs_access two_configs_fs (posix_join (txt "proj") (txt "vitest.config.ts")) = true
  /\ fst (@detectFramework posix no_json two_configs_fs (txt "proj/app.js") [])
     = Returned (Some jest)
  /\ snd (@detectFramework posix no_json two_configs_fs (txt "proj/app.js") [])
     = [ OpReadFile (txt "proj/package.json");
         OpReadFile (txt "proj/pyproject.toml");
         OpAccess (txt "proj/jest.config.js") ].
Proof.
  do 5 (split; [reflexivity|]). split; [|reflexivity].
  apply (proj2 (proj2 (@C10_config_order posix no_json two_configs_fs))
           (txt "proj/app.js") [] (txt "proj") [txt "."]
           (txt "jest.config.js") (txt "vitest.config.ts"));
    try reflexivity.
  - intros d' [].
  - simpl. tauto.
  - simpl. tauto.
Defined.

(* ================================================================== *)
(** * Further properties of the locator and the orchestrator           *)
(* ================================================================== *)

Section LocatorRuns.
Context {P : PathApi} {J : JsonApi}.
Variable fs : FileSystem.

Lemma manifest_step_run (d : text) (tr : list fs_op) :
  manifest_step fs d tr
  = (Returned (manifest_signal fs d),
     tr ++ [OpReadFile (join d (txt "package.json"))]).
Proof.
  unfold manifest_step, manifest_signal, try_catch, bind, readFile, or_throw,
    ret, throw.
  destruct (fs_readFile fs _) as [content|]; [|reflexivity].
  destruct (JSON_parse content) as [pkg|]; [|reflexivity].
  destruct pkg; reflexivity.
Qed.

Lemma pyproject_step_run (d : text) (tr : list fs_op) :
  pyproject_step fs d tr
  = (Returned (pyproject_signal fs d),
     tr ++ [OpReadFile (join d (txt "pyproject.toml"))]).
Proof.
  unfold pyproject_step, pyproject_signal, try_catch, bind, readFile, ret.
  destruct (fs_readFile fs _) as [content|]; reflexivity.
Qed.

Lemma config_step_run (d : text) (entries : list (framework * list text))
  (tr : list fs_op) :
  config_step fs d entries tr
  = (Returned (config_signal fs d entries),
     tr ++ map OpAccess (probed fs d (flat_map snd entries))).
Proof.
  pose proof (config_step_value fs d entries tr) as V.
  pose proof (config_step_trace fs d entries tr) as T.
  destruct (config_step fs d entries tr) as [o tr']. simpl in V, T.
  now subst.
Qed.

(** One round: its value and exactly its operations. *)
Lemma search_dir_run (d : text) (tr : list fs_op) :
  search_dir fs d tr = (Returned (dir_signal fs d), tr ++ dir_trace fs d).
Proof.
  unfold search_dir, dir_signal, dir_trace, bind.
  rewrite manifest_step_run.
  destruct (manifest_signal fs d) as [f|]; [reflexivity|].
  rewrite pyproject_step_run.
  destruct (pyproject_signal fs d) as [f|].
  - cbn [or_else]. unfold ret. now rewrite <- app_assoc.
  - rewrite config_step_run. cbn [or_else]. now rewrite <- !app_assoc.
Qed.

Lemma search_dirs_run (dirs : list text) :
  forall tr,
  search_dirs fs dirs tr
  = (Returned (first_signal fs dirs), tr ++ dirs_trace fs dirs).
Proof.
  induction dirs as [|d dirs IH]; intro tr; simpl.
  - unfold ret. now rewrite app_nil_r.
  - unfold bind. rewrite search_dir_run.
    destruct (dir_signal fs d) as [f|]; simpl.
    + unfold ret. now rewrite app_nil_r.
    + rewrite IH. now rewrite <- app_assoc.
Qed.

Lemma probed_length (d : text) (files : list text) :
  length (probed fs d files) <= length files.
Proof.
  induction files as [|f files IH]; simpl; [lia|].
  destruct (fs_access fs (join d f)); simpl; lia.
Qed.

Lemma probed_incl (d : text) (files : list text) :
  forall p, In p (probed fs d files) -> exists f, In f files /\ p = join d f.
Proof.
  induction files as [|f files IH]; simpl; intros p H; [contradiction|].
  destruct H as [<- | H].
  - exists f. auto.
  - destruct (fs_access fs (join d f)); [contradiction|].
    destruct (IH p H) as (f' & Hf & ->). exists f'. auto.
Qed.

Lemma dir_trace_length (d : text) : length (dir_trace fs d) <= 16.
Proof.
  unfold dir_trace. destruct (manifest_signal fs d); simpl; [lia|].
  destruct (pyproject_signal fs d); simpl; [lia|].
  rewrite length_map.
  pose proof (probed_length d (flat_map snd FRAMEWORK_CONFIG_FILES)) as H.
  simpl in H. simpl. lia.
Qed.

Lemma dir_trace_paths (d : text) :
  Forall (fun op => exists name, In name probe_names /\ op_path op = join d name)
         (dir_trace fs d).
Proof.
  unfold dir_trace, probe_names. constructor.
  - exists (txt "package.json"). split; [now left | reflexivity].
  - destruct (manifest_signal fs d); [constructor|]. constructor.
    + exists (txt "pyproject.toml"). split; [right; now left | reflexivity].
    + destruct (pyproject_signal fs d); [constructor|].
      apply Forall_forall. intros op Hop. apply in_map_iff in Hop.
      destruct Hop as (p & <- & Hp). apply probed_incl in Hp.
      destruct Hp as (f & Hf & ->). exists f. split; [|reflexivity].
      right. right. exact Hf.
Qed.

Lemma dirs_trace_length (dirs : list text) :
  length (dirs_trace fs dirs) <= 16 * length dirs.
Proof.
  induction dirs as [|d dirs IH]; [simpl; lia|].
  cbn [dirs_trace]. rewrite length_app. cbn [length].
  pose proof (dir_trace_length d).
  destruct (dir_signal fs d); cbn [length]; lia.
Qed.

Lemma dirs_trace_paths (dirs : list text) :
  Forall (fun op => exists d name,
            In d dirs /\ In name probe_names /\ op_path op = join d name)
         (dirs_trace fs dirs).
Proof.
  induction dirs as [|d dirs IH]; [constructor|].
  cbn [dirs_trace]. apply Forall_app. split.
  - eapply Forall_impl; [|apply dir_trace_paths].
    intros op (name & Hn & Hp). exists d, name.
    split; [now left | auto].
  - destruct (dir_signal fs d); [constructor|].
    eapply Forall_impl; [|exact IH].
    intros op (d' & name & Hd & Hn & Hp). exists d', name.
    split; [now right | auto].
Qed.

(** X1. [detectFramework] never throws, whatever the file system and
    [JSON.parse] do: it returns the first signal along the search list.
    Its operations are exactly those of the rounds up to the first
    directory that yields a framework: at most 16 per directory and 80
    in all, each on one of the 16 names it looks for, inside a
    directory of the search list. *)
Theorem X1_locator_returns_within_bounds (filePath : text) (tr : list fs_op) :
  detectFramework fs filePath tr
  = (Returned (first_signal fs (searchDirs filePath)),
     tr ++ dirs_trace fs (searchDirs filePath))
  /\ length (dirs_trace fs (searchDirs filePath)) <= 80
  /\ length probe_names = 16
  /\ Forall (fun op => exists d name,
               In d (searchDirs filePath) /\ In name probe_names
               /\ op_path op = join d name)
            (dirs_trace fs (searchDirs filePath)).
Proof.
  split; [apply search_dirs_run|]. split; [|split].
  - pose proof (dirs_trace_length (searchDirs filePath)) as H.
    assert (L : length (searchDirs filePath) <= 5).
    { unfold searchDirs. cbn [length].
      pose proof (walk_up_length 4 (dirname filePath)). lia. }
    lia.
  - reflexivity.
  - apply dirs_trace_paths.
Qed.

(** ** Directories that yield nothing *)

Lemma config_signal_none_inv (d : text) (entries : list (framework * list text)) :
  config_signal fs d entries = None ->
  forall fw files f, In (fw, files) entries -> In f files ->
    fs_access fs (join d f) = false.
Proof.
  induction entries as [|[fw0 files0] entries IH]; intros H fw files f Hin Hf;
    [destruct Hin|].
  cbn [config_signal] in H.
  destruct (config_exists fs d files0) eqn:E; [discriminate|].
  destruct Hin as [Eq | Hin].
  - injection Eq as <- <-. unfold config_exists in E.
    destruct (fs_access fs (join d f)) eqn:A; [|reflexivity].
    assert (X : existsb (fun f0 => fs_access fs (join d f0)) files0 = true).
    { apply existsb_exists. now exists f. }
    congruence.
  - now apply (IH H fw files f).
Qed.

(** A directory gives no signal exactly when it yields nothing. *)
Lemma dir_signal_none_iff (d : text) :
  dir_signal fs d = None <-> yields_nothing fs d.
Proof.
  split; [|apply dir_signal_none].
  unfold dir_signal, yields_nothing. intro H.
  destruct (manifest_signal fs d); [discriminate|].
  destruct (pyproject_signal fs d); [discriminate|].
  cbn [or_else] in H. repeat split. now apply config_signal_none_inv.
Qed.

Lemma first_signal_none_iff (dirs : list text) :
  first_signal fs dirs = None <-> forall d, In d dirs -> yields_nothing fs d.
Proof.
  split; [|apply first_signal_none].
  induction dirs as [|d dirs IH]; intros H d' Hin; [destruct Hin|].
  cbn [first_signal] in H.
  destruct (dir_signal fs d) eqn:E; [discriminate|]. cbn [or_else] in H.
  destruct Hin as [<- | Hin]; [now apply dir_signal_none_iff | now apply IH].
Qed.

Lemma probed_all (d : text) (files : list text) :
  (forall f, In f files -> fs_access fs (join d f) = false) ->
  probed fs d files = map (join d) files.
Proof.
  induction files as [|f files IH]; intro H; [reflexivity|].
  cbn [probed map]. rewrite (H f (or_introl eq_refl)). f_equal.
  apply IH. intros f' Hf'. apply H. now right.
Qed.

(** In a directory that yields nothing every probe is made. *)
Lemma dir_trace_nothing (d : text) :
  yields_nothing fs d -> dir_trace fs d = probe_all d.
Proof.
  intros (H1 & H2 & H3). unfold dir_trace, probe_all. rewrite H1, H2.
  do 2 f_equal. rewrite probed_all, map_map; [reflexivity|].
  intros f Hf. apply in_flat_map in Hf. destruct Hf as ([fw files] & Hin & Hf).
  exact (H3 fw files f Hin Hf).
Qed.

(** The rounds up to the first directory that gives a signal. *)
Lemma dirs_trace_stop (before : list text) (d : text) (after : list text) :
  (forall d', In d' before -> yields_nothing fs d') ->
  dir_signal fs d <> None ->
  dirs_trace fs (before ++ d :: after)
  = flat_map probe_all before ++ dir_trace fs d.
Proof.
  induction before as [|d0 before IH]; intros Hb Hd.
  - cbn [app dirs_trace flat_map]. destruct (dir_signal fs d); [|now destruct Hd].
    now rewrite app_nil_r.
  - change ((d0 :: before) ++ d :: after) with (d0 :: before ++ d :: after).
    cbn [dirs_trace flat_map].
    rewrite (dir_signal_none fs d0 (Hb d0 (or_introl eq_refl))).
    rewrite (dir_trace_nothing d0 (Hb d0 (or_introl eq_refl))).
    rewrite IH; [now rewrite <- app_assoc | | exact Hd].
    intros d' Hd'. apply Hb. now right.
Qed.

Lemma dirs_trace_nothing (dirs : list text) :
  (forall d, In d dirs -> yields_nothing fs d) ->
  dirs_trace fs dirs = flat_map probe_all dirs.
Proof.
  induction dirs as [|d dirs IH]; intro H; [reflexivity|].
  cbn [dirs_trace flat_map].
  rewrite (dir_signal_none fs d (H d (or_introl eq_refl))).
  rewrite (dir_trace_nothing d (H d (or_introl eq_refl))).
  f_equal. apply IH. intros d' Hd'. apply H. now right.
Qed.

End LocatorRuns.

Section SearchBound.
Context {P : PathApi} {J : JsonApi}.
Variable fs : FileSystem.

(** C5. The search list is the directory of the file followed by at
    most 4 directories, each the parent of the one before and different
    from it; when it is shorter than that, its last directory is its own
    parent.  [detectFramework] goes through this list and no other
    directory: it returns [null] exactly when no directory of the list
    yields a manifest match, a project-file match or a config file,
    and then it has made every probe in every directory of the list, in
    the order of the list; otherwise the first directory of the list
    that yields anything decides, after every probe in the directories
    before it, and the directories after it are not visited. *)
Theorem C5_search_bound_and_unknown (filePath : text) :
  (exists ancestors,
      searchDirs filePath = dirname filePath :: ancestors
      /\ length ancestors <= 4
      /\ (forall i d e,
            nth_error (searchDirs filePath) i = Some d ->
            nth_error (searchDirs filePath) (S i) = Some e ->
            e = dirname d /\ e <> d)
      /\ (length ancestors < 4 ->
          dirname (last (searchDirs filePath) [])
          = last (searchDirs filePath) []))
  /\ (forall tr,
        fst (detectFramework fs filePath tr) = Returned None <->
        forall d, In d (searchDirs filePath) -> yields_nothing fs d)
  /\ ((forall d, In d (searchDirs filePath) -> yields_nothing fs d) ->
      forall tr,
        detectFramework fs filePath tr
        = (Returned None, tr ++ flat_map probe_all (searchDirs filePath)))
  /\ (forall before d after,
        searchDirs filePath = before ++ d :: after ->
        (forall d', In d' before -> yields_nothing fs d') ->
        ~ yields_nothing fs d ->
        exists f,
          dir_signal fs d = Some f
          /\ forall tr,
               detectFramework fs filePath tr
               = (Returned (Some f),
                  tr ++ flat_map probe_all before ++ dir_trace fs d)).
Proof.
  split; [|split; [|split]].
  - exists (walk_up 4 (dirname filePath)). unfold searchDirs.
    split; [reflexivity|]. split; [apply walk_up_length|]. split.
    + apply walk_up_chain.
    + intro H. pose proof (walk_up_stop 4 (dirname filePath) H) as S.
      destruct (walk_up 4 (dirname filePath)) as [|x w]; [exact S|].
      change (last (dirname filePath :: x :: w) []) with (last (x :: w) []).
      now rewrite (last_nonempty w x [] (dirname filePath)).
  - intro tr. rewrite detectFramework_value, <- first_signal_none_iff.
    split; [intro H; now injection H | now intros ->].
  - intros H tr. unfold detectFramework.
    rewrite search_dirs_run, (first_signal_none fs _ H),
      (dirs_trace_nothing fs _ H).
    reflexivity.
  - intros before d after Hs Hb Hd.
    destruct (dir_signal fs d) as [f|] eqn:E.
    + exists f. split; [reflexivity|]. intro tr. unfold detectFramework.
      rewrite search_dirs_run, Hs, (first_signal_skip fs before _ Hb).
      cbn [first_signal]. rewrite E. cbn [or_else].
      rewrite (dirs_trace_stop fs before d after Hb); [reflexivity|].
      congruence.
    + destruct Hd. now apply dir_signal_none_iff.
Qed.

End SearchBound.

(** Instances: a file in a project with no manifest, project file or
    config file, where all [3 * 16] probes are made; and a manifest
    one directory above the file, found after the [16] probes of the
    directory of the file. *)
Lemma C5_witness :
  (forall d, In d (@searchDirs posix (txt "proj/src/app.js")) ->
             @yields_nothing posix no_json bare_fs d)
  /\ @detectFramework posix no_json bare_fs (txt "proj/src/app.js") []
     = (Returned None,
        flat_map (@probe_all posix) [txt "proj/src"; txt "proj"; txt "."])
  /\ exists f,
       @dir_signal posix parent_manifest_json parent_manifest_fs (txt "proj")
       = Some f
       /\ forall tr,
            @detectFramework posix parent_manifest_json parent_manifest_fs
              (txt "proj/src/app.js") tr
            = (Returned (Some f),
               tr ++ flat_map (@probe_all posix) [txt "proj/src"]
               ++ @dir_trace posix parent_manifest_json parent_manifest_fs
                    (txt "proj")).
Proof.
  assert (H : forall d, In d (@searchDirs posix (txt "proj/src/app.js")) ->
                        @yields_nothing posix no_json bare_fs d).
  { intros d _. repeat split. }
  split; [exact H|]. split.
  - exact (proj1 (proj2 (proj2
             (@C5_search_bound_and_unknown posix no_json bare_fs
                (txt "proj/src/app.js")))) H []).
  - apply (proj2 (proj2 (proj2
             (@C5_search_bound_and_unknown posix parent_manifest_json
                parent_manifest_fs (txt "proj/src/app.js"))))
             [txt "proj/src"] (txt "proj") [txt "."]).
    + reflexivity.
    + intros d' [<- | []]. repeat split.
      intros fw files f Hin Hf. simpl in Hin.
      repeat (destruct Hin as [E | Hin]; [injection E as <- <-; simpl in Hf;
        repeat (destruct Hf as [<- | Hf]; [reflexivity|]); contradiction|]).
      contradiction.
    + intros (Hm & _). vm_compute in Hm. discriminate Hm.
Defined.



Section OrchestratorRuns.
Context {P : PathApi} {J : JsonApi}.
Variable fs : FileSystem.

(** The framework of the result: the one found, else the default of
    the language. *)
Lemma analyzeFile_run (filePath : text) (lang : language) (source : text)
  (tr : list fs_op) :
  detectLanguage filePath = Some lang ->
  fs_readFile fs filePath = Some source ->
  exists a,
    analyzeFile fs filePath tr
    = (Returned a,
       tr ++ OpReadFile filePath :: dirs_trace fs (searchDirs filePath))
    /\ fa_filePath a = filePath /\ fa_language a = lang /\ fa_source a = source
    /\ fa_framework a
       = match first_signal fs (searchDirs filePath) with
         | Some f => f
         | None => match lang with python => pytest | _ => jest end
         end
    /\ fa_exports a
       = match lang with
         | python => extractPythonExports source
         | _ => extractJSExports source
         end
    /\ fa_imports a
       = match lang with
         | python => extractPythonImports source
         | _ => extractJSImports source
         end
    /\ fa_functionCount a = length (filter is_function (fa_exports a))
    /\ fa_classCount a = length (filter is_class (fa_exports a))
    /\ fa_lineCount a = lineCount source.
Proof.
  intros HL HR. unfold analyzeFile. rewrite HL.
  unfold bind at 1. unfold readFile at 1. rewrite HR.
  unfold bind.
  pose proof (X1 := search_dirs_run fs (searchDirs filePath)
                      (tr ++ [OpReadFile filePath])).
  unfold detectFramework. rewrite X1. unfold ret.
  eexists. split.
  - rewrite <- app_assoc. reflexivity.
  - cbn [fa_filePath fa_language fa_source fa_framework fa_exports fa_imports
          fa_functionCount fa_classCount fa_lineCount].
    destruct lang; repeat split; reflexivity.
Qed.

Lemma analyzeFile_returned (filePath : text) (tr tr' : list fs_op)
  (a : FileAnalysis) :
  analyzeFile fs filePath tr = (Returned a, tr') ->
  exists lang source,
    detectLanguage filePath = Some lang /\ fs_readFile fs filePath = Some source.
Proof.
  unfold analyzeFile. destruct (detectLanguage filePath) as [lang|];
    [|discriminate].
  unfold bind at 1. unfold readFile at 1.
  destruct (fs_readFile fs filePath) as [source|]; [|discriminate].
  intros _. now exists lang, source.
Qed.

Lemma lineCount_count (source : text) :
  lineCount source = 1 + count_occ ascii_dec source LF.
Proof.
  unfold lineCount. cbn [Nat.add]. f_equal.
  induction source as [|c s IH]; [reflexivity|].
  cbn [filter count_occ].
  destruct (Ascii.eqb LF c) eqn:E.
  - apply Ascii.eqb_eq in E. subst c.
    destruct (ascii_dec LF LF) as [_|N]; [|congruence].
    cbn [length]. now rewrite IH.
  - destruct (ascii_dec c LF) as [->|N]; [|exact IH].
    now rewrite Ascii.eqb_refl in E.
Qed.

(** X2. [analyzeFile] has three outcomes.  An unrecognized extension
    throws before any filesystem operation.  A recognized one whose
    source cannot be read throws the read error after that single read:
    the directories are not searched.  Otherwise it returns, having
    read the source first and then done exactly what the locator does;
    the framework of the result is the one found, else pytest for
    Python and jest for JavaScript and TypeScript. *)
Theorem X2_analysis_outcomes (filePath : text) (tr : list fs_op) :
  match detectLanguage filePath, fs_readFile fs filePath with
  | None, _ =>
      analyzeFile fs filePath tr
      = (Thrown (Error (txt "Unsupported file type: " ++ extname filePath)), tr)
  | Some _, None =>
      analyzeFile fs filePath tr
      = (Thrown (FsError filePath), tr ++ [OpReadFile filePath])
  | Some lang, Some source =>
      exists a,
        analyzeFile fs filePath tr
        = (Returned a,
           tr ++ OpReadFile filePath :: dirs_trace fs (searchDirs filePath))
        /\ fa_language a = lang /\ fa_source a = source
        /\ fa_framework a
           = match first_signal fs (searchDirs filePath) with
             | Some f => f
             | None => match lang with python => pytest | _ => jest end
             end
  end.
Proof.
  destruct (detectLanguage filePath) as [lang|] eqn:HL.
  - destruct (fs_readFile fs filePath) as [source|] eqn:HR.
    + destruct (analyzeFile_run filePath lang source tr HL HR)
        as (a & Ha & _ & H1 & H2 & H3 & _).
      exists a. auto.
    + unfold analyzeFile. rewrite HL. unfold bind, readFile. now rewrite HR.
  - unfold analyzeFile. now rewrite HL.
Qed.

Lemma filter_partition_length {A} (f : A -> bool) (l : list A) :
  length (filter f l) + length (filter (fun x => negb (f x)) l) = length l.
Proof.
  induction l as [|x l IH]; simpl; [reflexivity|].
  destruct (f x); simpl; lia.
Qed.

(** X3. In every analysis returned, the two counters split the
    exports: [functionCount + classCount = exports.length].  The line
    count is one more than the number of line feeds, so it is at least
    1, also for an empty file.  A TypeScript file is read by the
    JavaScript extractors. *)
Theorem X3_counters_split_exports (filePath : text) (tr tr' : list fs_op)
  (a : FileAnalysis) :
  analyzeFile fs filePath tr = (Returned a, tr') ->
  fa_functionCount a + fa_classCount a = length (fa_exports a)
  /\ fa_lineCount a = 1 + count_occ ascii_dec (fa_source a) LF
  /\ 1 <= fa_lineCount a <= 1 + length (fa_source a)
  /\ (fa_language a <> python ->
      fa_exports a = extractJSExports (fa_source a)
      /\ fa_imports a = extractJSImports (fa_source a))
  /\ (fa_language a = python ->
      fa_exports a = extractPythonExports (fa_source a)
      /\ fa_imports a = extractPythonImports (fa_source a)).
Proof.
  intro H.
  destruct (analyzeFile_returned filePath tr tr' a H) as (lang & source & HL & HR).
  destruct (analyzeFile_run filePath lang source tr HL HR)
    as (a' & Ha & _ & H1 & H2 & _ & H4 & H5 & H6 & H7 & H8).
  rewrite H in Ha. injection Ha as <- _.
  pose proof (lineCount_count source) as LC.
  rewrite H6, H7, H8, H2. split; [apply filter_partition_length|].
  split; [exact LC|]. split.
  - rewrite LC. pose proof (count_occ_bound ascii_dec LF source). lia.
  - rewrite H1, H4, H5. split.
    + intro N. destruct lang; try congruence; auto.
    + intros ->. auto.
Qed.

End OrchestratorRuns.


(** An instance: the analysis of [src/b.js] in [unclosed_fs]. *)
Lemma X3_witness :
  exists a tr',
    @analyzeFile posix no_json unclosed_fs (txt "src/b.js") [] = (Returned a, tr')
    /\ fa_functionCount a + fa_classCount a = length (fa_exports a)
    /\ fa_lineCount a = 1.
Proof.
  eexists. eexists. split; [vm_compute; reflexivity|].
  match goal with
  | |- ?F ?a + _ = _ /\ _ =>
      pose proof (@X3_counters_split_exports posix no_json unclosed_fs
                    (txt "src/b.js") [] _ a eq_refl) as H
  end.
  destruct H as (H1 & H2 & _). split; [exact H1 | reflexivity].
Defined.

Section ProjectFile.
Context {P : PathApi} {J : JsonApi}.
Variable fs : FileSystem.

Lemma includes_tool_pytest (content : text) :
  includes (txt "[tool.pytest") content = true ->
  includes (txt "pytest") content = true.
Proof. apply includes_trans. reflexivity. Qed.

(** X4. The project file decides pytest exactly when it is readable
    and its text includes [pytest] anywhere: the test for
    [[tool.pytest] adds nothing.  When it does, and the manifest has
    given nothing, the round returns pytest after its two reads,
    without probing any config file. *)
Theorem X4_project_file_decides (d : text) :
  pyproject_signal fs d
  = match fs_readFile fs (join d (txt "pyproject.toml")) with
    | Some content =>
        if includes (txt "pytest") content then Some pytest else None
    | None => None
    end
  /\ (forall content tr,
        manifest_signal fs d = None ->
        fs_readFile fs (join d (txt "pyproject.toml")) = Some content ->
        includes (txt "pytest") content = true ->
        search_dir fs d tr
        = (Returned (Some pytest),
           tr ++ [OpReadFile (join d (txt "package.json"));
                  OpReadFile (join d (txt "pyproject.toml"))])).
Proof.
  assert (S : pyproject_signal fs d
              = match fs_readFile fs (join d (txt "pyproject.toml")) with
                | Some content =>
                    if includes (txt "pytest") content then Some pytest else None
                | None => None
                end).
  { unfold pyproject_signal.
    destruct (fs_readFile fs _) as [content|]; [|reflexivity].
    destruct (includes (txt "pytest") content) eqn:E.
    - now rewrite orb_true_r.
    - rewrite orb_false_r.
      destruct (includes (txt "[tool.pytest") content) eqn:E2; [|reflexivity].
      apply includes_tool_pytest in E2. congruence. }
  split; [exact S|].
  intros content tr HM HR HI. rewrite search_dir_run. unfold dir_signal, dir_trace.
  rewrite HM, S, HR, HI. reflexivity.
Qed.

End ProjectFile.

(** An instance: [svc/pyproject.toml] names pytest in a comment and
    [svc/jest.config.js] is never probed. *)
Lemma X4_witness :
  @manifest_signal posix no_json pyproject_fs (txt "svc") = None
  /\ @search_dir posix no_json pyproject_fs (txt "svc") []
     = (Returned (Some pytest),
        [OpReadFile (txt "svc/package.json");
         OpReadFile (txt "svc/pyproject.toml")]).
Proof.
  split; [reflexivity|].
  apply (proj2 (@X4_project_file_decides posix no_json pyproject_fs (txt "svc"))
           (txt "# run with pytest -q") []); reflexivity.
Defined.


(* ================================================================== *)
(** * Further properties of the manifest check                         *)
(* ================================================================== *)

(** A code unit whose lower case is a letter [a-z] prints as itself in
    a JSON string. *)
Lemma quote_char_letter (c : ascii) :
  between 97 122 (lower_char c) = true -> quote_char c = [c].
Proof.
  destruct c as [[] [] [] [] [] [] [] []]; vm_compute; intro H;
    try reflexivity; discriminate H.
Qed.

Lemma quote_letters (u : text) :
  Forall (fun c => between 97 122 (lower_char c) = true) u ->
  flat_map quote_char u = u.
Proof.
  induction 1 as [|c u Hc _ IH]; [reflexivity|].
  cbn [flat_map]. rewrite IH, (quote_char_letter _ Hc). reflexivity.
Qed.

(** A lower-case word found in the lower case of a string is found in
    the lower case of its JSON text: quoting leaves the letters of the
    occurrence alone. *)
Lemma includes_lower_quote (word x : text) :
  Forall (fun c => between 97 122 c = true) word ->
  includes word (toLowerCase x) = true ->
  includes word (toLowerCase (quote_json x)) = true.
Proof.
  intros Hw H. apply includes_spec in H. destruct H as (a & b & H).
  unfold toLowerCase in H.
  apply map_eq_app in H. destruct H as (a' & x2 & -> & Ha & H).
  apply map_eq_app in H. destruct H as (u & b' & -> & Hu & Hb).
  assert (Q : flat_map quote_char u = u).
  { apply quote_letters. subst word. clear - Hw.
    induction u as [|c u IH]; [constructor|].
    inversion Hw; subst. constructor; auto. }
  unfold quote_json. rewrite !flat_map_app, Q.
  apply includes_spec.
  exists (toLowerCase ([DQUOTE] ++ flat_map quote_char a')),
         (toLowerCase (flat_map quote_char b' ++ [DQUOTE])).
  unfold toLowerCase. rewrite <- Hu, <- !map_app, <- !app_assoc. reflexivity.
Qed.

(** In an object that has each key once, the binding of a key is the
    only one, whichever end the search starts from. *)
Lemma lookup_rev_unique {A} (k : text) (l : list (text * A)) (v : A) :
  NoDup (map fst l) -> In (k, v) l -> lookup k (rev l) = Some v.
Proof.
  induction l as [|[k' v'] l IH]; intros Hn Hin; [destruct Hin|].
  cbn [map fst] in Hn. apply NoDup_cons_iff in Hn. destruct Hn as (Hk & Hn).
  cbn [rev]. rewrite lookup_app. destruct Hin as [E | Hin].
  - injection E as -> ->.
    rewrite (lookup_not_in k (rev l)).
    + simpl. now rewrite text_eqb_refl.
    + rewrite map_rev, <- in_rev. exact Hk.
  - now rewrite (IH Hn Hin).
Qed.

Lemma includes_self (p : text) : includes p p = true.
Proof. apply includes_spec. exists [], []. now rewrite app_nil_r. Qed.

(** [JSON.stringify] of an object prints each of its values. *)
Lemma stringify_has_value (k : text) (v : json) (props : list (text * json)) :
  In (k, v) props ->
  includes (JSON_stringify v) (JSON_stringify (JObject props)) = true.
Proof.
  intro H. cbn [JSON_stringify]. apply includes_app_r, includes_app_l.
  induction props as [|[k' v'] props IH]; [destruct H|].
  cbn [map]. destruct H as [E | H].
  - injection E as -> ->.
    destruct props as [|p0 props]; cbn [join_with map].
    + apply includes_app_r, includes_app_r, includes_self.
    + apply includes_app_l, includes_app_r, includes_app_r, includes_self.
  - specialize (IH H). destruct props as [|p0 props]; [destruct H|].
    cbn [join_with map] in *. apply includes_app_r, includes_app_r. exact IH.
Qed.

Lemma runner_words_lower (word : text) :
  In word [txt "vitest"; txt "jest"; txt "mocha"] ->
  Forall (fun c => between 97 122 c = true) word.
Proof.
  intros [<- | [<- | [<- | []]]]; repeat constructor.
Qed.

(** The keys of each of the three sections are keys of the merged
    object. *)
Lemma section_key_merged (section k : text) (pkg : json)
      (props : list (text * json)) :
  In section [txt "dependencies"; txt "devDependencies"; txt "scripts"] ->
  get_prop section pkg = Some (JObject props) ->
  has_key k props = true ->
  has_key k (spread [manifest_section (txt "dependencies") pkg;
                     manifest_section (txt "devDependencies") pkg;
                     manifest_section (txt "scripts") pkg]) = true.
Proof.
  intros Hs Hg Hk. rewrite has_key_spread. cbn [existsb].
  destruct Hs as [<- | [<- | [<- | []]]].
  - unfold manifest_section at 1. rewrite Hg. cbn [js_truthy own_props].
    now rewrite Hk.
  - unfold manifest_section at 2. rewrite Hg. cbn [js_truthy own_props].
    rewrite Hk. apply orb_true_r.
  - unfold manifest_section at 3. rewrite Hg. cbn [js_truthy own_props].
    rewrite Hk. now rewrite !orb_true_r.
Qed.

(** The commands of the scripts are values of the merged object. *)
Lemma script_value_merged (k : text) (v : json) (pkg : json)
      (props : list (text * json)) :
  get_prop (txt "scripts") pkg = Some (JObject props) ->
  NoDup (map fst props) ->
  In (k, v) props ->
  In (k, v) (spread [manifest_section (txt "dependencies") pkg;
                     manifest_section (txt "devDependencies") pkg;
                     manifest_section (txt "scripts") pkg]).
Proof.
  intros Hg Hn Hin. apply lookup_in. rewrite lookup_spread3.
  unfold manifest_section at 1. rewrite Hg. cbn [js_truthy own_props].
  now rewrite (lookup_rev_unique k props v Hn Hin).
Qed.

(** X5. A manifest names its runner in any letter case and in any of
    the three sections: when a key of [dependencies], [devDependencies]
    or [scripts], or the command of a script, holds one of the words
    vitest, jest, mocha up to letter case, the lower-cased text of the
    merged sections includes the word, so the manifest decides on a
    framework, and on vitest when the word is vitest. *)
Theorem X5_manifest_names_runner (pkg : json) (section word : text)
        (props : list (text * json)) :
  In section [txt "dependencies"; txt "devDependencies"; txt "scripts"] ->
  get_prop section pkg = Some (JObject props) ->
  In word [txt "vitest"; txt "jest"; txt "mocha"] ->
  (exists k, has_key k props = true /\ includes word (toLowerCase k) = true)
  \/ (section = txt "scripts" /\ NoDup (map fst props)
      /\ exists k v, In (k, JString v) props
                     /\ includes word (toLowerCase v) = true) ->
  includes word (depsStr pkg) = true
  /\ framework_in (depsStr pkg) <> None
  /\ (word = txt "vitest" -> framework_in (depsStr pkg) = Some vitest).
Proof.
  intros Hs Hg Hw H.
  assert (I : includes word (depsStr pkg) = true).
  { pose proof (runner_words_lower word Hw) as Hl.
    unfold depsStr, allDeps. destruct H as [(k & Hk & Hi) | (-> & Hn & k & v & Hin & Hi)].
    - apply (includes_trans _ _ _ (includes_lower_quote word k Hl Hi)).
      apply includes_lower, stringify_has_key.
      now apply (section_key_merged section k pkg props).
    - apply (includes_trans _ _ _ (includes_lower_quote word v Hl Hi)).
      apply includes_lower.
      apply (stringify_has_value k (JString v)).
      now apply (script_value_merged k (JString v) pkg props). }
  split; [exact I|]. unfold framework_in. split.
  - destruct Hw as [<- | [<- | [<- | []]]]; rewrite ?I;
      repeat match goal with
             | |- context [if ?b then _ else _] => destruct b
             end; discriminate.
  - intros ->. now rewrite I.
Qed.

(** Instances: an upper-case key of [dependencies], and the command of
    a script. *)
Lemma X5_witness :
  framework_in (depsStr shouting_manifest) = Some vitest
  /\ framework_in (depsStr script_manifest) <> None.
Proof.
  split.
  - apply (X5_manifest_names_runner shouting_manifest (txt "dependencies")
             (txt "vitest")
             [ (txt "@Scope/VITEST-preset", JString (txt "1.0.0")) ]).
    + simpl; auto.
    + reflexivity.
    + simpl; auto.
    + left. exists (txt "@Scope/VITEST-preset"). split; reflexivity.
    + reflexivity.
  - apply (X5_manifest_names_runner script_manifest (txt "scripts")
             (txt "mocha")
             [ (txt "build", JString (txt "tsc"));
               (txt "test", JString (txt "Mocha --recursive")) ]).
    + simpl; auto.
    + reflexivity.
    + simpl; auto.
    + right. split; [reflexivity|]. split.
      * repeat constructor; simpl; intuition discriminate.
      * exists (txt "test"), (txt "Mocha --recursive").
        split; [simpl; auto | reflexivity].
Defined.


(* ================================================================== *)
(** * Further properties of the extractors                             *)
(* ================================================================== *)

(** What a group captured has the form of one of its bodies. *)
Lemma reads_group_body (n : nat) (r : regex) :
  forall t cs x,
    reads r t cs -> group n cs = Some x ->
    exists r0 cs0, In r0 (group_bodies n r) /\ reads r0 x cs0.
Proof.
  induction r as [| c | p | r1 IH1 r2 IH2 | r1 IH1 r2 IH2 | r1 IH | r1 IH
                 | k r1 IH |]; intros t cs x H G; cbn [reads group_bodies] in *.
  - destruct H as (_ & ->). discriminate.
  - destruct H as (_ & ->). discriminate.
  - destruct H as (_ & ->). discriminate.
  - destruct H as (t1 & t2 & cs1 & cs2 & _ & -> & H1 & H2).
    rewrite group_app in G. destruct (group n cs2) as [y|] eqn:E2; simpl in G.
    + injection G as ->. destruct (IH2 _ _ _ H2 E2) as (r0 & cs0 & Hi & Hr).
      exists r0, cs0. split; [apply in_or_app; now right | exact Hr].
    + destruct (IH1 _ _ _ H1 G) as (r0 & cs0 & Hi & Hr).
      exists r0, cs0. split; [apply in_or_app; now left | exact Hr].
  - destruct H as [H | H].
    + destruct (IH1 _ _ _ H G) as (r0 & cs0 & Hi & Hr).
      exists r0, cs0. split; [apply in_or_app; now left | exact Hr].
    + destruct (IH2 _ _ _ H G) as (r0 & cs0 & Hi & Hr).
      exists r0, cs0. split; [apply in_or_app; now right | exact Hr].
  - destruct H as (-> & _). discriminate.
  - destruct H as [(_ & ->) | H]; [discriminate | now apply (IH t cs)].
  - destruct H as (cs1 & H & ->). cbn [group] in G.
    destruct (k =? n) eqn:E.
    + injection G as ->. exists r1, cs1. split; [now left | exact H].
    + destruct (IH _ _ _ H G) as (r0 & cs0 & Hi & Hr).
      exists r0, cs0. split; [exact Hi | exact Hr].
  - destruct H as (_ & ->). discriminate.
Qed.

(** A group that always takes part and whose only body is [\w+]
    holds an identifier in every match of the loop. *)
Lemma exec_all_identifier (n : nat) (r : regex) (src : text) :
  groups_outside_star r = true -> always_captures n r = true ->
  group_bodies n r = [Plus wd] ->
  Forall (fun m => identifier (group_text n m)) (exec_all r src).
Proof.
  intros Hg Ha Hb. apply exec_all_attempts. intros j m _ Hm.
  destruct (attempt_reads _ _ _ _ Hg Hm) as (_ & _ & Hr).
  destruct (reads_always_captures n r Ha _ _ Hr) as (x & Hx).
  unfold group_text. rewrite Hx.
  destruct (reads_group_body n r _ _ _ Hr Hx) as (r0 & cs0 & Hi & H0).
  rewrite Hb in Hi. destruct Hi as [<- | []].
  apply reads_Plus_class in H0. destruct H0 as (_ & Hne & Hw).
  split; assumption.
Qed.

(** An optional group whose only body is [\w+] holds an identifier
    whenever it took part. *)
Lemma exec_all_optional_identifier (n : nat) (r : regex) (src : text) :
  groups_outside_star r = true ->
  group_bodies n r = [Plus wd] ->
  Forall (fun m => forall x, group n (groups m) = Some x -> identifier x)
    (exec_all r src).
Proof.
  intros Hg Hb. apply exec_all_attempts. intros j m _ Hm x Hx.
  destruct (attempt_reads _ _ _ _ Hg Hm) as (_ & _ & Hr).
  destruct (reads_group_body n r _ _ _ Hr Hx) as (r0 & cs0 & Hi & H0).
  rewrite Hb in Hi. destruct Hi as [<- | []].
  apply reads_Plus_class in H0. destruct H0 as (_ & Hne & Hw).
  split; assumption.
Qed.

(** A group whose only body is a starred class holds code units of
    that class only. *)
Lemma exec_all_class_run (n : nat) (r : regex) (p : ascii -> bool)
      (src : text) :
  groups_outside_star r = true ->
  group_bodies n r = [Star (Class p)] ->
  Forall (fun m => forall x, group n (groups m) = Some x ->
                             Forall (fun c => p c = true) x)
    (exec_all r src).
Proof.
  intros Hg Hb. apply exec_all_attempts. intros j m _ Hm x Hx.
  destruct (attempt_reads _ _ _ _ Hg Hm) as (_ & _ & Hr).
  destruct (reads_group_body n r _ _ _ Hr Hx) as (r0 & cs0 & Hi & H0).
  rewrite Hb in Hi. destruct Hi as [<- | []].
  apply reads_Star_class in H0. now destruct H0.
Qed.

Lemma truthy_some (o : option text) (x : text) :
  truthy o = Some x -> o = Some x /\ x <> [].
Proof.
  destruct o as [[|c t]|]; simpl; intro H; try discriminate.
  injection H as <-. split; [reflexivity | discriminate].
Qed.

(** The methods of a class body are named by identifiers. *)
Lemma extractClassMethods_identifiers (source : text) (classStart : nat) :
  Forall (fun m => identifier (method_name m))
    (extractClassMethods source classStart).
Proof.
  unfold extractClassMethods.
  destruct (indexOf "{"%char classStart source) as [b|]; [|constructor].
  apply Forall_map. rewrite collect_methods_names.
  apply Forall_forall. intros name Hin. apply filter_In in Hin.
  destruct Hin as (Hin & _). apply in_map_iff in Hin.
  destruct Hin as (m & <- & Hin).
  pose proof (exec_all_identifier 1 methodRegex (classBody source b)
                eq_refl eq_refl eq_refl) as H.
  rewrite Forall_forall in H. now apply H.
Qed.

Lemma Forall_map_intro {A B} (f : A -> B) (Q : A -> Prop) (R : B -> Prop)
      (l : list A) :
  (forall a, Q a -> R (f a)) -> Forall Q l -> Forall R (map f l).
Proof.
  intros H HF. apply Forall_map. revert HF. apply Forall_impl. exact H.
Qed.

(** X6. Every name the extractors hand on is an identifier, a
    non-empty run of word characters: the name of each JavaScript
    symbol (the anonymous default export is named [default]), of each
    method of a class and of the base class when there is one, and
    the name of each Python symbol, which for a function does not
    begin with an underscore.  Python classes carry no methods. *)
Theorem X6_names_are_identifiers (source : text) :
  Forall (fun e => identifier (symbol_name e)
                   /\ Forall (fun m => identifier (method_name m))
                        (symbol_methods e)
                   /\ (forall b, symbol_extends e = Some b -> identifier b))
    (extractJSExports source)
  /\ Forall (fun e => identifier (symbol_name e)
                      /\ symbol_methods e = []
                      /\ (is_function e = true ->
                          startsWith (txt "_") (symbol_name e) = false))
       (extractPythonExports source).
Proof.
  split.
  - unfold extractJSExports. rewrite !Forall_app. repeat split.
    + eapply Forall_map_intro;
        [| exact (exec_all_identifier 1 namedFuncRegex source
                    eq_refl eq_refl eq_refl)].
      intros m H. cbn. split; [exact H | split; [constructor | discriminate]].
    + eapply Forall_map_intro;
        [| exact (exec_all_identifier 1 arrowFuncRegex source
                    eq_refl eq_refl eq_refl)].
      intros m H. cbn. split; [exact H | split; [constructor | discriminate]].
    + pose proof (exec_all_identifier 1 classRegex source
                    eq_refl eq_refl eq_refl) as H1.
      pose proof (exec_all_optional_identifier 2 classRegex source
                    eq_refl eq_refl) as H2.
      rewrite Forall_forall in H1, H2. apply Forall_map, Forall_forall.
      intros m Hin. cbn [exported_class symbol_name symbol_methods symbol_extends].
      split; [now apply H1|]. split; [apply extractClassMethods_identifiers|].
      intros b Hb. apply truthy_some in Hb. destruct Hb as (Hb & _).
      now apply (H2 m Hin).
    + pose proof (exec_all_class_run 1 defaultFuncRegex is_word source
                    eq_refl eq_refl) as H1.
      rewrite Forall_forall in H1. apply Forall_map, Forall_forall.
      intros m Hin. cbn [default_function symbol_name symbol_methods symbol_extends].
      split; [| split; [constructor | discriminate]].
      destruct (truthy (group 1 (groups m))) as [x|] eqn:E.
      * apply truthy_some in E. destruct E as (E & Hne).
        split; [exact Hne | now apply (H1 m Hin)].
      * split; [discriminate | repeat constructor].
  - unfold extractPythonExports. rewrite Forall_app. split.
    + pose proof (exec_all_identifier 1 pyFuncRegex source
                    eq_refl eq_refl eq_refl) as H.
      induction H as [|m ms Hm _ IH]; cbn [collect_py_functions]; [constructor|].
      destruct (startsWith (txt "_") (group_text 1 m)) eqn:E; [exact IH|].
      constructor; [|exact IH]. cbn. split; [exact Hm | split; [reflexivity | intros _; exact E]].
    + eapply Forall_map_intro;
        [| exact (exec_all_identifier 1 pyClassRegex source
                    eq_refl eq_refl eq_refl)].
      intros m H. cbn. split; [exact H | split; [reflexivity | discriminate]].
Qed.


(** ** Signatures *)

Lemma trimStart_spec (s : text) :
  exists a, s = a ++ trimStart s /\ all_space a
            /\ forall c, hd_error (trimStart s) = Some c -> is_space c = false.
Proof.
  induction s as [|x s IH]; cbn [trimStart].
  - exists []. repeat split; [constructor | discriminate].
  - destruct (is_space x) eqn:E.
    + destruct IH as (a & Hs & Ha & Hh). exists (x :: a).
      repeat split; [simpl; now f_equal | now constructor | exact Hh].
    + exists []. repeat split; [constructor|].
      intros c H. injection H as <-. exact E.
Qed.

Lemma trimEnd_spec (s : text) :
  exists b, s = trimEnd s ++ b /\ all_space b
            /\ forall c, hd_error (rev (trimEnd s)) = Some c -> is_space c = false.
Proof.
  unfold trimEnd. destruct (trimStart_spec (rev s)) as (a & Hs & Ha & Hh).
  exists (rev a). repeat split.
  - rewrite <- rev_app_distr, <- Hs. now rewrite rev_involutive.
  - unfold all_space in *. apply Forall_rev. exact Ha.
  - rewrite rev_involutive. exact Hh.
Qed.

(** [trim] takes blanks off both ends, and nothing else. *)
Lemma trim_spec (s : text) :
  exists a b, s = a ++ trim s ++ b /\ all_space a /\ all_space b
              /\ trimmed (trim s).
Proof.
  unfold trim. destruct (trimStart_spec s) as (a & Hs & Ha & Hh).
  destruct (trimEnd_spec (trimStart s)) as (b & Hu & Hb & Hl).
  exists a, b. repeat split; try assumption.
  - now rewrite <- Hu.
  - intros c Hc. apply Hh. rewrite Hu.
    destruct (trimEnd (trimStart s)); [discriminate | exact Hc].
Qed.

Lemma trim_in (c : ascii) (s : text) : In c (trim s) -> In c s.
Proof.
  destruct (trim_spec s) as (a & b & Hs & _). intro H. rewrite Hs.
  apply in_or_app. right. apply in_or_app. now left.
Qed.

Lemma call_signature_form (name params : text) :
  ~ In ")"%char params -> call_form name (call_signature name params).
Proof.
  intro H. exists (trim params). split; [reflexivity|]. split.
  - destruct (trim_spec params) as (a & b & _ & _ & _ & Ht). exact Ht.
  - intro Hin. apply H. now apply trim_in.
Qed.

(** The second group of a pattern whose body is [[^)]*] holds no
    closing parenthesis. *)
Lemma exec_all_params (r : regex) (src : text) :
  groups_outside_star r = true ->
  group_bodies 2 r = [Star (not_char ")"%char)] ->
  Forall (fun m => ~ In ")"%char (group_text 2 m)) (exec_all r src).
Proof.
  intros Hg Hb.
  pose proof (exec_all_class_run 2 r _ src Hg Hb) as H.
  revert H. apply Forall_impl. intros m H. unfold group_text.
  destruct (group 2 (groups m)) as [x|]; [|intros []].
  apply not_in_char. now apply H.
Qed.

(** X7. The signature of every function symbol, JavaScript or Python,
    and of every method has the form [name(params)]: the symbol's own
    name, an opening parenthesis, a parameter text with no blank at
    either end and no closing parenthesis in it, and one closing
    parenthesis. *)
Theorem X7_signatures_have_call_form (source : text) (classStart : nat) :
  Forall (fun e => is_function e = true ->
                   call_form (symbol_name e) (symbol_signature e))
    (extractJSExports source)
  /\ Forall (fun e => is_function e = true ->
                      call_form (symbol_name e) (symbol_signature e))
       (extractPythonExports source)
  /\ Forall (fun m => call_form (method_name m) (method_signature m))
       (extractClassMethods source classStart).
Proof.
  split; [|split].
  - unfold extractJSExports. rewrite !Forall_app. repeat split.
    + eapply Forall_map_intro;
        [| exact (exec_all_params namedFuncRegex source eq_refl eq_refl)].
      intros m H _. now apply call_signature_form.
    + eapply Forall_map_intro;
        [| exact (exec_all_params arrowFuncRegex source eq_refl eq_refl)].
      intros m H _. now apply call_signature_form.
    + apply Forall_map, Forall_forall. intros m _ H. discriminate H.
    + eapply Forall_map_intro;
        [| exact (exec_all_params defaultFuncRegex source eq_refl eq_refl)].
      intros m H _. now apply call_signature_form.
  - unfold extractPythonExports. rewrite Forall_app. split.
    + pose proof (exec_all_params pyFuncRegex source eq_refl eq_refl) as H.
      induction H as [|m ms Hm _ IH]; cbn [collect_py_functions]; [constructor|].
      destruct (startsWith (txt "_") (group_text 1 m)); [exact IH|].
      constructor; [|exact IH]. intros _. now apply call_signature_form.
    + apply Forall_map, Forall_forall. intros m _ H. discriminate H.
  - unfold extractClassMethods.
    destruct (indexOf "{"%char classStart source) as [b|]; [|constructor].
    pose proof (exec_all_params methodRegex (classBody source b)
                  eq_refl eq_refl) as H.
    induction H as [|m ms Hm _ IH]; cbn [collect_methods]; [constructor|].
    destruct (is_control_keyword (group_text 1 m)); [exact IH|].
    constructor; [|exact IH]. now apply call_signature_form.
Qed.


(** ** The class body ends where its brace closes *)

Lemma scan_braces_app (s t : text) :
  forall i d e, scan_braces s i d = Some e -> scan_braces (s ++ t) i d = Some e.
Proof.
  induction s as [|c s IH]; intros i d e H; [discriminate|].
  cbn [scan_braces app] in *.
  destruct (Ascii.eqb c "}"%char).
  - destruct (_ =? 0)%Z; [exact H | now apply IH].
  - now apply IH.
Qed.

Lemma indexOf_app (c : ascii) (from b : nat) (s t : text) :
  indexOf c from s = Some b -> indexOf c from (s ++ t) = Some b.
Proof.
  intro H. apply indexOf_some in H. destruct H as (H1 & H2 & H3).
  assert (Hb : b < length s) by (apply nth_error_Some; congruence).
  apply indexOf_first; [exact H1 | |].
  - rewrite nth_error_app1; assumption.
  - intros i Hi Hlt. rewrite nth_error_app1; [auto | lia].
Qed.

Lemma skipn_app_within (a : nat) (s t : text) :
  a <= length s -> skipn a (s ++ t) = skipn a s ++ t.
Proof.
  intro H. rewrite skipn_app. replace (a - length s) with 0 by lia. reflexivity.
Qed.

Lemma slice_app_within (a e : nat) (s t : text) :
  a <= length s -> e <= length s -> slice a e (s ++ t) = slice a e s.
Proof.
  intros Ha He. unfold slice. rewrite skipn_app_within by exact Ha.
  rewrite firstn_app, length_skipn.
  replace (e - a - (length s - a)) with 0 by lia.
  cbn [firstn]. apply app_nil_r.
Qed.

(** X8. The methods of a class whose body closes are read from that
    body alone: whatever text follows the file, the scanner stops at
    the same closing brace and returns the same methods. *)
Theorem X8_methods_stop_at_closing_brace (source tail : text)
        (classStart b : nat) :
  indexOf "{"%char classStart source = Some b ->
  classBodyEnd source b < length source ->
  classBodyEnd (source ++ tail) b = classBodyEnd source b
  /\ extractClassMethods (source ++ tail) classStart
     = extractClassMethods source classStart.
Proof.
  intros Hb He.
  assert (Hlen : b < length source).
  { apply indexOf_some in Hb. destruct Hb as (_ & Hb & _).
    apply nth_error_Some. congruence. }
  assert (E : classBodyEnd (source ++ tail) b = classBodyEnd source b).
  { unfold classBodyEnd in *. rewrite skipn_app_within by lia.
    destruct (scan_braces (skipn b source) b 0%Z) as [e|] eqn:S; [|lia].
    now rewrite (scan_braces_app _ tail _ _ _ S). }
  split; [exact E|].
  unfold extractClassMethods. rewrite (indexOf_app _ _ _ _ tail Hb), Hb.
  unfold classBody. rewrite E, slice_app_within; [reflexivity | lia | lia].
Qed.

(** An instance: the function that follows the class is no method. *)
Lemma X8_witness :
  indexOf "{"%char 0 closed_class_source = Some 15
  /\ classBodyEnd closed_class_source 15 < length closed_class_source
  /\ extractClassMethods (closed_class_source ++ following_source) 0
     = [Method (txt "m") (txt "m()")].
Proof.
  split; [reflexivity|]. split; [vm_compute; lia|].
  rewrite (proj2 (X8_methods_stop_at_closing_brace closed_class_source
                    following_source 0 15 eq_refl
                    ltac:(vm_compute; lia))).
  reflexivity.
Defined.

(** ** The async flag of a Python function *)

Lemma trim_fixed (c z : ascii) (s : text) :
  is_space c = false -> is_space z = false ->
  trim (c :: s ++ [z]) = c :: s ++ [z].
Proof.
  intros Hc Hz. unfold trim, trimEnd. cbn [trimStart]. rewrite Hc.
  cbn [rev]. rewrite rev_app_distr. cbn [rev app trimStart]. rewrite Hz.
  cbn [rev]. rewrite rev_app_distr, rev_involutive. reflexivity.
Qed.

(** The text of a Python definition has no blank at either end, and
    begins with [async] exactly when the keyword is there. *)
Lemma py_def_text_async (t name params : text) :
  py_def_text t name params ->
  trim t = t
  /\ (startsWith (txt "async") t = true <->
      exists w rest, t = txt "async" ++ w ++ txt "def" ++ rest
                     /\ w <> [] /\ all_space w).
Proof.
  intros (pre & sp & sp' & -> & Hpre & _). destruct Hpre as [-> | (w & -> & Hw & Hs)].
  - split.
    + change (txt "def" ++ sp ++ name ++ sp' ++ txt "(" ++ params ++ txt ")")
        with ("d"%char :: (txt "ef" ++ sp ++ name ++ sp' ++ txt "(" ++ params ++ txt ")")).
      replace (txt "ef" ++ sp ++ name ++ sp' ++ txt "(" ++ params ++ txt ")")
        with ((txt "ef" ++ sp ++ name ++ sp' ++ txt "(" ++ params) ++ [")"%char])
        by (now rewrite <- !app_assoc).
      now apply trim_fixed.
    + split; [discriminate|]. intros (w & rest & H & _). discriminate H.
  - split.
    + change ((txt "async" ++ w) ++ txt "def" ++ sp ++ name ++ sp' ++ txt "(" ++ params ++ txt ")")
        with ("a"%char :: (txt "sync" ++ w) ++ txt "def" ++ sp ++ name ++ sp' ++ txt "(" ++ params ++ txt ")").
      replace ((txt "sync" ++ w) ++ txt "def" ++ sp ++ name ++ sp' ++ txt "(" ++ params ++ txt ")")
        with (((txt "sync" ++ w) ++ txt "def" ++ sp ++ name ++ sp' ++ txt "(" ++ params) ++ [")"%char])
        by (now rewrite <- !app_assoc).
      now apply trim_fixed.
    + split; [|reflexivity]. intros _.
      exists w, (sp ++ name ++ sp' ++ txt "(" ++ params ++ txt ")").
      split; [now rewrite <- app_assoc | split; assumption].
Qed.

(** X9. The async flag of a Python function symbol is set exactly
    when its definition, at the start of a line, begins with the
    keyword [async] followed by blanks and [def]: the matched text has
    no blank at either end, so the [trim] before the test changes
    nothing, and a name that merely begins with these letters does not
    set the flag. *)
Theorem X9_python_async_flag (source : text) :
  Forall (fun e =>
            exists i j params,
              line_start source i
              /\ py_def_text (slice i j source) (symbol_name e) params
              /\ symbol_async e = startsWith (txt "async") (slice i j source)
              /\ (symbol_async e = true <->
                  exists w rest,
                    slice i j source = txt "async" ++ w ++ txt "def" ++ rest
                    /\ w <> [] /\ all_space w))
    (filter is_function (extractPythonExports source)).
Proof.
  rewrite python_function_symbols.
  apply collect_py_functions_Forall
    with (R := fun m => matched m = slice (index m) (lastIndex m) source
                        /\ line_start source (index m)
                        /\ py_def_text (slice (index m) (lastIndex m) source)
                                       (group_text 1 m) (group_text 2 m)).
  - intros m (Hm & L & T) _. cbn [symbol_name symbol_async].
    exists (index m), (lastIndex m), (group_text 2 m).
    destruct (py_def_text_async _ _ _ T) as (Ht & Ha).
    rewrite Hm, Ht. repeat split; try assumption; apply Ha.
  - apply exec_all_attempts. intros j m Hj Ha. split.
    + destruct (attempt_reads _ _ _ _
                  (eq_refl : groups_outside_star pyFuncRegex = true) Ha)
        as (Hi & Ht & _).
      now rewrite Hi.
    + eapply py_function_match; eassumption.
Qed.

(** ** Sources without the keyword *)

Lemma exec_all_nil (r : regex) (src : text) :
  (forall j m, attempt r src j = Some m -> False) -> exec_all r src = [].
Proof.
  intro H.
  assert (F : Forall (fun _ => False) (exec_all r src)).
  { apply exec_all_attempts. intros j m _ Hm. exact (H j m Hm). }
  destruct (exec_all r src) as [|m ms]; [reflexivity|].
  inversion F; contradiction.
Qed.

Lemma includes_slice (p s : text) (a b : nat) :
  includes p (slice a b s) = true -> includes p s = true.
Proof.
  intro H. unfold slice in H.
  rewrite <- (firstn_skipn a s). apply includes_app_r.
  rewrite <- (firstn_skipn (b - a) (skipn a s)). now apply includes_app_l.
Qed.

(** A pattern all of whose texts include [kw] finds nothing in a
    source that does not include it. *)
Lemma exec_all_keyword (kw : text) (r : regex) (src : text) :
  groups_outside_star r = true ->
  (forall t cs, reads r t cs -> includes kw t = true) ->
  includes kw src = false -> exec_all r src = [].
Proof.
  intros Hg Hr Hs. apply exec_all_nil. intros j m Hm.
  destruct (attempt_reads _ _ _ _ Hg Hm) as (_ & Ht & R).
  apply Hr in R. rewrite Ht in R. apply includes_slice in R. congruence.
Qed.

Lemma reads_export_first (rs : regex) (t : text) (cs : list (nat * text)) :
  reads (Seq (Word "export") rs) t cs -> includes (txt "export") t = true.
Proof.
  intro H. apply reads_Seq in H.
  destruct H as (t1 & t2 & c1 & c2 & -> & _ & H & _).
  apply reads_Word in H. destruct H as (-> & _).
  apply (includes_intro _ []).
Qed.

Lemma filter_class_py_functions (ms : list rx_match) :
  filter is_class (collect_py_functions ms) = [].
Proof.
  induction ms as [|m ms IH]; [reflexivity|]. cbn [collect_py_functions].
  destruct (startsWith (txt "_") (group_text 1 m)); exact IH.
Qed.

(** X10. No result without the keyword: a source that does not
    include [export] has no JavaScript export, one that does not
    include [import] has no import in either language, one that does
    not include [def] has no Python function and one that does not
    include [class] no Python class. *)
Theorem X10_nothing_without_keyword (source : text) :
  (includes (txt "export") source = false -> extractJSExports source = [])
  /\ (includes (txt "import") source = false ->
      extractJSImports source = [] /\ extractPythonImports source = [])
  /\ (includes (txt "def") source = false ->
      filter is_function (extractPythonExports source) = [])
  /\ (includes (txt "class") source = false ->
      filter is_class (extractPythonExports source) = []).
Proof.
  split; [|split; [|split]]; intro H.
  - unfold extractJSExports.
    rewrite (exec_all_keyword (txt "export") namedFuncRegex source eq_refl
               (reads_export_first _) H).
    rewrite (exec_all_keyword (txt "export") arrowFuncRegex source eq_refl
               (reads_export_first _) H).
    rewrite (exec_all_keyword (txt "export") classRegex source eq_refl
               (reads_export_first _) H).
    rewrite (exec_all_keyword (txt "export") defaultFuncRegex source eq_refl
               (reads_export_first _) H).
    reflexivity.
  - unfold extractJSImports, extractPythonImports.
    rewrite (exec_all_keyword (txt "import") jsImportRegex source eq_refl).
    + rewrite (exec_all_keyword (txt "import") pyImportRegex source eq_refl);
        [split; reflexivity | | exact H].
      intros t cs R. apply reads_pyImportRegex in R.
      destruct R as (ref & _ & _ & _ & [(sp & sp' & -> & _) | (sp & -> & _)]).
      * replace (txt "from" ++ sp ++ ref ++ sp' ++ txt "import")
          with ((txt "from" ++ sp ++ ref ++ sp') ++ txt "import" ++ [])
          by (now rewrite <- !app_assoc, app_nil_r).
        apply includes_intro.
      * apply (includes_intro _ []).
    + intros t cs R. apply reads_jsImportRegex in R.
      destruct R as (ref & _ & sp & clause & q1 & q2 & -> & _).
      apply (includes_intro _ []).
    + exact H.
  - rewrite python_function_symbols.
    rewrite (exec_all_keyword (txt "def") pyFuncRegex source eq_refl);
      [reflexivity | | exact H].
    intros t cs R. apply reads_pyFuncRegex in R.
    destruct R as (name & params & _ & pre & sp & sp' & -> & _).
    apply includes_intro.
  - unfold extractPythonExports. rewrite filter_app, filter_class_py_functions.
    rewrite (exec_all_keyword (txt "class") pyClassRegex source eq_refl);
      [reflexivity | | exact H].
    intros t cs R. unfold pyClassRegex in R. cbn [seqs] in R.
    apply reads_Seq in R. destruct R as (t0 & t1 & c0 & c1 & -> & _ & H0 & R).
    destruct H0 as (-> & _).
    apply reads_Seq in R. destruct R as (t2 & t3 & c2 & c3 & -> & _ & H2 & _).
    apply reads_Word in H2. destruct H2 as (-> & _).
    apply (includes_intro _ []).
Qed.

(** An instance: a script that declares a global function. *)
Lemma X10_witness :
  extractJSExports (txt "function run() {} window.run = run") = [].
Proof.
  apply (proj1 (X10_nothing_without_keyword
                  (txt "function run() {} window.run = run"))).
  reflexivity.
Defined.


(* ================================================================== *)
(** * The code block of a response                                     *)
(* ================================================================== *)

(** ** States along the text *)

Lemma skip_nil (n : nat) (st : mstate) : rest st = [] -> skip n st = st.
Proof. intro H. destruct n; cbn [skip]; [reflexivity | now rewrite H]. Qed.

Lemma skip_S (n : nat) (st : mstate) (c : ascii) (tl : text) :
  rest st = c :: tl -> skip (S n) st = skip n (advance c tl st).
Proof. intro H. cbn [skip]. now rewrite H. Qed.

Lemma skip_add (a b : nat) :
  forall st, skip (a + b) st = skip b (skip a st).
Proof.
  induction a as [|a IH]; intro st; [reflexivity|].
  destruct (rest st) as [|c tl] eqn:E.
  - now rewrite (skip_nil (S a + b) st E), (skip_nil (S a) st E), (skip_nil b st E).
  - cbn [Nat.add]. rewrite (skip_S (a + b) _ _ _ E), (skip_S a _ _ _ E). apply IH.
Qed.

Lemma skip_rest (n : nat) :
  forall st, rest (skip n st) = skipn n (rest st).
Proof.
  induction n as [|n IH]; intro st; [reflexivity|].
  destruct (rest st) as [|c tl] eqn:E.
  - rewrite (skip_nil _ st E), E. reflexivity.
  - rewrite (skip_S _ _ _ _ E), IH. reflexivity.
Qed.

Lemma skip_caps (n : nat) : forall st, caps (skip n st) = caps st.
Proof.
  induction n as [|n IH]; intro st; [reflexivity|].
  destruct (rest st) as [|c tl] eqn:E.
  - now rewrite (skip_nil _ st E).
  - rewrite (skip_S _ _ _ _ E), IH. reflexivity.
Qed.

Lemma skip_pos (u : text) :
  forall st tl, rest st = u ++ tl ->
  pos (skip (length u) st) = pos st + length u.
Proof.
  induction u as [|c u IH]; intros st tl H; cbn [length].
  - cbn [skip]. lia.
  - rewrite (skip_S _ _ _ _ H). rewrite (IH _ tl); [simpl; lia | reflexivity].
Qed.

Lemma skip_app (u : text) (st : mstate) (tl : text) :
  rest st = u ++ tl -> rest (skip (length u) st) = tl.
Proof.
  intro H. rewrite skip_rest, H, skipn_app, Nat.sub_diag, skipn_all.
  reflexivity.
Qed.

(** ** Literal runs *)

Lemma rmatch_Str (s : text) :
  forall st k,
    rmatch (Str s) st k
    = if startsWith s (rest st) then k (skip (length s) st) else None.
Proof.
  induction s as [|c s IH]; intros st k; [reflexivity|].
  destruct s as [|c' s'].
  - change (Str [c]) with (Lit c). cbn [rmatch].
    destruct (rest st) as [|x tl] eqn:E; cbn [startsWith length]; [reflexivity|].
    rewrite andb_true_r, (Ascii.eqb_sym c x).
    destruct (Ascii.eqb x c); [|reflexivity].
    now rewrite (skip_S _ _ _ _ E).
  - change (Str (c :: c' :: s')) with (Seq (Lit c) (Str (c' :: s'))).
    cbn [rmatch].
    destruct (rest st) as [|x tl] eqn:E; [reflexivity|].
    cbn [startsWith]. rewrite (Ascii.eqb_sym c x).
    destruct (Ascii.eqb x c); cbn [andb]; [|reflexivity].
    rewrite IH. change (length (c :: c' :: s')) with (S (length (c' :: s'))).
    rewrite (skip_S (length (c' :: s')) _ _ _ E). reflexivity.
Qed.

Lemma rmatch_CiStr (s : text) :
  forall st k,
    rmatch (CiStr s) st k
    = if ci_startsWith s (rest st) then k (skip (length s) st) else None.
Proof.
  induction s as [|c s IH]; intros st k; [reflexivity|].
  destruct s as [|c' s'].
  - change (CiStr [c]) with (CiLit c). unfold CiLit. cbn [rmatch].
    destruct (rest st) as [|x tl] eqn:E; cbn [ci_startsWith length]; [reflexivity|].
    rewrite andb_true_r. destruct (Ascii.eqb _ _); [|reflexivity].
    now rewrite (skip_S _ _ _ _ E).
  - change (CiStr (c :: c' :: s')) with (Seq (CiLit c) (CiStr (c' :: s'))).
    unfold CiLit at 1. cbn [rmatch].
    destruct (rest st) as [|x tl] eqn:E; [reflexivity|].
    cbn [ci_startsWith]. destruct (Ascii.eqb _ _); cbn [andb]; [|reflexivity].
    rewrite IH. change (length (c :: c' :: s')) with (S (length (c' :: s'))).
    rewrite (skip_S (length (c' :: s')) _ _ _ E). reflexivity.
Qed.

(** Letter case does not touch a backtick or a line feed. *)
Lemma canonicalize_backtick (x : ascii) :
  Ascii.eqb (canonicalize x) (canonicalize BACKTICK) = Ascii.eqb BACKTICK x.
Proof. destruct x as [[] [] [] [] [] [] [] []]; reflexivity. Qed.

Lemma canonicalize_LF (x : ascii) :
  Ascii.eqb (canonicalize x) (canonicalize LF) = Ascii.eqb x LF.
Proof. destruct x as [[] [] [] [] [] [] [] []]; reflexivity. Qed.

Lemma ci_startsWith_fence (s : text) :
  ci_startsWith FENCE s = startsWith FENCE s.
Proof.
  unfold FENCE. destruct s as [|x s]; [reflexivity|].
  cbn [ci_startsWith startsWith]. rewrite canonicalize_backtick.
  destruct s as [|y s]; [reflexivity|].
  cbn [ci_startsWith startsWith]. rewrite canonicalize_backtick.
  destruct s as [|z s]; [reflexivity|].
  cbn [ci_startsWith startsWith]. rewrite canonicalize_backtick. reflexivity.
Qed.

(** ** The lazy loop *)

Lemma lazy_loop_hit (k : mstate -> option mstate) (s : text) (st res : mstate) :
  k st = Some res -> lazy_loop k s st = Some res.
Proof. intro H. destruct s; cbn [lazy_loop]; now rewrite H. Qed.

(** The loop passes over a stretch where the continuation fails. *)
Lemma lazy_loop_skip (k : mstate -> option mstate) (u : text) :
  forall st tl, rest st = u ++ tl ->
  (forall j, j < length u -> k (skip j st) = None) ->
  lazy_loop k (u ++ tl) st = lazy_loop k tl (skip (length u) st).
Proof.
  induction u as [|c u IH]; intros st tl Hr Hk; [reflexivity|].
  change ((c :: u) ++ tl) with (c :: u ++ tl) in *.
  cbn [lazy_loop]. change (length (c :: u)) with (S (length u)) in *.
  rewrite (Hk 0 ltac:(lia) : k st = None). cbn [or_else].
  rewrite (skip_S _ _ _ _ Hr). apply IH; [reflexivity|].
  intros j Hj. rewrite <- (skip_S j st c (u ++ tl) Hr). apply Hk. lia.
Qed.

(** Where the loop succeeds, the continuation does, some code units
    further. *)
Lemma lazy_loop_some (k : mstate -> option mstate) (s : text) :
  forall st res, rest st = s -> lazy_loop k s st = Some res ->
  exists j, k (skip j st) = Some res.
Proof.
  induction s as [|c s IH]; intros st res Hr H; cbn [lazy_loop] in H.
  - destruct (k st) eqn:E; [|discriminate]. exists 0. now rewrite <- H.
  - destruct (k st) eqn:E.
    + exists 0. now rewrite <- H.
    + cbn [or_else] in H.
      destruct (IH (advance c s st) res eq_refl H) as (j & Hj).
      exists (S j). now rewrite (skip_S _ _ _ _ Hr).
Qed.

(** ** Where a fence can start *)

Lemma includes_cons_false (p : text) (c : ascii) (s : text) :
  includes p (c :: s) = false ->
  startsWith p (c :: s) = false /\ includes p s = false.
Proof. cbn [includes]. intro H. now apply orb_false_iff in H. Qed.

Lemma includes_skipn (p s : text) (n : nat) :
  includes p (skipn n s) = true -> includes p s = true.
Proof.
  intro H. rewrite <- (firstn_skipn n s). now apply includes_app_r.
Qed.

Lemma startsWith_fence_ahead (c : ascii) (u t : text) :
  startsWith FENCE (c :: u ++ [BACKTICK; BACKTICK]) = false ->
  startsWith FENCE (c :: u ++ FENCE ++ t) = false.
Proof.
  unfold FENCE. destruct u as [|x [|y u]]; cbn [app startsWith]; auto.
Qed.

(** ** The body of the two patterns *)

Section FenceBody.
Variables nl close : regex.
Hypothesis Hnl :
  forall st k,
    rmatch nl st k
    = match rest st with
      | x :: tl => if Ascii.eqb x LF then k (advance x tl st) else None
      | [] => None
      end.
Hypothesis Hclose :
  forall st k,
    rmatch close st k
    = if startsWith FENCE (rest st) then k (skip 3 st) else None.

(** From the end of the tag on: the loop runs to the first line feed,
    the group to the first fence after it. *)
Lemma fence_body_hit (w code post : text) (st : mstate) :
  rest st = w ++ LF :: code ++ FENCE ++ post ->
  ~ In LF w -> no_fence_start code ->
  lmatch (fence_body nl close) st Some = Some (after_block w code st).
Proof.
  intros Hr Hw Hc. unfold fence_body. cbn [lmatch].
  rewrite Hr at 1.
  rewrite lazy_loop_skip; [| exact Hr |].
  - apply lazy_loop_hit. rewrite Hnl.
    pose proof (skip_app w st _ Hr) as Hs. rewrite Hs.
    rewrite Ascii.eqb_refl.
    set (s3 := advance LF (code ++ FENCE ++ post) (skip (length w) st)).
    assert (E3 : s3 = skip (S (length w)) st).
    { replace (S (length w)) with (length w + 1) by lia.
      rewrite skip_add. cbn [skip]. now rewrite Hs. }
    assert (R3 : rest s3 = code ++ FENCE ++ post) by reflexivity.
    rewrite R3 at 1.
    rewrite lazy_loop_skip; [| exact R3 |].
    + apply lazy_loop_hit. rewrite Hclose. cbn [set_cap rest].
      rewrite (skip_app code s3 _ R3).
      change (startsWith FENCE (FENCE ++ post)) with true. cbv iota.
      unfold after_block. rewrite <- E3.
      rewrite (skip_pos code s3 _ R3), R3.
      replace (pos s3 + length code - pos s3) with (length code) by lia.
      rewrite firstn_app, Nat.sub_diag, firstn_all. cbn [firstn].
      now rewrite app_nil_r.
    + intros j Hj. rewrite Hclose. cbn [set_cap rest].
      rewrite skip_rest, R3.
      assert (G : forall u, no_fence_start u -> forall j, j < length u ->
                    startsWith FENCE (skipn j (u ++ FENCE ++ post)) = false).
      { clear. induction u as [|c u IH]; intros Hu j Hj; [simpl in Hj; lia|].
        unfold no_fence_start in Hu. cbn [app] in Hu.
        apply includes_cons_false in Hu. destruct Hu as (H0 & Hu).
        destruct j as [|j].
        - cbn [skipn app]. now apply startsWith_fence_ahead.
        - cbn [skipn app]. apply IH; [exact Hu | simpl in Hj; lia]. }
      now rewrite (G code Hc j Hj).
  - intros j Hj. rewrite Hnl, skip_rest, Hr.
    assert (G : forall u : text, ~ In LF u -> forall j, j < length u ->
                forall t, exists x tl, skipn j (u ++ t) = x :: tl /\ x <> LF).
    { clear. induction u as [|c u IH]; intros Hu j Hj t; [simpl in Hj; lia|].
      destruct j as [|j].
      - exists c, (u ++ t). split; [reflexivity|]. intros ->. apply Hu. now left.
      - cbn [skipn app]. apply IH; [|simpl in Hj; lia].
        intro H. apply Hu. now right. }
    destruct (G w Hw j Hj (LF :: code ++ FENCE ++ post)) as (x & tl & -> & Hx).
    destruct (Ascii.eqb x LF) eqn:E; [|reflexivity].
    apply Ascii.eqb_eq in E. contradiction.
Qed.

(** A match of the body has a fence ahead. *)
Lemma fence_body_some (st res : mstate) (k : mstate -> option mstate) :
  lmatch (fence_body nl close) st k = Some res ->
  includes FENCE (rest st) = true.
Proof.
  unfold fence_body. cbn [lmatch]. intro H.
  apply (lazy_loop_some _ _ _ _ eq_refl) in H. destruct H as (j & H).
  rewrite Hnl in H. destruct (rest (skip j st)) as [|x tl] eqn:E; [discriminate|].
  destruct (Ascii.eqb x LF); [|discriminate].
  apply (lazy_loop_some _ _ _ _ eq_refl) in H. destruct H as (j' & H).
  rewrite Hclose in H. cbn [set_cap rest] in H.
  destruct (startsWith FENCE (rest (skip j' (advance x tl (skip j st))))) eqn:S;
    [|discriminate].
  rewrite skip_rest in S. cbn [advance rest] in S.
  apply startsWith_spec in S. destruct S as (b & S).
  apply (includes_skipn _ _ j). rewrite <- skip_rest, E.
  apply (includes_app_r _ [x]). apply (includes_skipn _ _ j'). rewrite S.
  apply (includes_intro _ []).
Qed.

End FenceBody.

Lemma rmatch_Lit_LF (st : mstate) (k : mstate -> option mstate) :
  rmatch (Lit LF) st k
  = match rest st with
    | x :: tl => if Ascii.eqb x LF then k (advance x tl st) else None
    | [] => None
    end.
Proof. reflexivity. Qed.

Lemma rmatch_CiLit_LF (st : mstate) (k : mstate -> option mstate) :
  rmatch (CiLit LF) st k
  = match rest st with
    | x :: tl => if Ascii.eqb x LF then k (advance x tl st) else None
    | [] => None
    end.
Proof.
  unfold CiLit. cbn [rmatch]. destruct (rest st) as [|x tl]; [reflexivity|].
  now rewrite canonicalize_LF.
Qed.

Lemma rmatch_Str_fence (st : mstate) (k : mstate -> option mstate) :
  rmatch (Str FENCE) st k
  = if startsWith FENCE (rest st) then k (skip 3 st) else None.
Proof. apply rmatch_Str. Qed.

Lemma rmatch_CiStr_fence (st : mstate) (k : mstate -> option mstate) :
  rmatch (CiStr FENCE) st k
  = if startsWith FENCE (rest st) then k (skip 3 st) else None.
Proof. rewrite rmatch_CiStr, ci_startsWith_fence. reflexivity. Qed.

(** ** The search *)

Lemma lsearch_hit (r : lazy_regex) (i : nat) (p : option ascii) (s : text)
      (m : rx_match) :
  lmatch_at r i p s = Some m -> lsearch r i p s = Some m.
Proof. intro H. destruct s; cbn [lsearch]; now rewrite H. Qed.

(** The search passes over a stretch where no attempt succeeds. *)
Lemma lsearch_skip (r : lazy_regex) (u s : text) :
  (forall a v i p, u = a ++ v -> v <> [] -> lmatch_at r i p (v ++ s) = None) ->
  forall i p, exists p', lsearch r i p (u ++ s) = lsearch r (i + length u) p' s.
Proof.
  induction u as [|c u IH]; intros H i p.
  - exists p. now rewrite Nat.add_0_r.
  - change ((c :: u) ++ s) with (c :: u ++ s). cbn [lsearch].
    pose proof (H [] (c :: u) i p eq_refl ltac:(discriminate)) as H0.
    change ((c :: u) ++ s) with (c :: u ++ s) in H0. rewrite H0.
    destruct (IH (fun a v i p E => H (c :: a) v i p (f_equal (cons c) E))
                (S i) (Some c)) as (p' & E).
    exists p'. rewrite E. cbn [length]. f_equal. lia.
Qed.

Lemma lsearch_none (r : lazy_regex) (s : text) :
  (forall a v i p, s = a ++ v -> lmatch_at r i p v = None) ->
  forall i p, lsearch r i p s = None.
Proof.
  induction s as [|c s IH]; intros H i p; cbn [lsearch].
  - now rewrite (H [] [] i p eq_refl).
  - rewrite (H [] (c :: s) i p eq_refl).
    apply IH. intros a v i' p' E. apply (H (c :: a)). now rewrite E.
Qed.

(** No attempt succeeds where no fence starts. *)
Lemma fencedWithLang_needs_fence (lang : language) (i : nat)
      (p : option ascii) (s : text) :
  startsWith FENCE s = false -> lmatch_at (fencedWithLang lang) i p s = None.
Proof.
  intro H. unfold lmatch_at, fencedWithLang. cbn [lmatch].
  rewrite rmatch_CiStr_fence. cbn [rest]. now rewrite H.
Qed.

Lemma fencedAny_needs_fence (i : nat) (p : option ascii) (s : text) :
  startsWith FENCE s = false -> lmatch_at fencedAny i p s = None.
Proof.
  intro H. unfold lmatch_at, fencedAny. cbn [lmatch].
  rewrite rmatch_Str_fence. cbn [rest]. now rewrite H.
Qed.

Lemma no_fence_suffix (a v : text) :
  includes FENCE (a ++ v) = false -> startsWith FENCE v = false.
Proof.
  intro H. destruct (startsWith FENCE v) eqn:E; [|reflexivity].
  apply startsWith_spec in E. destruct E as (b & ->).
  now rewrite includes_intro in H.
Qed.

Lemma no_fence_start_suffix (u : text) :
  no_fence_start u ->
  forall a v t, u = a ++ v -> v <> [] -> startsWith FENCE (v ++ FENCE ++ t) = false.
Proof.
  induction u as [|c u IH]; intros Hu a v t E Hv.
  - destruct a, v; try discriminate. now destruct Hv.
  - unfold no_fence_start in Hu. cbn [app] in Hu.
    apply includes_cons_false in Hu. destruct Hu as (H0 & Hu).
    destruct a as [|x a]; cbn [app] in E.
    + subst v. cbn [app]. now apply startsWith_fence_ahead.
    + injection E as _ E. now apply (IH Hu a).
Qed.


(** ** The tags *)

Lemma fence_tags_letters (lang : language) (a : text) :
  In a (fence_tags lang) -> Forall (fun c => between 97 122 c = true) a.
Proof.
  destruct lang; cbn [fence_tags language_name In];
    intros [<- | [<- | [<- | [<- | [<- | [<- | [<- | []]]]]]]];
    repeat constructor.
Qed.

Lemma letter_not_LF (c : ascii) :
  between 97 122 c = true ->
  Ascii.eqb (canonicalize LF) (canonicalize c) = false.
Proof.
  destruct c as [[] [] [] [] [] [] [] []]; vm_compute; intro H;
    try reflexivity; discriminate H.
Qed.

(** A tag cannot reach beyond the line feed. *)
Lemma ci_prefix_within (b : text) :
  Forall (fun c => between 97 122 c = true) b ->
  forall w t, ci_startsWith b (w ++ LF :: t) = true -> length b <= length w.
Proof.
  induction 1 as [|c b Hc _ IH]; intros w t H; [simpl; lia|].
  destruct w as [|x w]; cbn [app ci_startsWith] in H.
  - rewrite (letter_not_LF c Hc) in H. discriminate.
  - apply andb_true_iff in H. destruct H as (_ & H).
    specialize (IH _ _ H). simpl. lia.
Qed.

Lemma ci_startsWith_app (a : text) :
  forall tag t, map canonicalize tag = map canonicalize a ->
  ci_startsWith a (tag ++ t) = true.
Proof.
  induction a as [|c a IH]; intros tag t H; [reflexivity|].
  destruct tag as [|x tag]; [discriminate|].
  cbn [map] in H. injection H as Hx H.
  cbn [app ci_startsWith]. rewrite Hx, Ascii.eqb_refl. now apply IH.
Qed.

Lemma ci_tag_no_LF (lang : language) (tag : text) :
  ci_tag lang tag -> ~ In LF tag.
Proof.
  intros (a & Ha & E) Hin. apply fence_tags_letters in Ha.
  apply (in_map canonicalize) in Hin. rewrite E in Hin.
  apply in_map_iff in Hin. destruct Hin as (c & Hc & Hin).
  rewrite Forall_forall in Ha. specialize (Ha c Hin).
  apply letter_not_LF in Ha. rewrite <- Hc, Ascii.eqb_refl in Ha. discriminate.
Qed.

(** Alternatives that agree on their result. *)
Lemma alts_uniform (rs : list regex) (st res : mstate)
      (k : mstate -> option mstate) :
  (forall r, In r rs -> rmatch r st k = None \/ rmatch r st k = Some res) ->
  (exists r, In r rs /\ rmatch r st k = Some res) ->
  rmatch (alts rs) st k = Some res.
Proof.
  induction rs as [|r rs IH]; intros Hall (r0 & Hin & H0); [destruct Hin|].
  destruct rs as [|r' rs].
  - destruct Hin as [<- | []]. exact H0.
  - change (alts (r :: r' :: rs)) with (Alt r (alts (r' :: rs))).
    cbn [rmatch]. destruct (Hall r (or_introl eq_refl)) as [E | E]; rewrite E.
    + cbn [or_else]. apply IH.
      * intros r1 H1. apply Hall. now right.
      * destruct Hin as [<- | Hin]; [congruence|]. now exists r0.
    + reflexivity.
Qed.

Lemma alts_none (rs : list regex) (st : mstate) (k : mstate -> option mstate) :
  rs <> [] -> (forall r, In r rs -> rmatch r st k = None) ->
  rmatch (alts rs) st k = None.
Proof.
  induction rs as [|r rs IH]; intros Hne Hall; [now destruct Hne|].
  destruct rs as [|r' rs].
  - apply Hall. now left.
  - change (alts (r :: r' :: rs)) with (Alt r (alts (r' :: rs))).
    cbn [rmatch]. rewrite (Hall r (or_introl eq_refl)). cbn [or_else].
    apply IH; [discriminate|]. intros r1 H1. apply Hall. now right.
Qed.

Lemma lmatch_fencedWithLang (lang : language) (st : mstate)
      (k : mstate -> option mstate) :
  lmatch (fencedWithLang lang) st k
  = rmatch (CiStr FENCE) st
      (fun s1 => rmatch (alts (map CiStr (fence_tags lang))) s1
                   (fun s2 => lmatch (fence_body (CiLit LF) (CiStr FENCE)) s2 k)).
Proof. reflexivity. Qed.

Lemma lmatch_fencedAny (st : mstate) (k : mstate -> option mstate) :
  lmatch fencedAny st k
  = rmatch (Str FENCE) st
      (fun s1 => lmatch (fence_body (Lit LF) (Str FENCE)) s1 k).
Proof. reflexivity. Qed.

Lemma after_block_caps (w code : text) (st : mstate) :
  caps (after_block w code st) = (1, code) :: caps st.
Proof.
  unfold after_block. rewrite skip_caps. cbn [set_cap caps].
  now rewrite !skip_caps.
Qed.

(** Every tag that fits leads to the same end of the block. *)
Lemma tags_hit (lang : language) (tag info code post : text) (st : mstate) :
  rest st = (tag ++ info) ++ LF :: code ++ FENCE ++ post ->
  ci_tag lang tag -> ~ In LF info -> no_fence_start code ->
  rmatch (alts (map CiStr (fence_tags lang))) st
    (fun s2 => lmatch (fence_body (CiLit LF) (CiStr FENCE)) s2 Some)
  = Some (after_block (tag ++ info) code st).
Proof.
  intros Hr Ht Hi Hc.
  assert (Hw : ~ In LF (tag ++ info)).
  { intro H. apply in_app_or in H. destruct H as [H | H]; [|now apply Hi].
    now apply (ci_tag_no_LF lang tag Ht). }
  assert (Each : forall b, In b (fence_tags lang) ->
            rmatch (CiStr b) st
              (fun s2 => lmatch (fence_body (CiLit LF) (CiStr FENCE)) s2 Some)
            = if ci_startsWith b (rest st)
              then Some (after_block (tag ++ info) code st) else None).
  { intros b Hb. rewrite rmatch_CiStr.
    destruct (ci_startsWith b (rest st)) eqn:E; [|reflexivity].
    rewrite Hr in E.
    pose proof (ci_prefix_within b (fence_tags_letters lang b Hb) _ _ E) as Hlen.
    set (w := tag ++ info) in *.
    assert (Hs : rest (skip (length b) st)
                 = skipn (length b) w ++ LF :: code ++ FENCE ++ post).
    { rewrite skip_rest, Hr, skipn_app.
      replace (length b - length w) with 0 by lia. reflexivity. }
    rewrite (fence_body_hit (CiLit LF) (CiStr FENCE) rmatch_CiLit_LF
               rmatch_CiStr_fence _ _ _ _ Hs).
    - unfold after_block. rewrite <- (skip_add (length b)).
      rewrite length_skipn.
      replace (length b + S (length w - length b)) with (S (length w)) by lia.
      reflexivity.
    - intro H. apply Hw.
      rewrite <- (firstn_skipn (length b) w). apply in_or_app. now right.
    - exact Hc. }
  apply alts_uniform.
  - intros r Hin. apply in_map_iff in Hin. destruct Hin as (b & <- & Hb).
    rewrite (Each b Hb). destruct (ci_startsWith b (rest st)); auto.
  - destruct Ht as (a & Ha & E). exists (CiStr a).
    split; [now apply in_map|]. rewrite (Each a Ha), Hr, <- app_assoc.
    now rewrite (ci_startsWith_app a tag _ E).
Qed.

(** The attempt at a tagged fence. *)
Lemma fencedWithLang_at (lang : language) (i : nat) (p : option ascii)
      (tag info code post : text) :
  ci_tag lang tag -> ~ In LF info -> no_fence_start code ->
  exists m,
    lmatch_at (fencedWithLang lang) i p
      (FENCE ++ tag ++ info ++ LF :: code ++ FENCE ++ post) = Some m
    /\ group_text 1 m = code.
Proof.
  intros Ht Hi Hc. unfold lmatch_at.
  rewrite lmatch_fencedWithLang, rmatch_CiStr_fence. cbn [rest].
  change (startsWith FENCE (FENCE ++ tag ++ info ++ LF :: code ++ FENCE ++ post))
    with true. cbv iota.
  rewrite (tags_hit lang tag info code post); try assumption.
  - eexists. split; [reflexivity|]. unfold group_text. cbn [groups].
    rewrite after_block_caps. reflexivity.
  - cbn. now rewrite <- app_assoc.
Qed.

(** The attempt at any fence. *)
Lemma fencedAny_at (i : nat) (p : option ascii) (info code post : text) :
  ~ In LF info -> no_fence_start code ->
  exists m,
    lmatch_at fencedAny i p (FENCE ++ info ++ LF :: code ++ FENCE ++ post)
    = Some m
    /\ group_text 1 m = code.
Proof.
  intros Hi Hc. unfold lmatch_at.
  rewrite lmatch_fencedAny, rmatch_Str_fence. cbn [rest].
  change (startsWith FENCE (FENCE ++ info ++ LF :: code ++ FENCE ++ post))
    with true. cbv iota.
  rewrite (fence_body_hit (Lit LF) (Str FENCE) rmatch_Lit_LF rmatch_Str_fence
             info code post); try assumption.
  - eexists. split; [reflexivity|]. unfold group_text. cbn [groups].
    rewrite after_block_caps. reflexivity.
  - reflexivity.
Qed.

(** X11. A tagged code block is returned: when the first fence of
    the response is followed by the language of the analysis or one of
    the six fixed tags, in any letter case, the result is the trimmed
    text between the line feed that ends that line and the next
    fence.  What stands between the tag and the line feed does not
    matter, nor does what follows the closing fence. *)
Theorem X11_tagged_block_is_returned (lang : language)
        (pre tag info code post : text) :
  no_fence_start pre -> ci_tag lang tag -> ~ In LF info ->
  no_fence_start code ->
  extractCodeBlock
    (pre ++ FENCE ++ tag ++ info ++ LF :: code ++ FENCE ++ post) lang
  = trim code.
Proof.
  intros Hp Ht Hi Hc. unfold extractCodeBlock, match_first.
  destruct (lsearch_skip (fencedWithLang lang) pre
              (FENCE ++ tag ++ info ++ LF :: code ++ FENCE ++ post)) with
    (i := 0) (p := @None ascii) as (p' & E).
  - intros a v i p Ea Hv. apply fencedWithLang_needs_fence.
    now apply (no_fence_start_suffix pre Hp a v).
  - rewrite E.
    destruct (fencedWithLang_at lang (0 + length pre) p' tag info code post
                Ht Hi Hc) as (m & Hm & Hg).
    rewrite (lsearch_hit _ _ _ _ _ Hm), Hg. reflexivity.
Qed.

(** An instance: the tag in mixed case, an attribute after it, prose
    with inline code around the block. *)
Lemma X11_witness :
  extractCodeBlock tagged_response typescript = txt "test('adds', () => {})".
Proof.
  refine (X11_tagged_block_is_returned typescript
            (txt "Here are the tests for `add`:" ++ [LF; LF])
            (txt "JavaScript") (txt " title=add.test.js")
            (txt "test('adds', () => {})" ++ [LF; LF])
            (LF :: txt "Run them with `npm test`.") _ _ _ _).
  - reflexivity.
  - exists (txt "javascript"). split; [simpl; auto | reflexivity].
  - intro H. repeat (destruct H as [H | H]; [discriminate H|]). exact H.
  - reflexivity.
Defined.

(** X12. The result never begins or ends with white space, and a
    response without a fence is returned whole, trimmed. *)
Theorem X12_unfenced_response_is_trimmed (response : text) (lang : language) :
  trimmed (extractCodeBlock response lang)
  /\ (includes FENCE response = false ->
      extractCodeBlock response lang = trim response).
Proof.
  split.
  - unfold extractCodeBlock.
    assert (T : forall s, trimmed (trim s)).
    { intro s. destruct (trim_spec s) as (a & b & _ & _ & _ & H). exact H. }
    destruct (match_first (fencedWithLang lang) response); [apply T|].
    destruct (match_first fencedAny response); apply T.
  - intro H. unfold extractCodeBlock, match_first.
    rewrite (lsearch_none (fencedWithLang lang) response).
    + rewrite (lsearch_none fencedAny response); [reflexivity|].
      intros a v i p E. apply fencedAny_needs_fence.
      apply (no_fence_suffix a). now rewrite <- E.
    + intros a v i p E. apply fencedWithLang_needs_fence.
      apply (no_fence_suffix a). now rewrite <- E.
Qed.

(** An instance: a response in plain text. *)
Lemma X12_witness :
  extractCodeBlock (txt "  no code " ++ [LF]) python = txt "no code".
Proof.
  apply (proj2 (X12_unfenced_response_is_trimmed (txt "  no code " ++ [LF])
                  python)).
  reflexivity.
Defined.


(** ** The fallback to any fence *)

Lemma ci_startsWith_line (a : text) :
  Forall (fun c => between 97 122 c = true) a ->
  forall w t, ci_startsWith a (w ++ LF :: t) = ci_startsWith a (w ++ [LF]).
Proof.
  induction 1 as [|c a Hc _ IH]; intros w t; [reflexivity|].
  destruct w as [|x w]; cbn [app ci_startsWith].
  - now rewrite (letter_not_LF c Hc).
  - now rewrite IH.
Qed.

(** A match of the tagged pattern has a second fence ahead. *)
Lemma fencedWithLang_fence_ahead (lang : language) (i : nat)
      (p : option ascii) (v : text) (m : rx_match) :
  lmatch_at (fencedWithLang lang) i p v = Some m ->
  includes FENCE (skipn 3 v) = true.
Proof.
  unfold lmatch_at.
  destruct (lmatch (fencedWithLang lang) _ Some) as [res|] eqn:E; [|discriminate].
  intros _. rewrite lmatch_fencedWithLang, rmatch_CiStr_fence in E.
  cbn [rest] in E. destruct (startsWith FENCE v); [|discriminate].
  apply rmatch_sound in E. destruct E as (st1 & HM & HK).
  apply (fence_body_some _ _ rmatch_CiLit_LF rmatch_CiStr_fence) in HK.
  apply Matches_rest in HM. destruct HM as (_ & HR & _).
  rewrite HR, skip_rest in HK. cbn [rest] in HK.
  now apply includes_skipn in HK.
Qed.

(** No attempt succeeds at a fence that no tag follows. *)
Lemma fencedWithLang_untagged (lang : language) (i : nat) (p : option ascii)
      (info t : text) :
  (forall a, In a (fence_tags lang) -> ci_startsWith a (info ++ [LF]) = false) ->
  lmatch_at (fencedWithLang lang) i p (FENCE ++ info ++ LF :: t) = None.
Proof.
  intro H. unfold lmatch_at.
  rewrite lmatch_fencedWithLang, rmatch_CiStr_fence. cbn [rest].
  change (startsWith FENCE (FENCE ++ info ++ LF :: t)) with true. cbv iota.
  rewrite alts_none; [reflexivity | destruct lang; discriminate |].
  intros r Hin. apply in_map_iff in Hin. destruct Hin as (a & <- & Ha).
  rewrite rmatch_CiStr.
  replace (ci_startsWith a _) with false; [reflexivity|].
  symmetry. rewrite skip_rest. cbn [rest FENCE app skipn].
  rewrite (ci_startsWith_line a (fence_tags_letters lang a Ha)).
  now apply H.
Qed.

Lemma startsWith_fence_head (c : ascii) (s : text) :
  c <> BACKTICK -> startsWith FENCE (c :: s) = false.
Proof.
  intro H. cbn [FENCE startsWith].
  destruct (Ascii.eqb BACKTICK c) eqn:E; [|reflexivity].
  apply Ascii.eqb_eq in E. now destruct H.
Qed.

Lemma suffix_head (u : text) (x : ascii) :
  ~ In x u -> forall a v, u = a ++ v -> v <> [] ->
  exists c tl, v = c :: tl /\ c <> x.
Proof.
  intros Hu a v E Hv. destruct v as [|c tl]; [now destruct Hv|].
  exists c, tl. split; [reflexivity|]. intros ->. apply Hu. rewrite E.
  apply in_or_app. right. now left.
Qed.

(** The search for a tagged block passes over a block whose fence
    line begins with no tag, up to its closing fence. *)
Lemma fencedWithLang_skips_untagged (lang : language)
      (pre info code rest0 : text) (i : nat) (p : option ascii) :
  no_fence_start pre -> ~ In BACKTICK info ->
  (forall a, In a (fence_tags lang) -> ci_startsWith a (info ++ [LF]) = false) ->
  no_fence_start code ->
  exists i' p',
    lsearch (fencedWithLang lang) i p
      (pre ++ FENCE ++ info ++ LF :: code ++ FENCE ++ rest0)
    = lsearch (fencedWithLang lang) i' p' (FENCE ++ rest0).
Proof.
  intros Hp Hb Ht Hc.
  destruct (lsearch_skip (fencedWithLang lang) pre
              (FENCE ++ info ++ LF :: code ++ FENCE ++ rest0)) with
    (i := i) (p := p) as (p1 & E1).
  { intros a v i0 p0 Ea Hv. apply fencedWithLang_needs_fence.
    now apply (no_fence_start_suffix pre Hp a v). }
  rewrite E1. clear E1.
  destruct (lsearch_skip (fencedWithLang lang) (FENCE ++ info)
              (LF :: code ++ FENCE ++ rest0)) with
    (i := i + length pre) (p := p1) as (p2 & E2).
  { intros a v i0 p0 Ea Hv.
    destruct a as [|a0 [|a1 [|a2 a]]]; cbn [app FENCE] in Ea.
    - subst v. exact (fencedWithLang_untagged lang i0 p0 info _ Ht).
    - injection Ea as _ Ea. subst v. apply fencedWithLang_needs_fence.
      cbn [app FENCE startsWith]. rewrite !Ascii.eqb_refl. cbn [andb].
      destruct info as [|c info]; cbn [app]; [reflexivity|].
      destruct (Ascii.eqb BACKTICK c) eqn:E; [|reflexivity].
      apply Ascii.eqb_eq in E. destruct Hb. now left.
    - injection Ea as _ _ Ea. subst v. apply fencedWithLang_needs_fence.
      cbn [app].
      destruct info as [|c info]; cbn [app]; [reflexivity|].
      destruct info as [|c' info]; cbn [app FENCE startsWith].
      + rewrite Ascii.eqb_refl. cbn [andb].
        destruct (Ascii.eqb BACKTICK c) eqn:E; [|reflexivity].
        apply Ascii.eqb_eq in E. destruct Hb. now left.
      + rewrite Ascii.eqb_refl. cbn [andb].
        destruct (Ascii.eqb BACKTICK c) eqn:E; [|reflexivity].
        apply Ascii.eqb_eq in E. destruct Hb. now left.
    - injection Ea as _ _ _ Ea.
      destruct (suffix_head info BACKTICK Hb a v Ea Hv) as (c & tl & -> & Hne).
      apply fencedWithLang_needs_fence. now apply startsWith_fence_head. }
  rewrite <- app_assoc in E2. rewrite E2. clear E2.
  destruct (lsearch_skip (fencedWithLang lang) (LF :: code) (FENCE ++ rest0))
    with (i := i + length pre + length (FENCE ++ info)) (p := p2)
    as (p3 & E3).
  { intros a v i0 p0 Ea Hv. apply fencedWithLang_needs_fence.
    destruct a as [|a0 a]; cbn [app] in Ea.
    - subst v. now apply startsWith_fence_head.
    - injection Ea as _ Ea. now apply (no_fence_start_suffix code Hc a v). }
  change ((LF :: code) ++ FENCE ++ rest0) with (LF :: code ++ FENCE ++ rest0) in E3.
  rewrite E3. eexists. eexists. reflexivity.
Qed.

(** X13. Without a tagged block the first fence decides: when the
    line of the first fence begins with none of the tags and has no
    backtick, and no fence follows the closing one, the result is the
    trimmed text between the line feed that ends the fence line and
    the next fence. *)
Theorem X13_untagged_block_is_returned (lang : language)
        (pre info code post : text) :
  no_fence_start pre ->
  ~ In LF info -> ~ In BACKTICK info ->
  (forall a, In a (fence_tags lang) -> ci_startsWith a (info ++ [LF]) = false) ->
  no_fence_start code ->
  includes FENCE post = false ->
  extractCodeBlock (pre ++ FENCE ++ info ++ LF :: code ++ FENCE ++ post) lang
  = trim code.
Proof.
  intros Hp Hl Hb Ht Hc Hpost. unfold extractCodeBlock, match_first.
  assert (N : lsearch (fencedWithLang lang) 0 None
                (pre ++ FENCE ++ info ++ LF :: code ++ FENCE ++ post) = None).
  { destruct (fencedWithLang_skips_untagged lang pre info code post 0 None
                Hp Hb Ht Hc) as (i' & p' & E).
    rewrite E. clear E.
    apply lsearch_none. intros a v i p Ea.
    destruct (lmatch_at (fencedWithLang lang) i p v) as [m|] eqn:E; [|reflexivity].
    apply fencedWithLang_fence_ahead in E.
    assert (S : skipn 3 v = skipn (length a) post).
    { assert (L : skipn (length a + 3) (a ++ v) = skipn 3 v).
      { rewrite skipn_app.
        replace (length a + 3 - length a) with 3 by lia.
        rewrite skipn_all2 by lia. reflexivity. }
      rewrite <- L, <- Ea, <- skipn_skipn. reflexivity. }
    rewrite S in E. apply includes_skipn in E. congruence. }
  rewrite N.
  destruct (lsearch_skip fencedAny pre
              (FENCE ++ info ++ LF :: code ++ FENCE ++ post)) with
    (i := 0) (p := @None ascii) as (p' & E).
  - intros a v i p Ea Hv. apply fencedAny_needs_fence.
    now apply (no_fence_start_suffix pre Hp a v).
  - rewrite E.
    destruct (fencedAny_at (0 + length pre) p' info code post Hl Hc)
      as (m & Hm & Hg).
    rewrite (lsearch_hit _ _ _ _ _ Hm), Hg. reflexivity.
Qed.

(** An instance: a block tagged [bash]. *)
Lemma X13_witness :
  extractCodeBlock foreign_response python = txt "pytest -q".
Proof.
  refine (X13_untagged_block_is_returned python
            (txt "Run:" ++ [LF]) (txt "bash") (txt "  pytest -q" ++ [LF])
            [LF] _ _ _ _ _ _).
  - reflexivity.
  - intro H. repeat (destruct H as [H | H]; [discriminate H|]). exact H.
  - intro H. repeat (destruct H as [H | H]; [discriminate H|]). exact H.
  - intros a Ha. repeat (destruct Ha as [<- | Ha]; [reflexivity|]). destruct Ha.
  - reflexivity.
  - reflexivity.
Defined.


Lemma no_tag_on_empty_line (lang : language) (a : text) :
  In a (fence_tags lang) -> ci_startsWith a ([] ++ [LF]) = false.
Proof.
  intro Ha. pose proof (fence_tags_letters lang a Ha) as Hl.
  destruct a as [|c a].
  - exfalso. destruct lang; cbn [fence_tags language_name In] in Ha;
      repeat (destruct Ha as [Ha | Ha]; [discriminate Ha|]); exact Ha.
  - inversion Hl; subst. cbn [app ci_startsWith].
    now rewrite letter_not_LF.
Qed.

(** X14. A tagged block is preferred to a block before it that has no
    tag of the list: when the first block is closed by a fence on a
    line of its own and a tagged block follows, the result is the
    trimmed code of the tagged block, not of the first one. *)
Theorem X14_tagged_block_is_preferred (lang : language)
        (pre info0 code0 mid tag info code post : text) :
  no_fence_start pre -> ~ In BACKTICK info0 ->
  (forall a, In a (fence_tags lang) -> ci_startsWith a (info0 ++ [LF]) = false) ->
  no_fence_start code0 -> no_fence_start mid ->
  ci_tag lang tag -> ~ In LF info -> no_fence_start code ->
  extractCodeBlock
    (pre ++ FENCE ++ info0 ++ LF :: code0 ++ FENCE
     ++ LF :: mid ++ FENCE ++ tag ++ info ++ LF :: code ++ FENCE ++ post) lang
  = trim code.
Proof.
  intros Hp Hb Ht Hc0 Hm Htag Hi Hc. unfold extractCodeBlock, match_first.
  destruct (fencedWithLang_skips_untagged lang pre info0 code0
              (LF :: mid ++ FENCE ++ tag ++ info ++ LF :: code ++ FENCE ++ post)
              0 None Hp Hb Ht Hc0) as (i1 & p1 & E1).
  rewrite E1. clear E1.
  destruct (fencedWithLang_skips_untagged lang [] [] mid
              (tag ++ info ++ LF :: code ++ FENCE ++ post) i1 p1)
    as (i2 & p2 & E2).
  - reflexivity.
  - intros [].
  - apply no_tag_on_empty_line.
  - exact Hm.
  - cbn [app] in E2. rewrite E2. clear E2.
    destruct (fencedWithLang_at lang i2 p2 tag info code post Htag Hi Hc)
      as (m & Hm' & Hg).
    rewrite (lsearch_hit _ _ _ _ _ Hm'), Hg. reflexivity.
Qed.

(** An instance: a shell block, then the tests. *)
Lemma X14_witness :
  extractCodeBlock two_block_response javascript = txt "it('works', () => {})".
Proof.
  refine (X14_tagged_block_is_preferred javascript
            (txt "Install first:" ++ [LF]) [] (txt "npm i -D vitest" ++ [LF])
            (LF :: txt "Then the tests:" ++ [LF])
            (txt "ts") [] (txt "it('works', () => {})" ++ [LF]) []
            _ _ _ _ _ _ _ _).
  - reflexivity.
  - intros [].
  - intros a Ha. repeat (destruct Ha as [<- | Ha]; [reflexivity|]). destruct Ha.
  - reflexivity.
  - reflexivity.
  - exists (txt "ts"). split; [simpl; auto 10 | reflexivity].
  - intros [].
  - reflexivity.
Defined.

(* ================================================================== *)
(** * The parts of the prompt                                          *)
(* ================================================================== *)

Lemma includes_join (sep x : text) (parts : list text) :
  In x parts -> includes x (join_with sep parts) = true.
Proof.
  induction parts as [|p parts IH]; intro H; [destruct H|].
  destruct H as [-> | H].
  - destruct parts as [|q parts]; cbn [join_with].
    + apply includes_self.
    + apply includes_app_l, includes_self.
  - specialize (IH H). destruct parts as [|q parts]; [destruct H|].
    change (join_with sep (p :: q :: parts))
      with (p ++ sep ++ join_with sep (q :: parts)).
    now apply includes_app_r, includes_app_r.
Qed.

Lemma join_nonempty (sep : text) (c : ascii) (p : text) (parts : list text) :
  join_with sep ((c :: p) :: parts) <> [].
Proof. destruct parts; cbn [join_with]; discriminate. Qed.

Lemma export_line_signature (e : export_symbol) :
  includes (symbol_signature e) (export_line e) = true.
Proof.
  destruct e as [n s a d | n b ms s]; cbn [export_line symbol_signature].
  - apply includes_app_r, includes_app_r, includes_app_r, includes_self.
  - apply includes_app_r, includes_app_l, includes_self.
Qed.

Lemma export_line_methods (e : export_symbol) (m : method) :
  In m (symbol_methods e) ->
  includes (method_signature m) (export_line e) = true.
Proof.
  destruct e as [n s a d | n b ms s]; cbn [export_line symbol_methods];
    [intros []|].
  intro H. apply includes_app_r, includes_app_r.
  assert (I : includes (method_signature m)
                (join_with [LF] (map method_line ms)) = true).
  { apply (includes_trans _ (method_line m)).
    - unfold method_line. apply includes_app_r, includes_self.
    - apply includes_join. now apply in_map. }
  destruct (join_with [LF] (map method_line ms)) as [|c l] eqn:E.
  { exfalso. destruct ms as [|m0 ms']; [destruct H|].
    exact (join_nonempty [LF] " "%char _ _ E). }
  apply (includes_app_r _ [LF]), includes_app_r, (includes_app_r _ [LF]).
  exact I.
Qed.

(** X15. The two summaries of the prompt leave nothing out: the
    signature of every exported symbol and of every method of a class
    stands in the export summary and every import in the import
    summary; and each summary is empty exactly when the analysis has
    no export, or no import, which is when the prompt falls back on
    its note. *)
Theorem X15_summaries_leave_nothing_out (exports : list export_symbol)
        (imports : list text) :
  (exportSummary exports = [] <-> exports = [])
  /\ Forall (fun e =>
               includes (symbol_signature e) (exportSummary exports) = true
               /\ Forall (fun m => includes (method_signature m)
                                     (exportSummary exports) = true)
                    (symbol_methods e))
       exports
  /\ (importSummary imports = [] <-> imports = [])
  /\ Forall (fun i => includes i (importSummary imports) = true) imports.
Proof.
  split; [|split; [|split]].
  - split; [|now intros ->].
    destruct exports as [|e exports]; [reflexivity|]. intro H. exfalso.
    unfold exportSummary in H. cbn [map] in H.
    destruct e as [n s a d | n b ms s]; cbn [export_line] in H;
      exact (join_nonempty _ _ _ _ H).
  - apply Forall_forall. intros e He.
    assert (L : includes (export_line e) (exportSummary exports) = true).
    { apply includes_join. now apply in_map. }
    split.
    + exact (includes_trans _ _ _ (export_line_signature e) L).
    + apply Forall_forall. intros m Hm.
      exact (includes_trans _ _ _ (export_line_methods e m Hm) L).
  - split; [|now intros ->]. destruct imports; [reflexivity | discriminate].
  - apply Forall_forall. intros i Hi.
    destruct imports as [|i0 imports]; [destruct Hi|].
    unfold importSummary. apply (includes_app_r _ [LF]), includes_app_r.
    now apply includes_join.
Qed.

Lemma truthy_none (o : option text) :
  truthy o = None <-> o = None \/ o = Some [].
Proof.
  destruct o as [[|c t]|]; simpl; split; auto; try discriminate.
  intros [H | H]; discriminate H.
Qed.

Lemma loadExistingTests_run (fs : FileSystem) (path : text) (tr : list fs_op) :
  loadExistingTests fs path tr
  = (Returned (fs_readFile fs path), tr ++ [OpReadFile path]).
Proof.
  unfold loadExistingTests, try_catch, bind, readFile, ret.
  destruct (fs_readFile fs path); reflexivity.
Qed.

(** X16. Loading the existing tests never throws and reads at most
    one file: the result is the content of the file at the path, or
    null when no path is given or the file cannot be read.  Their
    section of the prompt is empty exactly when that result is null
    or empty, is at most 2051 code units long whatever the size of the
    file, and holds the whole file when it has at most 2000 code
    units. *)
Theorem X16_existing_tests_are_bounded (fs : FileSystem)
        (existingTestPath : option text) (tr : list fs_op) :
  exists e,
    existingTests fs existingTestPath tr
    = (Returned e,
       tr ++ match truthy existingTestPath with
             | Some path => [OpReadFile path]
             | None => []
             end)
    /\ e = match truthy existingTestPath with
           | Some path => fs_readFile fs path
           | None => None
           end
    /\ length (existingTestsSection e) <= 2051
    /\ (existingTestsSection e = [] <-> e = None \/ e = Some [])
    /\ (forall tests, e = Some tests -> length tests <= 2000 ->
          tests <> [] -> includes tests (existingTestsSection e) = true).
Proof.
  unfold existingTests.
  exists (match truthy existingTestPath with
          | Some path => fs_readFile fs path
          | None => None
          end).
  split; [|split; [reflexivity|]].
  { destruct (truthy existingTestPath) as [path|].
    - apply loadExistingTests_run.
    - unfold ret. now rewrite app_nil_r. }
  set (e := match truthy existingTestPath with
            | Some path => fs_readFile fs path
            | None => None
            end). clearbody e.
  split; [|split].
  - unfold existingTestsSection. destruct (truthy e) as [tests|]; [|simpl; lia].
    assert (B : length (slice 0 2000 tests) <= 2000).
    { unfold slice. rewrite Nat.sub_0_r. apply firstn_le_length. }
    revert B. generalize (slice 0 2000 tests). intros x B.
    rewrite !length_app.
    replace (length (txt "EXISTING TESTS (do not duplicate these):"))
      with 40 by reflexivity.
    change (length FENCE) with 3. change (length [LF; LF]) with 2.
    change (length [LF]) with 1. lia.
  - rewrite <- truthy_none. unfold existingTestsSection.
    destruct (truthy e); split; try reflexivity; discriminate.
  - intros tests -> Hlen Hne. unfold existingTestsSection.
    destruct tests as [|c tests]; [now destruct Hne|]. cbn [truthy].
    unfold slice. cbn [skipn]. rewrite Nat.sub_0_r, firstn_all2 by exact Hlen.
    apply includes_app_r, includes_app_r, includes_app_r, includes_app_r,
      includes_app_r, includes_app_l, includes_self.
Qed.

(** X17. The import line of the prompt is empty exactly when the
    framework and the language do not go together: a framework other
    than pytest with python, or pytest with javascript or typescript.
    For an analysis [analyzeFile] returns this happens exactly when
    the locator found such a framework: the default framework of a
    language always has an import line. *)
Theorem X17_import_line_of_an_analysis :
  (forall fw lang,
      frameworkImport fw lang = [] <->
      (lang = python /\ fw <> pytest) \/ (lang <> python /\ fw = pytest))
  /\ (forall (P : PathApi) (J : JsonApi) (fs : FileSystem)
             (filePath : text) (tr tr' : list fs_op) (a : FileAnalysis),
        analyzeFile fs filePath tr = (Returned a, tr') ->
        (frameworkImport (fa_framework a) (fa_language a) = [] <->
         exists f, first_signal fs (searchDirs filePath) = Some f
                   /\ ((fa_language a = python /\ f <> pytest)
                       \/ (fa_language a <> python /\ f = pytest)))).
Proof.
  assert (M : forall fw lang,
             frameworkImport fw lang = [] <->
             (lang = python /\ fw <> pytest) \/ (lang <> python /\ fw = pytest)).
  { intros fw lang. destruct fw, lang; vm_compute; split; intro H;
      try discriminate H; try reflexivity;
      try (left; split; [reflexivity | discriminate]);
      try (right; split; [discriminate | reflexivity]);
      destruct H as [(H1 & H2) | (H1 & H2)];
      try discriminate H1; try discriminate H2;
      try (now destruct H1); try (now destruct H2). }
  split; [exact M|].
  intros P J fs filePath tr tr' a H.
  destruct (analyzeFile_returned fs filePath tr tr' a H)
    as (lang & source & HL & HS).
  destruct (analyzeFile_run fs filePath lang source tr HL HS)
    as (a' & Ha & _ & Hlang & _ & Hfw & _).
  assert (a' = a) by congruence. subst a'.
  rewrite M, Hfw, Hlang.
  destruct (first_signal fs (searchDirs filePath)) as [f|].
  - split.
    + intro X. exists f. split; [reflexivity | exact X].
    + intros (f' & E & X). injection E as <-. exact X.
  - split.
    + intros [(-> & X) | (X & Y)]; [now destruct X|].
      destruct lang; try discriminate Y. now destruct X.
    + intros (f' & E & _). discriminate E.
Qed.

(** An instance: a Python file beside a jest config file. *)
Lemma X17_witness :
  exists a tr',
    @analyzeFile posix no_json mixed_fs (txt "app/tool.py") [] = (Returned a, tr')
    /\ fa_language a = python /\ fa_framework a = jest
    /\ frameworkImport (fa_framework a) (fa_language a) = [].
Proof.
  eexists. eexists. split; [vm_compute; reflexivity|].
  split; [reflexivity|]. split; [reflexivity|].
  match goal with
  | |- frameworkImport (fa_framework ?a) _ = [] =>
      apply (proj2 X17_import_line_of_an_analysis posix no_json mixed_fs
               (txt "app/tool.py") [] _ a eq_refl)
  end.
  exists jest. split; [reflexivity|]. left. split; [reflexivity | discriminate].
Defined.
